(** * beer-garden: broker listener, job patch handler and user federation sync

    A shallow embedding of
      - [beer_garden/api/stomp/server.py]  (reply dispatch, listener,
        connect, disconnect, event publishing),
      - [brew_view/handlers/v1/job.py]     (the job PATCH handler, the job
        list filter),
      - [beer_garden/user.py]              (user creation and update, import,
        garden filtering, push, shadow records of remote users),
    followed by the properties established about them.

    Python dictionaries are [gmap]s, [None]-able arguments are [option]s,
    exceptions are an explicit [outcome], and every external collaborator
    (the stomp connection, the router, the scheduler client, the document
    store) is modelled by the state it exposes to this code. *)

From Stdlib Require Import ZArith Ascii String List Bool Lia.
From stdpp Require Import base decidable option list gmap strings fin_maps.

Open Scope string_scope.
Open Scope list_scope.

(** ** Python basics shared by the three modules *)

Module Py.

(** An exception instance: its class and [str(e)].  A class is named as
    the code under study names it; a class of another library that goes
    by the same short name carries its module (mongoengine's
    [ValidationError] is not marshmallow's).  Every exception modelled
    here derives from [Exception]. *)
Record exn : Type := Exn { exn_class : string; exn_msg : string }.

(** The result of running a statement block: it falls through with a
    value or leaves by a raised exception. *)
Inductive outcome (A : Type) : Type :=
| Return (a : A)
| Raise (e : exn).
Arguments Return {A} a.
Arguments Raise {A} e.

#[global] Instance exn_eq_dec : EqDecision exn.
Proof. solve_decision. Defined.

#[global] Instance outcome_eq_dec {A} `{EqDecision A} : EqDecision (outcome A).
Proof. solve_decision. Defined.

Definition bind {A B} (m : outcome A) (k : A -> outcome B) : outcome B :=
  match m with
  | Return a => k a
  | Raise e => Raise e
  end.

Definition returns {A} (m : outcome A) : bool :=
  match m with Return _ => true | Raise _ => false end.

(** Truth value of a [str]: the empty string is falsy. *)
Definition truthy_str (s : string) : bool := negb (bool_decide (s = "")).

(** Truth value of an argument that is [None] or a [str]. *)
Definition truthy_opt (o : option string) : bool :=
  match o with
  | None => false
  | Some s => truthy_str s
  end.

(** The values a routed operation may hand back. *)
#[warnings="-register-all"]
Inductive value : Type :=
| VNone
| VBool (b : bool)
| VInt (z : Z)
| VStr (s : string)
| VList (l : list value)
| VObj (cls : string) (payload : string).

(** [bool(v)]: [None], [False], [0], [""] and [[]] are falsy, a model
    object is truthy. *)
Definition truthy (v : value) : bool :=
  match v with
  | VNone => false
  | VBool b => b
  | VInt z => negb (Z.eqb z 0)
  | VStr s => truthy_str s
  | VList l => match l with nil => false | _ => true end
  | VObj _ _ => true
  end.

End Py.

Export Py.

#[global] Instance outcome_bind : MBind outcome := fun A B k m => Py.bind m k.
#[global] Instance outcome_ret : MRet outcome := fun A a => Return a.

(** ** beer_garden/api/stomp/server.py *)

Module Stomp.

(** Transport headers: a [dict] from header name to header value. *)
Abbreviation headers := (gmap string string).

(** One frame handed to [conn.send]. *)
Record frame : Type := Frame {
  body : string;
  frame_headers : headers;
  destination : option string
}.

(** What this code does to the underlying [stomp.Connection]. *)
Inductive action : Type :=
| ASetSsl (key_file cert_file : option string)
| ASetListener (send_destination : option string)
| AConnect (username passcode : option string)
| ASubscribe (dest : option string) (id : option string)
| ASend (f : frame)
| ADisconnect.

(** The [stomp.Connection] object as seen from here: whether it is
    connected, whether the broker accepts a connect, and the calls made
    on it so far (oldest first). *)
Record connection : Type := Conn {
  connected : bool;
  broker_up : bool;
  calls : list action
}.

Definition is_connected (c : connection) : bool := connected c.

Definition send (c : connection) (b : string) (h : headers)
    (d : option string) : connection :=
  {| connected := connected c; broker_up := broker_up c;
     calls := calls c ++ [ASend (Frame b h d)] |}.

(** The frames sent on a connection, oldest first. *)
Definition sent (c : connection) : list frame :=
  omap (fun a => match a with ASend f => Some f | _ => None end) (calls c).

(** An operation envelope; [V] is the type of keyword-argument values. *)
Record Operation (V : Type) : Type := Op {
  operation_type : string;
  target_garden_name : option string;
  kwargs : gmap string V
}.
Arguments Op {V}.
Arguments operation_type {V}.
Arguments target_garden_name {V}.
Arguments kwargs {V}.

#[global] Instance Operation_eq_dec {V} `{EqDecision V} :
  EqDecision (Operation V).
Proof. solve_decision. Defined.

(** [operation.kwargs.pop("wait_timeout", None)] *)
Definition pop_wait_timeout {V} (op : Operation V) : Operation V :=
  Op (operation_type op) (target_garden_name op)
     (delete "wait_timeout" (kwargs op)).

Section Listener.

Context {V : Type}.

(** Collaborators that live outside this file of the repository:
    [beer_garden.api.stomp.processors], the brewtils parser and the
    router.  The parser, the router and the message processor may
    raise. *)
Variable process_send_message : value -> outcome (string * headers).
Variable append_headers :
  headers -> option headers -> option headers -> headers.
Variable parse_operation : string -> outcome (Operation V).
Variable route : Operation V -> outcome value.

(** [request_headers or {}] *)
Definition or_empty (h : option headers) : headers :=
  match h with
  | Some m => m
  | None => ∅
  end.

Definition send_message (message : value) (garden_headers : option headers)
    (conn : connection) (send_destination : option string)
    (request_headers : option headers) : outcome connection :=
  '(message, response_headers) ← process_send_message message;
  let response_headers :=
    append_headers response_headers request_headers garden_headers in
  if is_connected conn && truthy_opt send_destination then
    match or_empty request_headers !! "reply-to" with
    | Some reply_to =>
        Return (send conn message response_headers (Some reply_to))
    | None =>
        Return (send conn message response_headers send_destination)
    end
  else Return conn.

Definition error_headers_init : headers :=
  {[ "model_class" := "error_message" ]}.

Definition send_error_msg (error_msg : string)
    (request_headers : option headers) (conn : connection)
    (send_destination : option string) (garden_headers : option headers)
    : outcome connection :=
  let error_headers :=
    append_headers error_headers_init
      (Some (or_empty request_headers))
      (Some (or_empty garden_headers)) in
  if is_connected conn then
    match request_headers with
    | None =>
        (* ["reply-to" in None] *)
        Raise (Exn "TypeError" "argument of type 'NoneType' is not iterable")
    | Some rh =>
        match rh !! "reply-to" with
        | Some reply_to =>
            Return (send conn error_msg error_headers (Some reply_to))
        | None =>
            if truthy_opt send_destination then
              Return (send conn error_msg error_headers send_destination)
            else Return conn
        end
    end
  else Return conn.

(** [OperationListener]: the connection it replies on and the default
    destination.  [Connection.__init__] always hands it the connection
    object it has just built. *)
Record OperationListener : Type := Listener {
  listener_conn : connection;
  listener_send_destination : option string
}.

(** The [try] block of [on_message]. *)
Definition on_message_try (self : OperationListener) (hdrs : headers)
    (message : string) : outcome connection :=
  operation ← parse_operation message;
  let operation := pop_wait_timeout operation in
  result ← route operation;
  if truthy result then
    send_message result None (listener_conn self)
      (listener_send_destination self) (Some hdrs)
  else Return (listener_conn self).

(** [on_message]: the connection afterwards and the warnings logged,
    or the exception that escapes. *)
Definition on_message (self : OperationListener) (hdrs : headers)
    (message : string) : outcome (connection * list string) :=
  match on_message_try self hdrs message with
  | Return c => Return (c, [])
  | Raise e =>
      c ← send_error_msg (exn_msg e) (Some hdrs) (listener_conn self)
             (listener_send_destination self) None;
      Return (c, [exn_msg e])
  end.

End Listener.

(** *** class Connection *)

Record ssl_options : Type := Ssl {
  use_ssl : bool;
  private_key : option string;
  cert_file : option string
}.

Inductive log_entry : Type :=
| LInfo (msg : string)
| LDebug (msg : string) (garden_names : list (option string))
| LWarning (msg : string).

Record Connection : Type := Wrapper {
  host_and_ports : option (list (string * Z));
  username : option string;
  password : option string;
  subscribe_destination : option string;
  send_destination : option string;
  bg_active : bool;
  conn : connection
}.

Definition record_call (a : action) (c : connection) : connection :=
  {| connected := connected c; broker_up := broker_up c;
     calls := calls c ++ [a] |}.

(** [Connection.__init__]; [up] says whether the broker behind the new
    [stomp.Connection] accepts connections. *)
Definition init (host_and_ports : option (list (string * Z)))
    (send_destination subscribe_destination : option string)
    (ssl : option ssl_options) (username password : option string)
    (up : bool) : Connection :=
  let c0 := Conn false up [] in
  let c1 :=
    match ssl with
    | Some o =>
        if use_ssl o then record_call (ASetSsl (private_key o) (cert_file o)) c0
        else c0
    | None => c0
    end in
  let c2 :=
    if truthy_opt subscribe_destination
    then record_call (ASetListener send_destination) c1
    else c1 in
  Wrapper host_and_ports username password subscribe_destination
    send_destination true c2.

(** [stomp.Connection.connect(..., wait=True)]: raises when the broker
    cannot be reached. *)
Definition stomp_connect (user pass : option string) (c : connection)
    : outcome connection :=
  let c' := record_call (AConnect user pass) c in
  if broker_up c then
    Return {| connected := true; broker_up := true; calls := calls c' |}
  else Raise (Exn "ConnectFailedException" "").

Definition stomp_subscribe (dest id : option string) (c : connection)
    : connection :=
  record_call (ASubscribe dest id) c.

Definition with_conn (self : Connection) (c : connection) : Connection :=
  Wrapper (host_and_ports self) (username self) (password self)
    (subscribe_destination self) (send_destination self) (bg_active self) c.

(** The [try] block of [Connection.connect].  The connection object is
    returned on both exits: a failed [conn.connect] has still been
    called. *)
Definition connect_try (self : Connection) (connected_message : option string)
    : outcome (connection * list log_entry) * connection :=
  let attempted :=
    record_call (AConnect (username self) (password self)) (conn self) in
  match stomp_connect (username self) (password self) (conn self) with
  | Raise e => (Raise e, attempted)
  | Return c1 =>
      let c2 :=
        if truthy_opt (subscribe_destination self)
        then stomp_subscribe (subscribe_destination self) (username self) c1
        else c1 in
      let logs :=
        match connected_message with
        | Some m =>
            if is_connected c2 then [LInfo ("Stomp successfully " ++ m)%string] else []
        | None => []
        end in
      (Return (c2, logs), c2)
  end.

(** [Connection.connect]: the wrapper afterwards with what was logged, or
    the exception that escapes the handler. *)
Definition connect (self : Connection) (connected_message : option string)
    (wait_time : option Z) (gardens : option (list (gmap string string)))
    : outcome (list log_entry) * Connection :=
  match host_and_ports self with
  | Some (first :: _) =>
      if truthy_str (fst first) && negb (Z.eqb (snd first) 0)
         && truthy_opt (subscribe_destination self)
      then
        match connect_try self connected_message with
        | (Return (_, logs), c) => (Return logs, with_conn self c)
        | (Raise e, c) =>
            match gardens with
            | None =>
                (* [for garden in None] inside the handler *)
                (Raise (Exn "TypeError" "'NoneType' object is not iterable"),
                 with_conn self c)
            | Some gs =>
                (Return
                   [LDebug ("Error connecting: " ++ exn_class e)%string
                      (map (fun g : gmap string string => g !! "name") gs);
                    LWarning "Waiting before next attempt"],
                 with_conn self c)
            end
        end
      else (Return [], self)
  | _ => (Return [], self)
  end.

(** Was [conn.connect] called during a run that took [before] to
    [after]? *)
Definition is_connect_call (a : action) : bool :=
  match a with AConnect _ _ => true | _ => false end.

Definition connect_attempts (c : connection) : nat :=
  length (filter (fun a => is_connect_call a = true) (calls c)).

Definition subscriptions (c : connection) : list (option string) :=
  omap (fun a => match a with ASubscribe d _ => Some d | _ => None end)
       (calls c).

(** [Connection.disconnect]: the flag is cleared and, on a connection
    that reports connected, the broker is asked to disconnect.  The stomp
    connection goes on reporting connected until the broker's receipt
    arrives, which is not this call's doing. *)
Definition disconnect (self : Connection) : Connection :=
  let c := conn self in
  Wrapper (host_and_ports self) (username self) (password self)
    (subscribe_destination self) (send_destination self) false
    (if is_connected c then record_call ADisconnect c else c).

Section Events.

Variable process_send_message : value -> outcome (string * headers).
Variable append_headers :
  headers -> option headers -> option headers -> headers.

(** [Connection.send_event]: the event goes through [send_message] with
    the given headers as garden headers and without request headers. *)
Definition send_event (self : Connection) (event : value)
    (hdrs : option headers) : outcome Connection :=
  c ← send_message process_send_message append_headers event hdrs
        (conn self) (send_destination self) None;
  Return (with_conn self c).

End Events.

End Stomp.

(** ** brew_view/handlers/v1/job.py *)

Module JobApi.

(** The JSON scalars a patch [value] may hold. *)
Inductive patch_value : Type :=
| JNull
| JBool (b : bool)
| JInt (z : Z)
| JStr (s : string).

Definition digit_ascii (n : nat) : ascii := ascii_of_nat (48 + n).

(** Decimal digits of a natural number, most significant first; [fuel]
    bounds the number of digits. *)
Fixpoint digits (fuel n : nat) (acc : string) : string :=
  match fuel with
  | O => acc
  | S fuel' =>
      let acc' := String (digit_ascii (n mod 10)) acc in
      if Nat.eqb (n / 10) 0 then acc' else digits fuel' (n / 10) acc'
  end.

Definition str_nat (n : nat) : string := digits (S n) n "".

(** [str(op.value)] *)
Definition py_str (v : patch_value) : string :=
  match v with
  | JNull => "None"
  | JBool true => "True"
  | JBool false => "False"
  | JInt z =>
      if Z.ltb z 0 then ("-" ++ str_nat (Z.to_nat (Z.opp z)))%string
      else str_nat (Z.to_nat z)
  | JStr s => s
  end.

(** What [str.upper] does to a text of ASCII characters: the letters
    [a] to [z] become [A] to [Z].  On other text [str.upper] follows the
    Unicode case mapping (it takes U+017F, the long s, to [S]), which is
    Python's and not written out here: the handler below takes
    [str.upper] as it is given. *)
Definition upper_ascii (c : ascii) : ascii :=
  let n := nat_of_ascii c in
  if Nat.leb 97 n && Nat.leb n 122 then ascii_of_nat (n - 32) else c.

Fixpoint ascii_upper (s : string) : string :=
  match s with
  | EmptyString => EmptyString
  | String c rest => String (upper_ascii c) (ascii_upper rest)
  end.

Record PatchOperation : Type := Patch {
  operation : string;
  path : string;
  value : patch_value
}.

Inductive call : Type :=
| PauseJob (job_id : string)
| ResumeJob (job_id : string).

Definition ModelValidationError (msg : string) : exn :=
  Exn "ModelValidationError" msg.

Section Handler.

(** Python's [str.upper], on texts held as their UTF-8 bytes. *)
Variable upper : string -> string.

(** The scheduler backend behind [brew_view.thrift_context()]: its
    state [B], the responses [R] it gives, and its two calls. *)
Context {B R : Type}.
Variable pauseJob : string -> B -> R * B.
Variable resumeJob : string -> B -> R * B.

(** The backend together with the calls this handler made on it,
    oldest first. *)
Record client : Type := Client { backend : B; made : list call }.

Definition call_pause (job_id : string) (c : client) : R * client :=
  let '(r, b) := pauseJob job_id (backend c) in
  (r, Client b (made c ++ [PauseJob job_id])).

Definition call_resume (job_id : string) (c : client) : R * client :=
  let '(r, b) := resumeJob job_id (backend c) in
  (r, Client b (made c ++ [ResumeJob job_id])).

(** One pass of the body of [for op in operations]: the new binding of
    [response], or the validation error. *)
Definition patch_step (job_id : string) (op : PatchOperation) (c : client)
    : outcome R * client :=
  if bool_decide (operation op = "update") then
    if bool_decide (path op = "/status") then
      if bool_decide (upper (py_str (value op)) = "PAUSED") then
        let '(r, c') := call_pause job_id c in (Return r, c')
      else if bool_decide (upper (py_str (value op)) = "RUNNING") then
        let '(r, c') := call_resume job_id c in (Return r, c')
      else
        (Raise (ModelValidationError
                  ("Unsupported status value '" ++ py_str (value op) ++ "'")%string),
         c)
    else
      (Raise (ModelValidationError
                ("Unsupported path value '" ++ path op ++ "'")%string), c)
  else
    (Raise (ModelValidationError
              ("Unsupported operation '" ++ operation op ++ "'")%string), c).

(** The loop; [response] is [None] while the name is unbound. *)
Fixpoint patch_loop (job_id : string) (ops : list PatchOperation)
    (response : option R) (c : client) : outcome (option R) * client :=
  match ops with
  | [] => (Return response, c)
  | op :: rest =>
      match patch_step job_id op c with
      | (Return r, c') => patch_loop job_id rest (Some r) c'
      | (Raise e, c') => (Raise e, c')
      end
  end.

(** [JobAPI.patch] on the parsed operations: what [self.write] is
    given, or the exception that reaches the framework. *)
Definition patch (job_id : string) (ops : list PatchOperation) (c : client)
    : outcome R * client :=
  match patch_loop job_id ops None c with
  | (Return (Some r), c') => (Return r, c')
  | (Return None, c') =>
      (Raise (Exn "UnboundLocalError"
                "local variable 'response' referenced before assignment"),
       c')
  | (Raise e, c') => (Raise e, c')
  end.

End Handler.

(** *** class JobListAPI *)

Section ListHandler.

(** Outside this file of the repository: the attribute names of
    [JobSchema], tornado's [get_query_argument], the job collection's
    [filter] and the parser's [serialize_job]. *)
Context {J : Type}.
Variable attribute_names : list string.
Variable get_query_argument : string -> outcome string.
Variable objects_filter : gmap string string -> list J.
Variable serialize_job : list J -> string.

(** The loop of [JobListAPI.get] over [self.request.arguments.keys()]. *)
Fixpoint filter_params_loop (keys : list string)
    (filter_params : gmap string string) : outcome (gmap string string) :=
  match keys with
  | [] => Return filter_params
  | key :: rest =>
      if bool_decide (key ∈ attribute_names) then
        v ← get_query_argument key;
        filter_params_loop rest (<[key := v]> filter_params)
      else filter_params_loop rest filter_params
  end.

(** [JobListAPI.get]: what [self.write] is given.  The request arguments
    are the argument names, in the dictionary's order, with their
    values. *)
Definition list_get (arguments : list (string * list string))
    : outcome string :=
  filter_params ← filter_params_loop (arguments.*1) ∅;
  Return (serialize_job (objects_filter filter_params)).

End ListHandler.

End JobApi.

(** ** beer_garden/user.py *)

Module UserSync.

(** *** Documents *)

Record Domain : Type := Dom {
  scope : string;
  identifiers : gmap string string
}.

Record RoleAssignment : Type := Assign {
  role : string;
  domain : Domain
}.

Record Garden : Type := Gdn {
  name : string;
  connection_type : option string;
  namespaces : list string
}.

#[global] Instance Domain_eq_dec : EqDecision Domain.
Proof. solve_decision. Defined.

#[global] Instance RoleAssignment_eq_dec : EqDecision RoleAssignment.
Proof. solve_decision. Defined.

(** Attribute values of a user: [None], a string, a list of role
    assignments held by value (in a stored document or a serialized
    user), or a reference to a list object (in a live [User] object). *)
Inductive uval : Type :=
| UNone
| UStr (s : string)
| URoles (l : list RoleAssignment)
| URef (l : nat).

#[global] Instance uval_eq_dec : EqDecision uval.
Proof. solve_decision. Defined.

(** A [dict] of attributes: a stored [User] document, a serialized user,
    or the keyword arguments given to [update_user]. *)
Abbreviation doc := (gmap string uval).

Record RemoteUser : Type := Remote {
  remote_garden : uval;
  remote_username : uval;
  remote_role_assignments : uval;
  updated_at : option Z
}.

(** The collections this module reads and writes. *)
Record db : Type := Db {
  users : list doc;
  remote_users : list RemoteUser;
  gardens : list Garden
}.

#[global] Instance Garden_eq_dec : EqDecision Garden.
Proof. solve_decision. Defined.

#[global] Instance RemoteUser_eq_dec : EqDecision RemoteUser.
Proof. solve_decision. Defined.

#[global] Instance db_eq_dec : EqDecision db.
Proof. solve_decision. Defined.

(** *** _filter_role_assigments_by_garden *)

(** [x in namespaces] for [x = identifiers.get(key)], which is [None]
    when the key is absent. *)
Definition get_in (ids : gmap string string) (key : string)
    (namespaces : list string) : bool :=
  match ids !! key with
  | Some x => bool_decide (x ∈ namespaces)
  | None => false
  end.

(** The condition of the comprehension. *)
Definition applies (namespaces : list string) (assignment : RoleAssignment)
    : bool :=
  let d := domain assignment in
  bool_decide (scope d = "Global")
  || (bool_decide (scope d = "Garden")
      && get_in (identifiers d) "name" namespaces)
  || (bool_decide (scope d = "System")
      && get_in (identifiers d) "namespace" namespaces).

(** Live objects: a [User] instance with its attribute dictionary, or a
    Python list of role assignments.  A location is an index into the
    heap; allocation appends. *)
Inductive cell : Type :=
| CUser (attrs : doc)
| CList (items : list RoleAssignment).

Abbreviation heap := (list cell).

Definition alloc (h : heap) (c : cell) : nat * heap :=
  (List.length h, (h ++ [c])%list).

Definition AttributeError (attr : string) : exn :=
  Exn "AttributeError" ("object has no attribute '" ++ attr ++ "'")%string.

Definition TypeError (msg : string) : exn := Exn "TypeError" msg.

Definition _filter_role_assigments_by_garden (user : nat) (garden : Garden)
    (h : heap) : outcome (nat * heap) :=
  let namespaces := namespaces garden in
  match h !! user with
  | Some (CUser attrs) =>
      (* filtered_user = copy(user) *)
      let '(filtered_user, h1) := alloc h (CUser attrs) in
      match attrs !! "role_assignments" with
      | Some (URef l) =>
          match h1 !! l with
          | Some (CList items) =>
              let '(l', h2) :=
                alloc h1 (CList (List.filter (applies namespaces) items)) in
              Return
                (filtered_user,
                 <[filtered_user :=
                     CUser (<["role_assignments" := URef l']> attrs)]> h2)
          | _ => Raise (TypeError "role_assignments is not iterable")
          end
      | _ => Raise (AttributeError "role_assignments")
      end
  | _ => Raise (AttributeError "role_assignments")
  end.

(** The role assignments a live user object currently holds. *)
Definition role_assignments_of (h : heap) (user : nat)
    : option (list RoleAssignment) :=
  match h !! user with
  | Some (CUser attrs) =>
      match attrs !! "role_assignments" with
      | Some (URef l) =>
          match h !! l with
          | Some (CList items) => Some items
          | _ => None
          end
      | _ => None
      end
  | _ => None
  end.

(** A live user with its list read out by value, as a serializer sees
    it. *)
Definition snapshot (h : heap) (user : nat) : option doc :=
  match h !! user with
  | Some (CUser attrs) =>
      items ← role_assignments_of h user;
      Some (<["role_assignments" := URoles items]> attrs)
  | _ => None
  end.

(** *** The document store *)

Inductive get_result : Type :=
| Found (i : nat) (d : doc)
| DoesNotExist
| MultipleObjectsReturned.

#[global] Instance get_result_eq_dec : EqDecision get_result.
Proof. solve_decision. Defined.

Definition has_username (u : uval) (d : doc) : Prop :=
  d !! "username" = Some u.

#[global] Instance has_username_dec u d : Decision (has_username u d).
Proof. unfold has_username. apply _. Defined.

(** [User.objects.get(username=u)]: the one matching document and its
    place in the collection. *)
Definition objects_get (u : uval) (coll : list doc) : get_result :=
  match list_find (has_username u) coll with
  | None => DoesNotExist
  | Some (i, d) =>
      if decide (Exists (has_username u) (drop (S i) coll))
      then MultipleObjectsReturned
      else Found i d
  end.

(** The write of [user.save()] for the object loaded from (or first
    saved at) place [i]. *)
Definition write (i : nat) (d : doc) (coll : list doc) : list doc :=
  if decide (i < List.length coll) then <[i := d]> coll
  else (coll ++ [d])%list.

(** The unique index on [username]: another stored user has the username
    of [d] (as the index has it, an unset username is one value). *)
Definition taken (i : nat) (d : doc) (coll : list doc) : bool :=
  bool_decide
    (Exists (fun jd : nat * doc =>
               jd.1 <> i /\ jd.2 !! "username" = d !! "username")
            (imap pair coll)).

(** What [save()] raises: mongoengine's [ValidationError] for a document
    the class rejects, [NotUniqueError] for a write the unique index
    refuses. *)
Definition DocumentValidationError (msg : string) : exn :=
  Exn "mongoengine.errors.ValidationError" msg.

Definition NotUniqueError : exn :=
  Exn "NotUniqueError" "Tried to save duplicate unique keys".

Definition with_users (st : db) (us : list doc) : db :=
  Db us (remote_users st) (gardens st).

(** [bool(v)] and [len(v)] on attribute values. *)
Definition truthy_u (v : uval) : bool :=
  match v with
  | UNone => false
  | UStr s => truthy_str s
  | URoles l => match l with [] => false | _ => true end
  | URef _ => true
  end.

Definition len (v : uval) : outcome nat :=
  match v with
  | URoles l => Return (List.length l)
  | UStr s => Return (String.length s)
  | _ => Raise (TypeError "object has no len()")
  end.

(** What the module does besides writing the store. *)
Inductive effect : Type :=
| LogInfo (msg : string) (username : uval) (cause : exn)
| Published (event_name : string) (garden : string) (user : doc)
| Routed (op : Stomp.Operation (list doc)).

#[global] Instance effect_eq_dec : EqDecision effect.
Proof. solve_decision. Defined.

Definition KeyError (key : string) : exn := Exn "KeyError" key.

(** A run of a block that writes the store: how it ended, the store
    afterwards (also when it raised), and its effects in order. *)
Definition run : Type := outcome unit * db * list effect.

Section Sync.

(** Outside this file of the repository: the password hash behind
    [User.set_password], the validation of the document classes [User]
    and [RemoteUser] ([validate()] returns [None] for a document the
    class accepts and raises with a message otherwise), the two
    marshmallow schemas, the configured garden name and the router.
    The hash is salted: [hash] stands for what it returns in one run,
    and where two runs are compared each run takes a hash of its
    own. *)
Variable hash : uval -> uval.
Variable User_validate : doc -> option string.
Variable RemoteUser_validate : RemoteUser -> option string.
Variable UserPatchSchema_load : doc -> outcome doc.
Variable UserSyncSchema_dump : doc -> doc.
Variable garden_name : string.
Variable route : Stomp.Operation (list doc) -> outcome unit.

(** [hashed_password is None], where an absent keyword takes the
    default [None]. *)
Definition is_None (o : option uval) : bool :=
  match o with
  | None | Some UNone => true
  | Some _ => false
  end.

Definition set_password (user : doc) (password : uval) : doc :=
  <["password" := hash password]> user.

Definition setattr (user : doc) (key : string) (value : uval) : doc :=
  <[key := value]> user.

(** The body of [for key, value in kwargs.items()]. *)
Definition update_attr (hashed_password : option uval) (key : string)
    (value : uval) (user : doc) : doc :=
  if bool_decide (key = "password") && is_None hashed_password
  then set_password user value
  else setattr user key value.

(** The attribute writes of [update_user]. *)
Definition update_attrs (user : doc) (hashed_password : option uval)
    (kwargs : doc) : doc :=
  let user := map_fold (update_attr hashed_password) user kwargs in
  match hashed_password with
  | Some h => if truthy_u h then <["password" := h]> user else user
  | None => user
  end.

Definition _publish_user_updated (user : doc) : effect :=
  Published "USER_UPDATED" garden_name (UserSyncSchema_dump user).

(** [user.save()] for the object kept at place [i] of the collection:
    the document is validated, then written unless the unique index
    refuses it. *)
Definition save (i : nat) (user : doc) (st : db) : outcome db :=
  match User_validate user with
  | Some msg => Raise (DocumentValidationError msg)
  | None =>
      if taken i user (users st) then Raise NotUniqueError
      else Return (with_users st (write i user (users st)))
  end.

(** [update_user(user, hashed_password, **kwargs)] for the object kept
    at place [i] of the collection: the updated user, or the exception
    of [save()], with the store and the event published. *)
Definition update_user (i : nat) (user : doc)
    (hashed_password : option uval) (kwargs : doc) (st : db)
    : outcome doc * db * list effect :=
  let user := update_attrs user hashed_password kwargs in
  match save i user st with
  | Raise e => (Raise e, st, [])
  | Return st' => (Return user, st', [_publish_user_updated user])
  end.

(** The call [update_user(user, **updated_user_data)]: the key
    [hashed_password] binds the named parameter, a key [user] collides
    with the positional one. *)
Definition call_update_user (i : nat) (user : doc) (data : doc) (st : db)
    : run :=
  match data !! "user" with
  | Some _ =>
      (Raise (TypeError "update_user() got multiple values for argument 'user'"),
       st, [])
  | None =>
      let '(o, st', t) :=
        update_user i user (data !! "hashed_password")
          (delete "hashed_password" data) st in
      (_ ← o; Return tt, st', t)
  end.

(** The [try] block of the loop body of [_import_users]. *)
Definition import_try (username : uval) (serialized_user : doc) (st : db)
    : run :=
  match UserPatchSchema_load serialized_user with
  | Raise e => (Raise e, st, [])
  | Return updated_user_data =>
      match objects_get username (users st) with
      | Found i user => call_update_user i user updated_user_data st
      | DoesNotExist =>
          match updated_user_data !! "role_assignments" with
          | None => (Raise (KeyError "role_assignments"), st, [])
          | Some ras =>
              match len ras with
              | Raise e => (Raise e, st, [])
              | Return n =>
                  if (0 <? n)%nat then
                    let user : doc := {[ "username" := username ]} in
                    let i := List.length (users st) in
                    match save i user st with
                    | Raise e => (Raise e, st, [])
                    | Return st' =>
                        call_update_user i user updated_user_data st'
                    end
                  else (Return tt, st, [])
              end
          end
      | MultipleObjectsReturned =>
          (Raise (Exn "MultipleObjectsReturned" ""), st, [])
      end
  end.

(** The loop body of [_import_users]: only a [ValidationError] is
    handled. *)
Definition import_one (serialized_user : doc) (st : db) : run :=
  match serialized_user !! "username" with
  | None => (Raise (KeyError "username"), st, [])
  | Some username =>
      match import_try username serialized_user st with
      | (Raise e, st', t) =>
          if bool_decide (exn_class e = "ValidationError")
          then (Return tt, st', (t ++ [LogInfo "Failed to import user" username e])%list)
          else (Raise e, st', t)
      | r => r
      end
  end.

Fixpoint _import_users (serialized_users : list doc) (st : db) : run :=
  match serialized_users with
  | [] => (Return tt, st, [])
  | serialized_user :: rest =>
      match import_one serialized_user st with
      | (Return _, st', t) =>
          let '(o, st'', t') := _import_users rest st' in
          (o, st'', (t ++ t')%list)
      | r => r
      end
  end.

(** *** initiate_user_sync *)

Definition doc_roles (d : doc) : list RoleAssignment :=
  match d !! "role_assignments" with
  | Some (URoles l) => l
  | _ => []
  end.

(** One live [User] object for a stored document: its assignment list
    is an object of its own. *)
Definition instantiate (d : doc) (h : heap) : nat * heap :=
  let '(l, h1) := alloc h (CList (doc_roles d)) in
  alloc h1 (CUser (<["role_assignments" := URef l]> d)).

(** [User.objects.all()], fetched once: the same objects are iterated
    for every garden. *)
Fixpoint objects_all (docs : list doc) (h : heap) : list nat * heap :=
  match docs with
  | [] => ([], h)
  | d :: rest =>
      let '(u, h1) := instantiate d h in
      let '(us, h2) := objects_all rest h1 in
      (u :: us, h2)
  end.

(** [[_filter_role_assigments_by_garden(user, garden) for user in users]] *)
Fixpoint filter_users (us : list nat) (garden : Garden) (h : heap)
    : outcome (list nat * heap) :=
  match us with
  | [] => Return ([], h)
  | u :: rest =>
      '(f, h1) ← _filter_role_assigments_by_garden u garden h;
      '(fs, h2) ← filter_users rest garden h1;
      Return (f :: fs, h2)
  end.

(** [UserSyncSchema(many=True, strict=True).dump(filtered_users).data] *)
Definition dump_many (h : heap) (us : list nat) : outcome (list doc) :=
  match mapM (snapshot h) us with
  | Some ds => Return (map UserSyncSchema_dump ds)
  | None => Raise (AttributeError "role_assignments")
  end.

(** [connection_type__nin=["LOCAL", None]] *)
Definition is_remote (g : Garden) : bool :=
  match connection_type g with
  | None => false
  | Some t => negb (bool_decide (t = "LOCAL"))
  end.

Definition sync_operation (g : Garden) (serialized_users : list doc)
    : Stomp.Operation (list doc) :=
  Stomp.Op "USER_SYNC" (Some (name g))
    {[ "serialized_users" := serialized_users ]}.

(** The loop over the gardens: how it ended and the operations handed
    to the router, in order. *)
Fixpoint sync_gardens (gs : list Garden) (us : list nat) (h : heap)
    : outcome unit * list effect :=
  match gs with
  | [] => (Return tt, [])
  | garden :: rest =>
      match filter_users us garden h with
      | Raise e => (Raise e, [])
      | Return (filtered_users, h1) =>
          match dump_many h1 filtered_users with
          | Raise e => (Raise e, [])
          | Return serialized_users =>
              let operation := sync_operation garden serialized_users in
              match route operation with
              | Raise e => (Raise e, [Routed operation])
              | Return _ =>
                  let '(o, t) := sync_gardens rest us h1 in
                  (o, Routed operation :: t)
              end
          end
      end
  end.

Definition initiate_user_sync (st : db) : outcome unit * list effect :=
  let '(us, h) := objects_all (users st) [] in
  let gs := List.filter is_remote (gardens st) in
  sync_gardens gs us h.

(** *** user_sync *)

Definition user_sync (serialized_users : list doc) (st : db) : run :=
  match _import_users serialized_users st with
  | (Return _, st', t) =>
      let '(o, t') := initiate_user_sync st' in
      (o, st', (t ++ t')%list)
  | r => r
  end.

(** *** create_user *)

(** [create_user] with its keywords: the new document is the keywords,
    with a truthy password replaced by its hash, saved at the end of the
    collection; the created user, or the exception of [save()], with the
    store. *)
Definition create_user (kwargs : doc) (st : db) : outcome doc * db :=
  let user : doc := kwargs in
  let user :=
    match user !! "password" with
    | Some p => if truthy_u p then set_password user p else user
    | None => user
    end in
  match save (List.length (users st)) user st with
  | Raise e => (Raise e, st)
  | Return st' => (Return user, st')
  end.

(** *** The shadow records *)

Definition is_remote_user (g u : uval) (r : RemoteUser) : Prop :=
  remote_garden r = g /\ remote_username r = u.

#[global] Instance is_remote_user_dec g u r : Decision (is_remote_user g u r).
Proof. unfold is_remote_user. apply _. Defined.

Inductive remote_result : Type :=
| RFound (i : nat) (r : RemoteUser)
| RDoesNotExist
| RMultipleObjectsReturned.

(** [RemoteUser.objects.get(garden=g, username=u)] *)
Definition remote_get (g u : uval) (rs : list RemoteUser) : remote_result :=
  match list_find (is_remote_user g u) rs with
  | None => RDoesNotExist
  | Some (i, r) =>
      if decide (Exists (is_remote_user g u) (drop (S i) rs))
      then RMultipleObjectsReturned
      else RFound i r
  end.

Definition with_remote_users (st : db) (rs : list RemoteUser) : db :=
  Db (users st) rs (gardens st).

(** *** user_synced_with_garden *)

(** [user.username] of a live object; an unset field reads as [None]. *)
Definition username_of (attrs : doc) : uval :=
  match attrs !! "username" with
  | Some u => u
  | None => UNone
  end.

Definition user_synced_with_garden (user : nat) (garden : Garden) (h : heap)
    (st : db) : outcome bool :=
  match h !! user with
  | Some (CUser attrs) =>
      match remote_get (UStr (name garden)) (username_of attrs)
              (remote_users st) with
      | RDoesNotExist => Return false
      | RMultipleObjectsReturned =>
          Raise (Exn "MultipleObjectsReturned" "")
      | RFound _ remote_user =>
          '(filtered, h') ← _filter_role_assigments_by_garden user garden h;
          match snapshot h' filtered with
          | None => Raise (AttributeError "role_assignments")
          | Some view =>
              match UserSyncSchema_dump view !! "role_assignments" with
              | None => Raise (KeyError "role_assignments")
              | Some role_assignments =>
                  Return (bool_decide
                            (role_assignments
                             = remote_role_assignments remote_user))
              end
          end
      end
  | _ => Raise (AttributeError "username")
  end.

(** *** handle_event *)

Record Event : Type := Ev {
  event_name : string;
  event_garden : string;
  metadata_garden : option uval;
  metadata_user : option doc;
  timestamp : option Z
}.

(** The line [_handle_user_updated_event] logs for a [KeyError]. *)
Definition parse_error (event : Event) : string :=
  ("Error parsing " ++ event_name event ++ " event from garden "
   ++ event_garden event)%string.

(** [remote_user.updated_at = updated_at]: the field has a default, the
    clock, which mongoengine puts in the place of an assigned [None];
    [utcnow] is the clock's reading then. *)
Definition assigned_at (utcnow : Z) (updated_at : option Z) : option Z :=
  match updated_at with
  | Some t => Some t
  | None => Some utcnow
  end.

(** [remote_user.save()]: the record is validated, then written at its
    place [i] (the end of the collection for a new one).  It is saved
    right after [get] found it or found no such record, so that a unique
    index on garden and username would refuse none of these writes. *)
Definition remote_save (i : nat) (remote_user : RemoteUser) (st : db)
    : outcome db :=
  match RemoteUser_validate remote_user with
  | Some msg => Raise (DocumentValidationError msg)
  | None =>
      Return
        (with_remote_users st
           (if decide (i < List.length (remote_users st))
            then <[i := remote_user]> (remote_users st)
            else remote_users st ++ [remote_user]))
  end.

(** [_handle_user_updated_event], run when the clock reads [utcnow]: the
    store afterwards and the errors logged.  Only a [KeyError] is
    handled, by logging; an exception that leaves the function was
    raised before anything was written. *)
Definition _handle_user_updated_event (utcnow : Z) (event : Event) (st : db)
    : outcome (db * list string) :=
  match metadata_garden event, metadata_user event with
  | Some garden, Some updated_user =>
      match updated_user !! "username",
            updated_user !! "role_assignments" with
      | Some username, Some role_assignments =>
          match remote_get garden username (remote_users st) with
          | RFound i remote_user =>
              st' ← remote_save i
                      (Remote (remote_garden remote_user)
                         (remote_username remote_user)
                         role_assignments
                         (assigned_at utcnow (timestamp event))) st;
              Return (st', [])
          | RDoesNotExist =>
              st' ← remote_save (List.length (remote_users st))
                      (Remote garden username role_assignments
                         (assigned_at utcnow (timestamp event))) st;
              Return (st', [])
          | RMultipleObjectsReturned =>
              Raise (Exn "MultipleObjectsReturned" "")
          end
      | _, _ => Return (st, [parse_error event])
      end
  | _, _ => Return (st, [parse_error event])
  end.

Definition handle_event (utcnow : Z) (event : Event) (st : db)
    : outcome (db * list string) :=
  if bool_decide (event_garden event = garden_name) then Return (st, [])
  else if bool_decide (event_name event = "USER_UPDATED")
  then _handle_user_updated_event utcnow event st
  else Return (st, []).

End Sync.

End UserSync.


(** ** Stand-ins for the collaborators, used to run the model *)

Module Sample.

Import Stomp UserSync.

(** Modelled from the spec: [append_headers] of
    [beer_garden.api.stomp.processors], which is not under src/.  Section
    4.3 has the envelope merge its layers with the garden headers and the
    response headers taking precedence over the request headers. *)
Definition append_headers (response_headers : headers)
    (request_headers garden_headers : option headers) : headers :=
  response_headers ∪ or_empty garden_headers ∪ or_empty request_headers.

(** Modelled from the spec: [process_send_message] of
    [beer_garden.api.stomp.processors], which is not under src/.  Section
    4.3 has the codec encode a result to a body and name its payload type
    in the [model_class] header. *)
Definition process_send_message (message : value) : outcome (string * headers) :=
  match message with
  | VObj cls payload => Return (payload, {[ "model_class" := cls ]})
  | VStr s => Return (s, ∅)
  | _ => Raise (Exn "TypeError" "cannot serialize")
  end.

(** A parser that accepts bodies naming an operation type, and a router
    that fails on the type [BAD], answers [None] to [QUIET] and answers
    with a model object otherwise. *)
Definition parse_operation (body : string) : outcome (Operation string) :=
  if bool_decide (body = "") then Raise (Exn "ParseError" "empty body")
  else Return (Op body None ∅).

Definition route (op : Operation string) : outcome value :=
  if bool_decide (operation_type op = "BAD")
  then Raise (Exn "RoutingError" "unknown operation")
  else if bool_decide (operation_type op = "QUIET") then Return VNone
  else Return (VObj "Request" "{}").

(** Modelled from the spec: [UserPatchSchema] of
    [beer_garden.api.http.schemas.v1.user], which is not under src/.
    Section 4.7 has the import validate each serialized user, which may
    carry a role-assignment set and a pre-hashed credential; other keys of
    the wire record are not part of the patch. *)
Definition patch_fields : list string :=
  ["role_assignments"; "password"; "hashed_password"].

Definition well_typed (key : string) (v : uval) : bool :=
  if bool_decide (key = "role_assignments")
  then match v with URoles _ => true | _ => false end
  else match v with UStr _ => true | _ => false end.

Definition UserPatchSchema_load (serialized_user : doc) : outcome doc :=
  let data : doc :=
    filter (fun kv : string * uval => kv.1 ∈ patch_fields) serialized_user in
  if forallb (fun kv : string * uval => well_typed kv.1 kv.2) (map_to_list data)
  then Return data
  else Raise (Exn "ValidationError" "invalid field").

Definition UserSyncSchema_dump (user : doc) : doc :=
  filter (fun kv : string * uval => kv.1 ∈ ["username"; "role_assignments"]) user.

Definition hash (password : uval) : uval :=
  match password with
  | UStr s => UStr ("$hash$" ++ s)%string
  | v => v
  end.

(** Modelled from the spec: the document classes [User] and [RemoteUser]
    of [beer_garden.db.mongo.models], which is not under src/.  Section 3
    has a user be an identity with a set of role assignments, and a
    shadow record be keyed by garden and username and hold a
    role-assignment set; the stand-ins accept a user whose username is a
    string, and a shadow record whose garden and username are strings
    and whose role assignments are a list. *)
Definition User_validate (user : doc) : option string :=
  match user !! "username" with
  | Some (UStr _) => None
  | _ => Some "Field is required: ['username']"
  end.

Definition RemoteUser_validate (remote_user : RemoteUser) : option string :=
  match remote_garden remote_user, remote_username remote_user,
        remote_role_assignments remote_user with
  | UStr _, UStr _, URoles _ => None
  | _, _, _ => Some "Invalid document"
  end.

Definition route_sync (op : Operation (list doc)) : outcome unit := Return tt.

(** An upper-casing for texts of ASCII characters, where it is
    [str.upper]; the examples hold no other text. *)
Definition upper : string -> string := JobApi.ascii_upper.

(** A scheduler backend that keeps one job's status and answers each call
    with the new status. *)
Definition pauseJob (job_id : string) (status : string) : string * string :=
  ("PAUSED", "PAUSED").

Definition resumeJob (job_id : string) (status : string) : string * string :=
  ("RUNNING", "RUNNING").

(** The user of the specification's filtering example: assignments scoped
    [Global], [Garden] b and [System] ns1, held by a live object, and a
    remote garden owning the namespace ns1. *)
Definition global_role : RoleAssignment := Assign "admin" (Dom "Global" ∅).

Definition garden_b_role : RoleAssignment :=
  Assign "operator" (Dom "Garden" {[ "name" := "b" ]}).

Definition system_ns1_role : RoleAssignment :=
  Assign "reader" (Dom "System" {[ "namespace" := "ns1" ]}).

Definition alice_heap : heap :=
  [CList [global_role; garden_b_role; system_ns1_role];
   CUser {[ "username" := UStr "alice"; "role_assignments" := URef 0 ]}].

Definition child_garden : Garden := Gdn "child" (Some "STOMP") ["ns1"].

(** A store with the example user, the example garden and the local
    garden. *)
Definition alice_doc : doc :=
  {[ "username" := UStr "alice";
     "role_assignments" :=
       URoles [global_role; garden_b_role; system_ns1_role] ]}.

Definition local_garden : Garden := Gdn "parent" (Some "LOCAL") ["b"].

Definition parent_db : db := Db [alice_doc] [] [local_garden; child_garden].

(** Wire records for the import: a user that is new to the store, a
    record of the stored user carrying a pre-hashed credential, a record
    whose role assignments are not a list, a record without a username,
    and two records naming the same user. *)
Definition bob_wire : doc :=
  {[ "username" := UStr "bob";
     "role_assignments" := URoles [global_role] ]}.

Definition alice_wire : doc :=
  {[ "username" := UStr "alice";
     "role_assignments" := URoles [global_role];
     "hashed_password" := UStr "$pre$" ]}.

Definition invalid_wire : doc :=
  {[ "username" := UStr "eve"; "role_assignments" := UStr "all" ]}.

Definition nameless_wire : doc :=
  {[ "role_assignments" := URoles [global_role] ]}.

Definition bob_first_wire : doc :=
  {[ "username" := UStr "bob";
     "role_assignments" := URoles [];
     "hashed_password" := UStr "$pre$" ]}.

Definition empty_db : db := Db [] [] [child_garden].

(** A record whose username is null, with an assignment. *)
Definition null_name_wire : doc :=
  {[ "username" := UNone;
     "role_assignments" := URoles [global_role] ]}.

(** A parser whose operations carry a [wait_timeout], and a router that
    refuses any operation still carrying one. *)
Definition parse_with_timeout (body : string) : outcome (Operation string) :=
  if bool_decide (body = "") then Raise (Exn "ParseError" "empty body")
  else Return (Op body None {[ "wait_timeout" := "5" ]}).

Definition strict_route (op : Operation string) : outcome value :=
  match kwargs op !! "wait_timeout" with
  | Some _ => Raise (Exn "RoutingError" "wait_timeout reached the router")
  | None => route op
  end.

(** A router that accepts the operations for [child] only. *)
Definition route_child_only (op : Operation (list doc)) : outcome unit :=
  if bool_decide (target_garden_name op = Some "child") then Return tt
  else Raise (Exn "RoutingError" "unknown garden").

(** A second remote garden, and a store that knows both. *)
Definition other_garden : Garden := Gdn "other" (Some "HTTP") ["b"].

Definition two_gardens_db : db :=
  Db [alice_doc] [] [local_garden; child_garden; other_garden].

(** A [USER_UPDATED] event as the garden [child] publishes it for
    [alice]. *)
Definition alice_event : Event :=
  Ev "USER_UPDATED" "child" (Some (UStr "child"))
    (Some {[ "username" := UStr "alice";
             "role_assignments" := URoles [global_role; system_ns1_role] ]})
    (Some 1700000000%Z).

End Sample.


(** ** The specification's vocabulary *)

Module Spec.

Import Stomp UserSync.

(** Destination resolution as section 4.5 words it: the [reply-to] header
    if present, else the connection's default send destination, else
    nothing is sent. *)
Definition reply_destination (request_headers : headers)
    (send_destination : option string) : option string :=
  match request_headers !! "reply-to" with
  | Some x => Some x
  | None =>
      match send_destination with
      | Some d => if truthy_str d then Some d else None
      | None => None
      end
  end.

(** The frames a reply adds to a connection: one frame to the resolved
    destination, or none. *)
Definition reply_frames (b : string) (h : headers) (d : option string)
    : list frame :=
  match d with
  | Some x => [Frame b h (Some x)]
  | None => []
  end.

(** The condition under which [connect] reaches the broker: a first
    endpoint with a host and a port, and a subscribe destination. *)
Definition ready (self : Connection) : Prop :=
  exists host port rest d,
    host_and_ports self = Some ((host, port) :: rest)
    /\ host <> "" /\ port <> 0%Z
    /\ subscribe_destination self = Some d /\ d <> "".

(** The guard of [connect], as a boolean. *)
Definition guard (self : Connection) : bool :=
  match host_and_ports self with
  | Some (first :: _) =>
      truthy_str (fst first) && negb (Z.eqb (snd first) 0)
      && truthy_opt (subscribe_destination self)
  | _ => false
  end.

(** A patch operation the job handler supports: kind [update], path
    [/status], and a value that upper-cases to [PAUSED] or [RUNNING]. *)
Definition supported (upper : string -> string)
    (op : JobApi.PatchOperation) : Prop :=
  JobApi.operation op = "update"
  /\ JobApi.path op = "/status"
  /\ (upper (JobApi.py_str (JobApi.value op)) = "PAUSED"
      \/ upper (JobApi.py_str (JobApi.value op)) = "RUNNING").

(** The backend call a supported operation stands for. *)
Definition call_of (upper : string -> string) (job_id : string)
    (op : JobApi.PatchOperation) : JobApi.call :=
  if bool_decide (upper (JobApi.py_str (JobApi.value op)) = "PAUSED")
  then JobApi.PauseJob job_id
  else JobApi.ResumeJob job_id.

Section Backend.

Context {B R : Type}.
Variable pauseJob : string -> B -> R * B.
Variable resumeJob : string -> B -> R * B.

(** The backend's answer to one call, and its state after a list of
    calls made in order. *)
Definition run_call (c : JobApi.call) (b : B) : R * B :=
  match c with
  | JobApi.PauseJob j => pauseJob j b
  | JobApi.ResumeJob j => resumeJob j b
  end.

Definition run_calls (cs : list JobApi.call) (b : B) : B :=
  fold_left (fun b c => (run_call c b).2) cs b.

End Backend.

(** Relevance of a role assignment to a garden as section 3 words it:
    scope [Global], or scope [Garden] with its [name] identifier among the
    garden's namespaces, or scope [System] with its [namespace] identifier
    among them. *)
Definition relevant (g : Garden) (a : RoleAssignment) : Prop :=
  scope (domain a) = "Global"
  \/ (scope (domain a) = "Garden"
      /\ exists x, identifiers (domain a) !! "name" = Some x
                   /\ x ∈ namespaces g)
  \/ (scope (domain a) = "System"
      /\ exists x, identifiers (domain a) !! "namespace" = Some x
                   /\ x ∈ namespaces g).

(** Every object of [h] is still there, unchanged, in [h']. *)
Definition extends (h h' : heap) : Prop :=
  forall l c, h !! l = Some c -> h' !! l = Some c.

(** [u] is the live object of the stored document [d]: its attributes are
    the document's and its assignment list is a list object holding the
    document's assignments. *)
Definition live (h : heap) (u : nat) (d : doc) : Prop :=
  exists l,
    h !! u = Some (CUser (<["role_assignments" := URef l]> d))
    /\ h !! l = Some (CList (doc_roles d)).

(** A stored user as the garden [g] is to see it. *)
Definition filtered_view (g : Garden) (d : doc) : doc :=
  <["role_assignments" :=
      URoles (List.filter (applies (namespaces g)) (doc_roles d))]> d.

(** The value [update_user] stores for a keyword: the hash of a
    [password] given without a pre-hashed one, the value itself
    otherwise. *)
Definition written (hash : uval -> uval) (hashed_password : option uval)
    (key : string) (value : uval) : uval :=
  if bool_decide (key = "password") && is_None hashed_password
  then hash value
  else value.

(** The usernames a payload names, in order. *)
Definition usernames (serialized_users : list doc) : list uval :=
  omap (fun su : doc => su !! "username") serialized_users.

(** Two collections hold the same documents of user [u] at the same
    places. *)
Definition agree_on (u : uval) (us us' : list doc) : Prop :=
  forall j d, has_username u d -> (us !! j = Some d <-> us' !! j = Some d).

(** The loaded data of a record hold no password to hash: no plain
    [password], or a pre-hashed one beside it. *)
Definition no_plain_password (data : doc) : Prop :=
  data !! "password" = None \/ is_None (data !! "hashed_password") = false.

(** The store a run ends with, and how it ended. *)
Definition db_of (r : run) : db := r.1.2.

Definition outcome_of (r : run) : outcome unit := r.1.1.

#[global] Instance supported_dec upper op : Decision (supported upper op).
Proof. unfold supported. apply _. Defined.

(** A text of ASCII characters only, and an upper-casing that does to
    such texts what [str.upper] does to them. *)
Definition ascii_only (s : string) : Prop :=
  Forall (fun c => nat_of_ascii c < 128) (list_ascii_of_string s).

Definition upper_on_ascii (upper : string -> string) : Prop :=
  forall s, ascii_only s -> upper s = JobApi.ascii_upper s.

(** A character that upper-casing leaves alone and that starts neither
    [PAUSED] nor [RUNNING]: a digit or the minus sign. *)
Definition numeric_char (a : ascii) : Prop :=
  (exists n, n < 10 /\ a = JobApi.digit_ascii n) \/ a = "-"%char.

(** No two stored users share a username. *)
Definition unique_usernames (us : list doc) : Prop :=
  forall i j d d' u,
    us !! i = Some d -> us !! j = Some d' ->
    has_username u d -> has_username u d' -> i = j.

(** No two shadow records share a garden and a username. *)
Definition unique_shadows (rs : list RemoteUser) : Prop :=
  forall i j r r',
    rs !! i = Some r -> rs !! j = Some r' ->
    remote_garden r = remote_garden r' ->
    remote_username r = remote_username r' -> i = j.

(** The effects that hand an operation to the router. *)
Definition is_routed (e : effect) : bool :=
  match e with
  | Routed _ => true
  | _ => false
  end.

(** The event a garden emits for what [_publish_user_updated] publishes:
    name and metadata as published; the emitting garden and the
    timestamp are filled in by the event system. *)
Definition event_of (e : effect) (garden : string) (ts : option Z)
    : option Event :=
  match e with
  | Published name g user => Some (Ev name garden (Some (UStr g)) (Some user) ts)
  | _ => None
  end.

End Spec.

(** * Properties *)

(** Closed equations over decidable types are settled by evaluating the
    decision. *)
Ltac by_decide := refine (bool_decide_unpack _ _); vm_compute; exact I.

(** ** The broker listener *)

Section ListenerFacts.

Import Stomp Spec.

Context {V : Type}.
Variable process_send_message : value -> outcome (string * headers).
Variable append_headers : headers -> option headers -> option headers -> headers.
Variable parse_operation : string -> outcome (Operation V).
Variable route : Operation V -> outcome value.

#[local] Abbreviation on_message :=
  (on_message process_send_message append_headers parse_operation route).
#[local] Abbreviation on_message_try :=
  (on_message_try process_send_message append_headers parse_operation route).

Lemma sent_send c b h d : sent (send c b h d) = (sent c ++ [Frame b h d])%list.
Proof. unfold sent, send. simpl. by rewrite omap_app. Qed.

Lemma truthy_opt_Some d :
  truthy_opt d = true -> exists s, d = Some s /\ truthy_str s = true.
Proof. destruct d as [s|]; simpl; [eauto | discriminate]. Qed.

(** The error reply: with a header dictionary it never raises, it sends
    nothing on a connection that is down, and otherwise sends one frame to
    the destination the specification's rule resolves. *)
Lemma send_error_msg_frames msg (hdrs : headers) c sd :
  exists c',
    send_error_msg append_headers msg (Some hdrs) c sd None = Return c'
    /\ connected c' = connected c
    /\ sent c' =
       (sent c ++
        if connected c
        then reply_frames msg
               (append_headers error_headers_init (Some hdrs) (Some ∅))
               (reply_destination hdrs sd)
        else [])%list.
Proof.
  unfold send_error_msg, reply_destination, is_connected. simpl.
  destruct (connected c) eqn:Hc.
  - destruct (hdrs !! "reply-to") as [x|] eqn:Hr.
    + eexists; split; [reflexivity|]. by rewrite sent_send.
    + destruct sd as [d|]; simpl.
      * destruct (truthy_str d); eexists; (split; [reflexivity|]);
          rewrite ?sent_send, ?app_nil_r; simpl; auto.
      * eexists; split; [reflexivity|]. by rewrite app_nil_r.
  - eexists; split; [reflexivity|]. by rewrite app_nil_r.
Qed.

(** Whatever the parser, the router and the message processor do, the
    handler returns: every exception of the [try] block ends in the error
    reply and one logged warning. *)
Lemma on_message_never_raises self hdrs message :
  exists c logs, on_message self hdrs message = Return (c, logs).
Proof.
  unfold Stomp.on_message.
  destruct (on_message_try self hdrs message) as [c|e]; [eauto|].
  destruct (send_error_msg_frames (exn_msg e) hdrs (listener_conn self)
              (listener_send_destination self)) as (c' & -> & _).
  simpl. eauto.
Qed.

(** The [try] block only ever raises before anything was sent. *)
Lemma on_message_failure self hdrs message e :
  on_message_try self hdrs message = Raise e ->
  exists c,
    on_message self hdrs message = Return (c, [exn_msg e])
    /\ sent c =
       (sent (listener_conn self) ++
        if connected (listener_conn self)
        then reply_frames (exn_msg e)
               (append_headers error_headers_init (Some hdrs) (Some ∅))
               (reply_destination hdrs (listener_send_destination self))
        else [])%list.
Proof.
  intros He. unfold Stomp.on_message. rewrite He.
  destruct (send_error_msg_frames (exn_msg e) hdrs (listener_conn self)
              (listener_send_destination self)) as (c' & -> & _ & Hs).
  simpl. eauto.
Qed.

(** The success path: a truthy result that the processor encodes is sent
    once, provided the connection is up and a default send destination is
    configured. *)
Lemma on_message_success self hdrs message op v b h :
  parse_operation message = Return op ->
  route (pop_wait_timeout op) = Return v ->
  truthy v = true ->
  process_send_message v = Return (b, h) ->
  connected (listener_conn self) = true ->
  truthy_opt (listener_send_destination self) = true ->
  exists c,
    on_message self hdrs message = Return (c, [])
    /\ sent c =
       (sent (listener_conn self) ++
        reply_frames b (append_headers h (Some hdrs) None)
          (reply_destination hdrs (listener_send_destination self)))%list.
Proof.
  intros Hp Hr Ht Hm Hc Hd.
  unfold Stomp.on_message, Stomp.on_message_try, send_message, is_connected.
  rewrite Hp. simpl. rewrite Hr. simpl. rewrite Ht, Hm. simpl.
  rewrite Hc, Hd. simpl. unfold reply_destination.
  destruct (hdrs !! "reply-to") as [x|] eqn:Hx.
  - eexists; split; [reflexivity|]. by rewrite sent_send.
  - destruct (truthy_opt_Some _ Hd) as (d & Hsd & Htd).
    rewrite Hsd, Htd. eexists; split; [reflexivity|].
    by rewrite sent_send.
Qed.

(** Without a default send destination the success path sends nothing,
    whatever the request headers ask for. *)
Lemma send_message_without_default message gh c sd rh b h :
  process_send_message message = Return (b, h) ->
  truthy_opt sd = false ->
  send_message process_send_message append_headers message gh c sd rh
  = Return c.
Proof.
  intros Hm Hd. unfold send_message. rewrite Hm. simpl.
  by rewrite Hd, andb_false_r.
Qed.

(** C1 (amended).  On a connected listener: when the handler fails
    (decode, routing or encoding raises) the error text is sent in one
    frame to the destination resolved as reply-to, else the default send
    destination, else nowhere; when routing succeeds with a truthy result
    and a default send destination is configured, the reply is sent in one
    frame to the destination resolved by that same rule; and a [reply-to]
    header with value X resolves to X. *)
Theorem reply_addressed_to_reply_to self hdrs message :
  connected (listener_conn self) = true ->
  (forall e, on_message_try self hdrs message = Raise e ->
     exists c,
       on_message self hdrs message = Return (c, [exn_msg e])
       /\ sent c =
          (sent (listener_conn self) ++
           reply_frames (exn_msg e)
             (append_headers error_headers_init (Some hdrs) (Some ∅))
             (reply_destination hdrs (listener_send_destination self)))%list)
  /\ (forall op v b h,
        parse_operation message = Return op ->
        route (pop_wait_timeout op) = Return v ->
        truthy v = true ->
        process_send_message v = Return (b, h) ->
        truthy_opt (listener_send_destination self) = true ->
        exists c,
          on_message self hdrs message = Return (c, [])
          /\ sent c =
             (sent (listener_conn self) ++
              reply_frames b (append_headers h (Some hdrs) None)
                (reply_destination hdrs (listener_send_destination self)))%list)
  /\ (forall X, hdrs !! "reply-to" = Some X ->
        reply_destination hdrs (listener_send_destination self) = Some X).
Proof.
  intros Hc. split; [|split].
  - intros e He. destruct (on_message_failure self hdrs message e He) as (c & Hm & Hs).
    exists c. split; [done|]. by rewrite Hc in Hs.
  - intros op v b h Hp Hr Ht Hm Hd. by eapply on_message_success.
  - intros X HX. unfold reply_destination. by rewrite HX.
Qed.

(** C9.  When the body parses and routing returns a falsy result, the
    handler returns with the connection exactly as it was: nothing is
    sent and nothing is logged, whatever the headers hold. *)
Theorem falsy_result_sends_nothing self hdrs message op v :
  parse_operation message = Return op ->
  route (pop_wait_timeout op) = Return v ->
  truthy v = false ->
  on_message self hdrs message = Return (listener_conn self, []).
Proof.
  intros Hp Hr Ht.
  unfold Stomp.on_message, Stomp.on_message_try.
  rewrite Hp. simpl. rewrite Hr. simpl. by rewrite Ht.
Qed.

End ListenerFacts.

(** A listener on a live connection with a default destination, and an
    inbound header set asking for the reply on [X]. *)
Lemma reply_addressed_to_reply_to_witness :
  let self := Stomp.Listener (Stomp.Conn true true []) (Some "default") in
  let hdrs : gmap string string := {[ "reply-to" := "X" ]} in
  Stomp.connected (Stomp.listener_conn self) = true
  /\ (exists c,
        Stomp.on_message Sample.process_send_message Sample.append_headers
          Sample.parse_operation Sample.route self hdrs "BAD"
        = Return (c, ["unknown operation"])
        /\ Stomp.destination <$> Stomp.sent c = [Some "X"])
  /\ (exists c,
        Stomp.on_message Sample.process_send_message Sample.append_headers
          Sample.parse_operation Sample.route self hdrs "GO"
        = Return (c, [])
        /\ Stomp.destination <$> Stomp.sent c = [Some "X"]).
Proof.
  intros self hdrs.
  destruct (reply_addressed_to_reply_to Sample.process_send_message
              Sample.append_headers Sample.parse_operation Sample.route
              self hdrs "BAD" eq_refl) as (Hfail & _ & _).
  destruct (reply_addressed_to_reply_to Sample.process_send_message
              Sample.append_headers Sample.parse_operation Sample.route
              self hdrs "GO" eq_refl) as (_ & Hok & _).
  split; [reflexivity|]. split.
  - destruct (Hfail (Exn "RoutingError" "unknown operation") eq_refl)
      as (c & Hc & Hs).
    exists c. split; [exact Hc|]. rewrite Hs. reflexivity.
  - destruct (Hok (Stomp.Op "GO" None ∅) (VObj "Request" "{}") "{}"
                {[ "model_class" := "Request" ]} eq_refl eq_refl eq_refl
                eq_refl eq_refl) as (c & Hc & Hs).
    exists c. split; [exact Hc|]. rewrite Hs. reflexivity.
Defined.

(** C1 as stated fails on a connection that is down: the body routes to a
    result, the headers ask for the reply on [X], and nothing is sent. *)
Lemma reply_to_unanswered_when_disconnected :
  let self := Stomp.Listener (Stomp.Conn false true []) (Some "default") in
  let hdrs : gmap string string := {[ "reply-to" := "X" ]} in
  hdrs !! "reply-to" = Some "X"
  /\ Stomp.on_message Sample.process_send_message Sample.append_headers
       Sample.parse_operation Sample.route self hdrs "GO"
     = Return (Stomp.Conn false true [], [])
  /\ Stomp.on_message Sample.process_send_message Sample.append_headers
       Sample.parse_operation Sample.route self hdrs "BAD"
     = Return (Stomp.Conn false true [], ["unknown operation"])
  /\ Stomp.sent (Stomp.Conn false true []) = [].
Proof. vm_compute. auto. Qed.

(** With the envelope merge of section 4.3 the error reply always names
    its payload type. *)
Lemma error_reply_model_class (hdrs : gmap string string) :
  Sample.append_headers Stomp.error_headers_init (Some hdrs) (Some ∅)
    !! "model_class" = Some "error_message".
Proof.
  unfold Sample.append_headers, Stomp.error_headers_init.
  rewrite <- (assoc_L (∪)). apply lookup_union_Some_l, lookup_singleton_eq.
Qed.

(** C7 at its failing input: a connected listener without a default send
    destination receives a message asking for the reply on [X].  When the
    router fails the error reply goes to [X]; when the router answers, the
    answer is sent nowhere. *)
Theorem reply_paths_disagree_without_default :
  let self := Stomp.Listener (Stomp.Conn true true []) None in
  let hdrs : gmap string string := {[ "reply-to" := "X" ]} in
  (exists c,
     Stomp.on_message Sample.process_send_message Sample.append_headers
       Sample.parse_operation Sample.route self hdrs "BAD"
     = Return (c, ["unknown operation"])
     /\ Stomp.destination <$> Stomp.sent c = [Some "X"])
  /\ Stomp.on_message Sample.process_send_message Sample.append_headers
       Sample.parse_operation Sample.route self hdrs "GO"
     = Return (Stomp.Conn true true [], []).
Proof. split; [eexists; split|]; vm_compute; reflexivity. Qed.

(** A body that routes to [None]. *)
Lemma falsy_result_sends_nothing_witness :
  let self := Stomp.Listener (Stomp.Conn true true []) (Some "default") in
  let hdrs : gmap string string := {[ "reply-to" := "X" ]} in
  Stomp.on_message Sample.process_send_message Sample.append_headers
    Sample.parse_operation Sample.route self hdrs "QUIET"
  = Return (Stomp.Conn true true [], []).
Proof.
  intros self hdrs.
  exact (falsy_result_sends_nothing Sample.process_send_message
           Sample.append_headers Sample.parse_operation Sample.route
           self hdrs "QUIET" (Stomp.Op "QUIET" None ∅) VNone
           eq_refl eq_refl eq_refl).
Defined.

(** ** Connection.connect *)

Section ConnectFacts.

Import Stomp Spec.

Lemma truthy_str_true s : truthy_str s = true <-> s <> "".
Proof.
  unfold truthy_str. rewrite negb_true_iff, bool_decide_eq_false. done.
Qed.

Lemma truthy_opt_true o :
  truthy_opt o = true <-> exists d, o = Some d /\ d <> "".
Proof.
  destruct o as [d|]; simpl.
  - rewrite truthy_str_true. split; [eauto|]. by intros (? & [= <-] & ?).
  - split; [discriminate|]. by intros (? & [=] & _).
Qed.

Lemma guard_ready self : guard self = true <-> ready self.
Proof.
  unfold guard, ready.
  destruct (host_and_ports self) as [[|[host port] rest]|]; simpl.
  - split; [discriminate|]. by intros (?&?&?&?&[=]&_).
  - rewrite !andb_true_iff, truthy_str_true, truthy_opt_true,
      negb_true_iff, Z.eqb_neq.
    split.
    + intros [[Hh Hp] (d & Hd & Hne)]. by exists host, port, rest, d.
    + intros (h & p & r & d & [= <- <- <-] & Hh & Hp & Hd & Hne). eauto.
  - split; [discriminate|]. by intros (?&?&?&?&[=]&_).
Qed.

Lemma connect_attempts_call a c :
  connect_attempts (record_call a c)
  = (connect_attempts c + if is_connect_call a then 1 else 0)%nat.
Proof.
  unfold connect_attempts, record_call. simpl.
  rewrite filter_app, length_app. f_equal.
  destruct a; reflexivity.
Qed.

Lemma connect_run self cm wt gs :
  conn (connect self cm wt gs).2 =
    if guard self then
      if broker_up (conn self) then
        stomp_subscribe (subscribe_destination self) (username self)
          {| connected := true; broker_up := true;
             calls := calls (record_call (AConnect (username self) (password self))
                               (conn self)) |}
      else record_call (AConnect (username self) (password self)) (conn self)
    else conn self.
Proof.
  unfold connect, guard.
  destruct (host_and_ports self) as [[|first rest]|]; try reflexivity.
  destruct (truthy_str first.1 && negb (first.2 =? 0)%Z) eqn:Hg; simpl;
    [|reflexivity].
  destruct (truthy_opt (subscribe_destination self)) eqn:Hs; [|reflexivity].
  unfold connect_try, stomp_connect. simpl.
  destruct (broker_up (conn self)); simpl.
  - rewrite Hs. by destruct cm.
  - by destruct gs.
Qed.

(** C8 (amended).  [connect] calls the broker once exactly when the
    endpoint list has a first endpoint with a host and a port and the
    subscribe destination is set; otherwise the wrapper and its connection
    are left as they were, so a connection without a subscribe destination
    neither connects nor subscribes.  When the call is made and the broker
    accepts it, the connection is up and subscribed to that destination. *)
Theorem connect_attempted_iff self cm wt gs :
  (connect_attempts (conn (connect self cm wt gs).2)
     = S (connect_attempts (conn self)) <-> ready self)
  /\ (~ ready self -> (connect self cm wt gs).2 = self)
  /\ (ready self -> broker_up (conn self) = true ->
        connected (conn (connect self cm wt gs).2) = true
        /\ subscriptions (conn (connect self cm wt gs).2)
           = (subscriptions (conn self) ++ [subscribe_destination self])%list).
Proof.
  rewrite <- guard_ready. split; [|split].
  - rewrite connect_run. destruct (guard self); [|split; [lia|discriminate]].
    split; [done|intros _].
    destruct (broker_up (conn self)); unfold stomp_subscribe;
      rewrite ?connect_attempts_call; simpl.
    + unfold connect_attempts, record_call. simpl.
      rewrite filter_app, length_app. simpl. lia.
    + lia.
  - intros Hg. apply not_true_is_false in Hg.
    unfold connect. unfold guard in Hg.
    destruct (host_and_ports self) as [[|first rest]|]; try reflexivity.
    by rewrite Hg.
  - intros Hg Hup. rewrite connect_run, Hg, Hup.
    unfold stomp_subscribe, subscriptions, record_call. simpl.
    split; [done|]. rewrite !omap_app. simpl. by rewrite app_nil_r.
Qed.

End ConnectFacts.

(** A subscribing connection to a broker that is up. *)
Lemma connect_attempted_iff_witness :
  let self :=
    Stomp.init (Some [("broker", 61613%Z)]) (Some "out") (Some "in") None
      (Some "bg") (Some "secret") true in
  Spec.ready self
  /\ Stomp.connect_attempts (Stomp.conn (Stomp.connect self None None None).2) = 1
  /\ Stomp.subscriptions (Stomp.conn (Stomp.connect self None None None).2)
     = [Some "in"].
Proof.
  intros self.
  assert (Hr : Spec.ready self).
  { exists "broker", 61613%Z, [], "in". repeat split; done. }
  destruct (connect_attempted_iff self None None None) as (Hn & _ & Hs).
  split; [exact Hr|]. split.
  - apply Hn in Hr. exact Hr.
  - destruct (Hs Hr eq_refl) as [_ ->]. reflexivity.
Defined.

(** C8 as stated fails for a connection used only for publishing: its
    endpoint is valid, it has no subscribe destination, and [connect]
    makes no call at all. *)
Lemma publish_only_connection_never_connects :
  let self :=
    Stomp.init (Some [("broker", 61613%Z)]) (Some "out") None None
      (Some "bg") (Some "secret") true in
  Stomp.host_and_ports self = Some [("broker", 61613%Z)]
  /\ Stomp.subscribe_destination self = None
  /\ Stomp.connect self None None None = (Return [], self)
  /\ Stomp.calls (Stomp.conn self) = []
  /\ Stomp.connect_attempts (Stomp.conn (Stomp.connect self None None None).2) = 0.
Proof. vm_compute. auto 6. Qed.

(** ** The job PATCH handler *)

Section JobFacts.

Import JobApi Spec.

Variable upper : string -> string.
Context {B R : Type}.
Variable pauseJob : string -> B -> R * B.
Variable resumeJob : string -> B -> R * B.

#[local] Abbreviation patch_step := (patch_step upper pauseJob resumeJob).
#[local] Abbreviation patch_loop := (patch_loop upper pauseJob resumeJob).
#[local] Abbreviation patch := (patch upper pauseJob resumeJob).
#[local] Abbreviation run_call := (run_call pauseJob resumeJob).
#[local] Abbreviation run_calls := (run_calls pauseJob resumeJob).
#[local] Abbreviation supported := (supported upper).
#[local] Abbreviation call_of := (call_of upper).

(** A supported operation makes its one backend call and binds the
    answer. *)
Lemma patch_step_supported job_id op c :
  supported op ->
  patch_step job_id op c =
    (Return (run_call (call_of job_id op) (backend c)).1,
     Client (run_call (call_of job_id op) (backend c)).2
            (made c ++ [call_of job_id op])).
Proof.
  intros (Ho & Hp & Hv). unfold JobApi.patch_step, Spec.call_of.
  rewrite !bool_decide_eq_true_2 by done.
  destruct Hv as [Hv|Hv].
  - rewrite !bool_decide_eq_true_2 by done. unfold call_pause. simpl.
    by destruct (pauseJob job_id (backend c)).
  - rewrite !(bool_decide_eq_false_2 (_ = "PAUSED")) by (rewrite Hv; done).
    rewrite bool_decide_eq_true_2 by done. unfold call_resume. simpl.
    by destruct (resumeJob job_id (backend c)).
Qed.

(** An unsupported operation raises before any call. *)
Lemma patch_step_unsupported job_id op c :
  ~ supported op ->
  exists msg, patch_step job_id op c = (Raise (ModelValidationError msg), c).
Proof.
  intros Hn. unfold JobApi.patch_step.
  case_bool_decide as Ho; [|eauto].
  case_bool_decide as Hp; [|eauto].
  case_bool_decide as Hv1.
  { destruct Hn. repeat split; auto. }
  case_bool_decide as Hv2; [|eauto].
  destruct Hn. repeat split; auto.
Qed.

Lemma run_calls_snoc cs c b :
  run_calls (cs ++ [c]) b = (run_call c (run_calls cs b)).2.
Proof. unfold Spec.run_calls. by rewrite fold_left_app. Qed.

(** The loop over a supported prefix: every call is made, in order, and
    the loop goes on with the last answer bound. *)
Lemma patch_loop_supported job_id pre rest resp c :
  Forall supported pre ->
  patch_loop job_id (pre ++ rest) resp c =
    patch_loop job_id rest
      (match reverse pre with
       | [] => resp
       | last :: before =>
           Some (run_call (call_of job_id last)
                   (run_calls (call_of job_id <$> reverse before) (backend c))).1
       end)
      (Client (run_calls (call_of job_id <$> pre) (backend c))
              (made c ++ (call_of job_id <$> pre))).
Proof.
  revert rest resp c.
  induction pre as [|op pre IH] using rev_ind; intros rest resp c Hall.
  - destruct c. simpl. by rewrite app_nil_r.
  - apply Forall_app in Hall as [Hall Hop].
    rewrite Forall_singleton in Hop.
    rewrite <- app_assoc, (IH _ _ _ Hall). simpl.
    rewrite (patch_step_supported _ _ _ Hop). simpl.
    rewrite reverse_snoc, reverse_involutive, fmap_app. simpl.
    rewrite run_calls_snoc. by rewrite <- app_assoc.
Qed.


End JobFacts.



(** ** Garden filtering of role assignments *)

Section FilterFacts.

Import UserSync Spec.

Lemma get_in_true ids key ns :
  get_in ids key ns = true <-> exists x, ids !! key = Some x /\ x ∈ ns.
Proof.
  unfold get_in. destruct (ids !! key) as [x|].
  - rewrite bool_decide_eq_true. split; [eauto|]. by intros (? & [= <-] & ?).
  - split; [discriminate|]. by intros (? & [=] & _).
Qed.

(** The comprehension's condition is the specification's relevance. *)
Lemma applies_relevant g a : applies (namespaces g) a = true <-> relevant g a.
Proof.
  unfold applies, relevant.
  rewrite !orb_true_iff, !andb_true_iff, !bool_decide_eq_true, !get_in_true.
  tauto.
Qed.

Lemma extends_refl h : extends h h.
Proof. by intros l c. Qed.

Lemma extends_trans h1 h2 h3 : extends h1 h2 -> extends h2 h3 -> extends h1 h3.
Proof. intros H12 H23 l c Hl. eauto. Qed.

Lemma extends_alloc h c : extends h (alloc h c).2.
Proof.
  intros l c' Hl. unfold alloc. simpl.
  rewrite lookup_app_l; [done|]. by eapply lookup_lt_Some.
Qed.

(** What one call of the filter does to the heap: the copy is the new
    object at the end of the heap but one, the filtered list the new
    object at the end. *)
Lemma filter_run user g h attrs l items :
  h !! user = Some (CUser attrs) ->
  attrs !! "role_assignments" = Some (URef l) ->
  h !! l = Some (CList items) ->
  _filter_role_assigments_by_garden user g h =
    Return
      (List.length h,
       (h ++ [CUser (<["role_assignments" := URef (S (List.length h))]> attrs);
              CList (List.filter (applies (namespaces g)) items)])).
Proof.
  intros Hu Ha Hl. unfold _filter_role_assigments_by_garden, alloc.
  rewrite Hu, Ha. simpl.
  rewrite lookup_app_l by (by eapply lookup_lt_Some). rewrite Hl.
  f_equal. f_equal. rewrite length_app. simpl.
  rewrite <- app_assoc. simpl.
  rewrite insert_app_r_alt by lia. rewrite Nat.sub_diag. simpl.
  by rewrite Nat.add_1_r.
Qed.

Lemma role_assignments_of_inv h user items :
  role_assignments_of h user = Some items ->
  exists attrs l,
    h !! user = Some (CUser attrs)
    /\ attrs !! "role_assignments" = Some (URef l)
    /\ h !! l = Some (CList items).
Proof.
  unfold role_assignments_of. intros H.
  destruct (h !! user) as [[attrs|]|] eqn:Hu; try discriminate.
  destruct (attrs !! "role_assignments") as [[| | |l]|] eqn:Ha; try discriminate.
  destruct (h !! l) as [[|its]|] eqn:Hl; try discriminate.
  injection H as <-. eauto.
Qed.

Lemma role_assignments_of_extends h h' user items :
  extends h h' ->
  role_assignments_of h user = Some items ->
  role_assignments_of h' user = Some items.
Proof.
  intros He H. apply role_assignments_of_inv in H as (attrs & l & Hu & Ha & Hl).
  unfold role_assignments_of. by rewrite (He _ _ Hu), Ha, (He _ _ Hl).
Qed.

(** The filter returns for every live user; it allocates and never
    writes an object that was there before. *)
Lemma filter_frame user g h items :
  role_assignments_of h user = Some items ->
  exists fu h',
    _filter_role_assigments_by_garden user g h = Return (fu, h')
    /\ fu <> user
    /\ extends h h'
    /\ role_assignments_of h' fu
       = Some (List.filter (applies (namespaces g)) items)
    /\ (forall attrs, h !! user = Some (CUser attrs) ->
          snapshot h' fu =
            Some (<["role_assignments" :=
                      URoles (List.filter (applies (namespaces g)) items)]> attrs)).
Proof.
  intros H. destruct (role_assignments_of_inv _ _ _ H) as (attrs & l & Hu & Ha & Hl).
  rewrite (filter_run _ g _ _ _ _ Hu Ha Hl).
  eexists _, _. split; [reflexivity|].
  assert (Hlt : user < List.length h) by (by eapply lookup_lt_Some).
  assert (Hfu : forall its,
    role_assignments_of
      (h ++ [CUser (<["role_assignments" := URef (S (List.length h))]> attrs);
             CList its]) (List.length h) = Some its).
  { intros its. unfold role_assignments_of.
    rewrite lookup_app_r by lia. rewrite Nat.sub_diag. simpl.
    rewrite lookup_insert_eq.
    rewrite lookup_app_r by lia.
    replace (S (List.length h) - List.length h) with 1 by lia. done. }
  split; [lia|]. split; [|split].
  - intros i c Hi. rewrite lookup_app_l; [done|]. by eapply lookup_lt_Some.
  - apply Hfu.
  - intros attrs' Hu'. rewrite Hu in Hu'. injection Hu' as <-.
    unfold snapshot. rewrite Hfu.
    rewrite lookup_app_r by lia. rewrite Nat.sub_diag. simpl.
    by rewrite insert_insert_eq.
Qed.

Lemma elem_of_filter_applies ns (a : RoleAssignment) items :
  a ∈ List.filter (applies ns) items <-> a ∈ items /\ applies ns a = true.
Proof. rewrite !list_elem_of_In. apply filter_In. Qed.

(** C5.  For every live user and every garden the filter returns a user
    whose assignment list is the original list restricted, in order, to
    the assignments relevant to the garden: an assignment is in the result
    exactly when it is in the original and its scope is Global, or Garden
    with its name among the garden's namespaces, or System with its
    namespace among them.  For assignments scoped Global, Garden b and
    System ns1 and a garden with the namespace ns1, the result is exactly
    the Global and the System ns1 assignment. *)
Theorem filtered_assignments_exactly_relevant :
  (forall h user g items,
     role_assignments_of h user = Some items ->
     exists fu h' kept,
       _filter_role_assigments_by_garden user g h = Return (fu, h')
       /\ role_assignments_of h' fu = Some kept
       /\ kept = List.filter (applies (namespaces g)) items
       /\ forall a, a ∈ kept <-> a ∈ items /\ relevant g a)
  /\ (exists fu h',
        _filter_role_assigments_by_garden 1 Sample.child_garden
          Sample.alice_heap = Return (fu, h')
        /\ role_assignments_of h' fu
           = Some [Sample.global_role; Sample.system_ns1_role]).
Proof.
  split.
  - intros h user g items H.
    destruct (filter_frame user g h items H) as (fu & h' & Hr & _ & _ & Hk & _).
    exists fu, h', (List.filter (applies (namespaces g)) items).
    split; [done|]. split; [done|]. split; [done|].
    intros a. by rewrite elem_of_filter_applies, applies_relevant.
  - eexists _, _. split; reflexivity.
Qed.

(** The example user, filtered for the example garden through the general
    statement. *)
Lemma filtered_assignments_exactly_relevant_witness :
  role_assignments_of Sample.alice_heap 1
  = Some [Sample.global_role; Sample.garden_b_role; Sample.system_ns1_role]
  /\ exists fu h' kept,
       _filter_role_assigments_by_garden 1 Sample.child_garden
         Sample.alice_heap = Return (fu, h')
       /\ role_assignments_of h' fu = Some kept
       /\ kept = [Sample.global_role; Sample.system_ns1_role].
Proof.
  split; [reflexivity|].
  destruct (proj1 filtered_assignments_exactly_relevant Sample.alice_heap 1
              Sample.child_garden
              [Sample.global_role; Sample.garden_b_role; Sample.system_ns1_role]
              eq_refl) as (fu & h' & kept & Hr & Hk & He & _).
  exists fu, h', kept. split; [exact Hr|]. split; [exact Hk|].
  rewrite He. reflexivity.
Defined.

End FilterFacts.

(** ** The push to the remote gardens *)

Section PushFacts.

Import UserSync Spec.

Variable UserSyncSchema_dump : doc -> doc.
Variable route : Stomp.Operation (list doc) -> outcome unit.

#[local] Abbreviation sync_gardens := (sync_gardens UserSyncSchema_dump route).
#[local] Abbreviation initiate_user_sync :=
  (initiate_user_sync UserSyncSchema_dump route).

Lemma live_extends h h' u d : live h u d -> extends h h' -> live h' u d.
Proof. intros (l & Hu & Hl) He. exists l. eauto. Qed.

Lemma live_role_assignments h u d :
  live h u d -> role_assignments_of h u = Some (doc_roles d).
Proof.
  intros (l & Hu & Hl). unfold role_assignments_of.
  by rewrite Hu, lookup_insert_eq, Hl.
Qed.

Lemma snapshot_extends h h' u x :
  extends h h' -> snapshot h u = Some x -> snapshot h' u = Some x.
Proof.
  intros He. unfold snapshot.
  destruct (h !! u) as [[attrs|]|] eqn:Hu; try discriminate.
  rewrite (He _ _ Hu).
  destruct (role_assignments_of h u) as [items|] eqn:Hr; [|discriminate].
  by rewrite (role_assignments_of_extends _ _ _ _ He Hr).
Qed.

Lemma instantiate_live d h :
  extends h (instantiate d h).2
  /\ live (instantiate d h).2 (instantiate d h).1 d.
Proof.
  unfold instantiate, alloc. simpl. split.
  - intros l c Hl. pose proof (lookup_lt_Some _ _ _ Hl).
    rewrite lookup_app_l by (rewrite length_app; simpl; lia).
    by rewrite lookup_app_l.
  - exists (List.length h). rewrite length_app. simpl. split.
    + rewrite lookup_app_r by (rewrite length_app; simpl; lia).
      rewrite length_app. simpl. by rewrite Nat.sub_diag.
    + rewrite lookup_app_l by (rewrite length_app; simpl; lia).
      rewrite lookup_app_r by lia. by rewrite Nat.sub_diag.
Qed.

(** The objects fetched for the stored documents are live, one per
    document and in the documents' order. *)
Lemma objects_all_live docs h :
  extends h (objects_all docs h).2
  /\ Forall2 (live (objects_all docs h).2) (objects_all docs h).1 docs.
Proof.
  revert h. induction docs as [|d docs IH]; intros h.
  - split; [apply extends_refl | constructor].
  - cbn [objects_all].
    destruct (instantiate_live d h) as [He Hl].
    destruct (instantiate d h) as [u h1] eqn:Hi. simpl in *.
    destruct (IH h1) as [He' Hall].
    destruct (objects_all docs h1) as [us h2] eqn:Ho. simpl in *.
    split; [exact (extends_trans _ _ _ He He')|].
    constructor; [exact (live_extends _ _ _ _ Hl He') | done].
Qed.

Lemma filter_live g h u d :
  live h u d ->
  exists fu h',
    _filter_role_assigments_by_garden u g h = Return (fu, h')
    /\ extends h h'
    /\ snapshot h' fu = Some (filtered_view g d).
Proof.
  intros Hl. pose proof (live_role_assignments _ _ _ Hl) as Hr.
  destruct (filter_frame u g h _ Hr) as (fu & h' & Hf & _ & He & _ & Hs).
  exists fu, h'. split; [done|]. split; [done|].
  destruct Hl as (l & Hu & _). rewrite (Hs _ Hu).
  unfold filtered_view. by rewrite insert_insert_eq.
Qed.

(** The comprehension over the users: every user is filtered from the
    assignments of its document, whatever was filtered before. *)
Lemma filter_users_live g us ds h :
  Forall2 (live h) us ds ->
  exists fs h',
    filter_users us g h = Return (fs, h')
    /\ extends h h'
    /\ Forall2 (fun f d => snapshot h' f = Some (filtered_view g d)) fs ds.
Proof.
  intros Hall. revert ds h Hall.
  induction us as [|u us IH]; intros ds h Hall.
  - apply Forall2_nil_inv_l in Hall as ->.
    exists [], h. split; [done|]. split; [apply extends_refl | constructor].
  - apply Forall2_cons_inv_l in Hall as (d & ds' & Hl & Hall & ->).
    destruct (filter_live g h u d Hl) as (fu & h1 & Hf & He1 & Hs).
    assert (Hall1 : Forall2 (live h1) us ds').
    { eapply Forall2_impl; [exact Hall|].
      intros u' d' Hl'. exact (live_extends _ _ _ _ Hl' He1). }
    destruct (IH ds' h1 Hall1) as (fs & h2 & Hfs & He2 & Hss).
    exists (fu :: fs), h2. simpl. rewrite Hf. simpl. rewrite Hfs. simpl.
    split; [done|]. split; [exact (extends_trans _ _ _ He1 He2)|].
    constructor; [exact (snapshot_extends _ _ _ _ He2 Hs) | done].
Qed.

Lemma dump_many_views g h fs ds :
  Forall2 (fun f d => snapshot h f = Some (filtered_view g d)) fs ds ->
  dump_many UserSyncSchema_dump h fs
  = Return (UserSyncSchema_dump <$> (filtered_view g <$> ds)).
Proof.
  intros Hall. unfold dump_many.
  assert (Hm : mapM (snapshot h) fs = Some (filtered_view g <$> ds)).
  { apply mapM_Some. by apply Forall2_fmap_r. }
  by rewrite Hm.
Qed.

(** The loop over the gardens: each garden is sent every stored user with
    the assignments of the stored document filtered for that garden. *)
Lemma sync_gardens_payloads gs us ds h :
  (forall op, route op = Return tt) ->
  Forall2 (live h) us ds ->
  sync_gardens gs us h =
    (Return tt,
     (fun g => Routed (sync_operation g
                 (UserSyncSchema_dump <$> (filtered_view g <$> ds)))) <$> gs).
Proof.
  intros Hroute. revert h.
  induction gs as [|g gs IH]; intros h Hall; [done|].
  simpl.
  destruct (filter_users_live g us ds h Hall) as (fs & h1 & -> & He & Hs).
  rewrite (dump_many_views g h1 fs ds Hs), Hroute.
  rewrite IH; [done|].
  eapply Forall2_impl; [exact Hall|].
  intros u' d' Hl'. exact (live_extends _ _ _ _ Hl' He).
Qed.

(** C10.  The filter returns a new object and writes no object that was
    there before: the given user and its assignment list are afterwards
    what they were.  Hence the push filters every user from its full
    stored assignment set for each remote garden in turn. *)
Theorem filter_does_not_mutate_user :
  (forall h user g items,
     role_assignments_of h user = Some items ->
     exists fu h',
       _filter_role_assigments_by_garden user g h = Return (fu, h')
       /\ fu <> user
       /\ extends h h'
       /\ h' !! user = h !! user
       /\ role_assignments_of h' user = Some items
       /\ role_assignments_of h' fu
          = Some (List.filter (applies (namespaces g)) items))
  /\ (forall st,
        (forall op, route op = Return tt) ->
        initiate_user_sync st =
          (Return tt,
           (fun g => Routed (sync_operation g
                       (UserSyncSchema_dump <$> (filtered_view g <$> users st))))
             <$> List.filter is_remote (gardens st))).
Proof.
  split.
  - intros h user g items H.
    destruct (filter_frame user g h items H) as (fu & h' & Hr & Hne & He & Hk & _).
    exists fu, h'. split; [done|]. split; [done|]. split; [done|].
    split; [|split; [|done]].
    + destruct (role_assignments_of_inv _ _ _ H) as (attrs & l & Hu & _).
      by rewrite Hu, (He _ _ Hu).
    + exact (role_assignments_of_extends _ _ _ _ He H).
  - intros st Hroute. unfold UserSync.initiate_user_sync.
    destruct (objects_all_live (users st) []) as [_ Hall].
    destruct (objects_all (users st) []) as [us h] eqn:Ho. simpl in Hall.
    by apply sync_gardens_payloads.
Qed.

End PushFacts.

(** The example user is filtered for the example garden and stays as it
    was; the push from a store holding it sends the remote garden the
    user filtered from its stored assignments. *)
Lemma filter_does_not_mutate_user_witness :
  UserSync.role_assignments_of Sample.alice_heap 1
  = Some [Sample.global_role; Sample.garden_b_role; Sample.system_ns1_role]
  /\ (exists fu h',
        UserSync._filter_role_assigments_by_garden 1 Sample.child_garden
          Sample.alice_heap = Return (fu, h')
        /\ UserSync.role_assignments_of h' 1
           = Some [Sample.global_role; Sample.garden_b_role;
                   Sample.system_ns1_role]
        /\ UserSync.role_assignments_of h' fu
           = Some [Sample.global_role; Sample.system_ns1_role])
  /\ UserSync.initiate_user_sync Sample.UserSyncSchema_dump Sample.route_sync
       Sample.parent_db
     = (Return tt,
        [UserSync.Routed
           (UserSync.sync_operation Sample.child_garden
              [ {[ "username" := UserSync.UStr "alice";
                   "role_assignments" :=
                     UserSync.URoles
                       [Sample.global_role; Sample.system_ns1_role] ]} ])]).
Proof.
  split; [reflexivity|].
  destruct (filter_does_not_mutate_user Sample.UserSyncSchema_dump
              Sample.route_sync) as [Hframe Hpush].
  split.
  - destruct (Hframe Sample.alice_heap 1 Sample.child_garden _ eq_refl)
      as (fu & h' & Hr & _ & _ & _ & Hsame & Hkept).
    exists fu, h'. split; [exact Hr|]. split; [exact Hsame|exact Hkept].
  - rewrite (Hpush Sample.parent_db (fun op => eq_refl)).
    vm_compute. reflexivity.
Defined.

(** ** The user import *)

Section ImportFacts.

Import UserSync Spec.

Variable hash : uval -> uval.
Variable User_validate : doc -> option string.
Variable UserPatchSchema_load : doc -> outcome doc.
Variable UserSyncSchema_dump : doc -> doc.
Variable garden_name : string.
Variable route : Stomp.Operation (list doc) -> outcome unit.

#[local] Abbreviation update_attrs := (update_attrs hash).
#[local] Abbreviation save := (save User_validate).
#[local] Abbreviation update_user :=
  (update_user hash User_validate UserSyncSchema_dump garden_name).
#[local] Abbreviation import_one :=
  (import_one hash User_validate UserPatchSchema_load UserSyncSchema_dump
     garden_name).
#[local] Abbreviation import_try :=
  (import_try hash User_validate UserPatchSchema_load UserSyncSchema_dump
     garden_name).
#[local] Abbreviation call_update_user :=
  (call_update_user hash User_validate UserSyncSchema_dump garden_name).
#[local] Abbreviation _import_users :=
  (_import_users hash User_validate UserPatchSchema_load UserSyncSchema_dump
     garden_name).
#[local] Abbreviation user_sync :=
  (user_sync hash User_validate UserPatchSchema_load UserSyncSchema_dump
     garden_name route).

(** *** update_user *)

(** The loop over the keywords writes each keyword's value at its own
    key, so the order of the dictionary does not matter. *)
Lemma update_loop user hp (kwargs : doc) :
  map_fold (update_attr hash hp) user kwargs
  = map_imap (fun k v => Some (written hash hp k v)) kwargs ∪ user.
Proof.
  apply (map_fold_weak_ind
           (fun r (m : doc) =>
              r = map_imap (fun k v => Some (written hash hp k v)) m ∪ user)).
  - by rewrite map_imap_empty, (left_id_L ∅ (∪)).
  - intros k v m r Hk ->.
    rewrite map_imap_insert, <- insert_union_l.
    unfold update_attr, written, set_password, setattr.
    destruct (bool_decide (k = "password")) eqn:Hp; simpl; [|reflexivity].
    apply bool_decide_eq_true in Hp as ->. by destruct (is_None hp).
Qed.

(** The attributes of a user after [update_user]. *)
Lemma update_attrs_lookup user hp (kwargs : doc) k :
  update_attrs user hp kwargs !! k =
    match hp with
    | Some h =>
        if truthy_u h && bool_decide (k = "password") then Some h
        else match kwargs !! k with
             | Some v => Some (written hash hp k v)
             | None => user !! k
             end
    | None =>
        match kwargs !! k with
        | Some v => Some (written hash hp k v)
        | None => user !! k
        end
    end.
Proof.
  assert (Hbase :
    (map_imap (fun k v => Some (written hash hp k v)) kwargs ∪ user) !! k
    = match kwargs !! k with
      | Some v => Some (written hash hp k v)
      | None => user !! k
      end).
  { rewrite lookup_union, map_lookup_imap.
    destruct (kwargs !! k); simpl; by destruct (user !! k). }
  unfold UserSync.update_attrs. rewrite update_loop.
  destruct hp as [h|]; [|done].
  destruct (truthy_u h); simpl; [|done].
  case_bool_decide as Hk.
  - subst k. by rewrite lookup_insert_eq.
  - by rewrite lookup_insert_ne.
Qed.

(** Updating twice with the same keywords is updating once. *)
Lemma update_attrs_idemp user hp (kwargs : doc) :
  update_attrs (update_attrs user hp kwargs) hp kwargs
  = update_attrs user hp kwargs.
Proof.
  apply map_eq. intros k. rewrite !update_attrs_lookup.
  destruct hp as [h|].
  - destruct (truthy_u h && bool_decide (k = "password")); [done|].
    by destruct (kwargs !! k).
  - by destruct (kwargs !! k).
Qed.

(** A key that is neither given nor [password] keeps its value. *)
Lemma update_attrs_other user hp (kwargs : doc) k :
  kwargs !! k = None -> k <> "password" ->
  update_attrs user hp kwargs !! k = user !! k.
Proof.
  intros Hk Hp. rewrite update_attrs_lookup, Hk.
  destruct hp as [h|]; [|done].
  rewrite bool_decide_eq_false_2 by done. by rewrite andb_false_r.
Qed.

(** *** The document store *)

(** [get] finds a document exactly when it is the only one with that
    username. *)
Lemma objects_get_Found u us i d :
  objects_get u us = Found i d <->
  us !! i = Some d /\ has_username u d
  /\ forall j d', us !! j = Some d' -> has_username u d' -> j = i.
Proof.
  unfold objects_get.
  destruct (list_find (has_username u) us) as [[i0 d0]|] eqn:Hf.
  - apply list_find_Some in Hf as (Hi0 & Hp0 & Hlt).
    destruct (decide (Exists (has_username u) (drop (S i0) us))) as [Hex|Hnex].
    + split; [discriminate|]. intros (Hi & Hp & Huniq).
      apply Exists_exists in Hex as (d' & Hin & Hp').
      apply list_elem_of_lookup in Hin as (k & Hk).
      rewrite lookup_drop in Hk.
      pose proof (Huniq _ _ Hk Hp'). pose proof (Huniq _ _ Hi0 Hp0). lia.
    + split.
      * intros [= <- <-]. split; [done|]. split; [done|].
        intros j d' Hj Hp'.
        destruct (decide (j < i0)) as [Hlt'|Hge]; [by destruct (Hlt j d')|].
        destruct (decide (j = i0)) as [|Hne]; [done|].
        destruct Hnex. apply Exists_exists. exists d'. split; [|done].
        apply list_elem_of_lookup. exists (j - S i0).
        rewrite lookup_drop. by replace (S i0 + (j - S i0)) with j by lia.
      * intros (Hi & Hp & Huniq).
        pose proof (Huniq _ _ Hi0 Hp0) as ->.
        rewrite Hi in Hi0. by injection Hi0 as ->.
  - split; [discriminate|]. intros (Hi & Hp & _).
    apply list_find_None in Hf. rewrite Forall_forall in Hf.
    destruct (Hf d); [|done]. apply list_elem_of_lookup. eauto.
Qed.

Lemma objects_get_DoesNotExist u us :
  objects_get u us = DoesNotExist <->
  forall j d, us !! j = Some d -> ~ has_username u d.
Proof.
  unfold objects_get.
  destruct (list_find (has_username u) us) as [[i0 d0]|] eqn:Hf.
  - apply list_find_Some in Hf as (Hi0 & Hp0 & _).
    split; [by destruct (decide _)|]. intros Hno. by destruct (Hno _ _ Hi0).
  - split; [|done]. intros _ j d Hj.
    apply list_find_None in Hf. rewrite Forall_forall in Hf.
    apply Hf. apply list_elem_of_lookup. eauto.
Qed.

Lemma agree_on_refl u us : agree_on u us us.
Proof. by intros j d _. Qed.

Lemma agree_on_trans u us1 us2 us3 :
  agree_on u us1 us2 -> agree_on u us2 us3 -> agree_on u us1 us3.
Proof. intros H12 H23 j d Hd. by rewrite (H12 j d Hd), (H23 j d Hd). Qed.

(** What [get] answers for [u] depends only on the documents of [u]. *)
Lemma objects_get_Found_agree u us us' i d :
  agree_on u us us' ->
  objects_get u us = Found i d -> objects_get u us' = Found i d.
Proof.
  intros Ha. rewrite !objects_get_Found. intros (Hi & Hp & Huniq).
  split; [by apply (Ha i d Hp)|]. split; [done|].
  intros j d' Hj Hp'. apply (Huniq j d'); [|done]. by apply (Ha j d' Hp').
Qed.

Lemma objects_get_DoesNotExist_agree u us us' :
  agree_on u us us' ->
  objects_get u us = DoesNotExist -> objects_get u us' = DoesNotExist.
Proof.
  intros Ha. rewrite !objects_get_DoesNotExist. intros Hno j d Hj Hp.
  apply (Hno j d); [|done]. by apply (Ha j d Hp).
Qed.

(** Rewriting a document of another user, or adding one, changes nothing
    for [u]. *)
Lemma agree_on_insert u us i d0 d1 :
  us !! i = Some d0 -> ~ has_username u d0 -> ~ has_username u d1 ->
  agree_on u us (<[i := d1]> us).
Proof.
  intros Hi H0 H1 j d Hd.
  destruct (decide (j = i)) as [->|Hne].
  - rewrite list_lookup_insert_eq by (by eapply lookup_lt_Some).
    rewrite Hi. split; intros [= <-]; contradiction.
  - by rewrite list_lookup_insert_ne.
Qed.

Lemma agree_on_snoc u us d1 :
  ~ has_username u d1 -> agree_on u us (us ++ [d1]).
Proof.
  intros H1 j d Hd.
  destruct (decide (j < List.length us)) as [Hlt|Hge].
  - by rewrite lookup_app_l.
  - rewrite lookup_app_r by lia. rewrite (lookup_ge_None_2 us j) by lia.
    split; [discriminate|].
    destruct (j - List.length us) as [|n]; simpl.
    + intros [= <-]. contradiction.
    + by rewrite lookup_nil.
Qed.

(** After a write under the same username [get] finds the written
    document. *)
Lemma objects_get_updated u (us : list doc) i d d' :
  objects_get u us = Found i d -> has_username u d' ->
  objects_get u (<[i := d']> us) = Found i d'.
Proof.
  rewrite !objects_get_Found. intros (Hi & Hd & Huniq) Hd'.
  pose proof (lookup_lt_Some _ _ _ Hi) as Hlt.
  split; [by rewrite list_lookup_insert_eq|]. split; [done|].
  intros j d'' Hj Hp. destruct (decide (j = i)) as [|Hne]; [done|].
  rewrite list_lookup_insert_ne in Hj by done. by eapply Huniq.
Qed.

Lemma objects_get_created u (us : list doc) d' :
  objects_get u us = DoesNotExist -> has_username u d' ->
  objects_get u (us ++ [d']) = Found (List.length us) d'.
Proof.
  rewrite objects_get_DoesNotExist, objects_get_Found. intros Hno Hd'.
  split; [by rewrite lookup_app_r, Nat.sub_diag by lia|]. split; [done|].
  intros j d'' Hj Hp.
  destruct (decide (j < List.length us)) as [Hlt|Hge].
  - rewrite lookup_app_l in Hj by done. by destruct (Hno _ _ Hj).
  - apply lookup_lt_Some in Hj. rewrite length_app in Hj. simpl in Hj. lia.
Qed.

Lemma has_username_inj u u' (d : doc) :
  has_username u d -> u <> u' -> ~ has_username u' d.
Proof. unfold has_username. intros -> Hne [= ->]. done. Qed.

(** *** One record of the import *)

Lemma write_at i d (us : list doc) :
  i < List.length us -> write i d us = <[i := d]> us.
Proof. intros Hi. unfold write. by rewrite decide_True. Qed.

Lemma write_new d (us : list doc) : write (List.length us) d us = us ++ [d].
Proof. unfold write. by rewrite decide_False by lia. Qed.

Lemma write_created d d' (us : list doc) :
  write (List.length us) d' (us ++ [d]) = us ++ [d'].
Proof.
  rewrite write_at by (rewrite length_app; simpl; lia).
  rewrite insert_app_r_alt by lia. by rewrite Nat.sub_diag.
Qed.

Lemma with_users_users st us : users (with_users st us) = us.
Proof. done. Qed.

Lemma with_users_twice st us us' :
  with_users (with_users st us) us' = with_users st us'.
Proof. done. Qed.

Lemma with_users_same st : with_users st (users st) = st.
Proof. by destruct st. Qed.

(** The unique index refuses a write exactly when another place holds
    the username. *)
Lemma taken_true i (d : doc) (us : list doc) :
  taken i d us = true <->
  exists j d', j <> i /\ us !! j = Some d'
               /\ d' !! "username" = d !! "username".
Proof.
  unfold taken. rewrite bool_decide_eq_true, Exists_exists. split.
  - intros ([j d'] & Hin & Hne & Hu). simpl in *.
    apply elem_of_lookup_imap in Hin as (j' & d'' & [= -> ->] & Hj).
    eauto.
  - intros (j & d' & Hne & Hj & Hu). exists (j, d'). split; [|done].
    apply elem_of_lookup_imap. eauto.
Qed.

Lemma taken_false i (d : doc) (us : list doc) :
  (forall j d', us !! j = Some d' ->
     d' !! "username" = d !! "username" -> j = i) ->
  taken i d us = false.
Proof.
  intros Honly. apply not_true_is_false. rewrite taken_true.
  intros (j & d' & Hne & Hj & Hu). by destruct Hne; eapply Honly.
Qed.

(** A document of the user [get] found may be written at its place; a
    document of a user [get] did not find may be added. *)
Lemma taken_found u (us : list doc) i d0 (d : doc) :
  objects_get u us = Found i d0 -> has_username u d ->
  taken i d us = false.
Proof.
  intros Hget Hd. apply objects_get_Found in Hget as (_ & _ & Huniq).
  apply taken_false. intros j d' Hj Hu. apply (Huniq j d' Hj).
  unfold has_username in *. congruence.
Qed.

Lemma taken_new u (us : list doc) (d : doc) :
  objects_get u us = DoesNotExist -> has_username u d ->
  taken (List.length us) d us = false.
Proof.
  intros Hget Hd.
  pose proof (proj1 (objects_get_DoesNotExist _ _) Hget) as Hno.
  apply taken_false. intros j d' Hj Hu. destruct (Hno j d' Hj).
  unfold has_username in *. congruence.
Qed.

(** [save()] in its three cases. *)
Lemma save_rejected i (d : doc) st msg :
  User_validate d = Some msg ->
  save i d st = Raise (DocumentValidationError msg).
Proof. intros Hv. unfold UserSync.save. by rewrite Hv. Qed.

Lemma save_refused i (d : doc) st :
  User_validate d = None -> taken i d (users st) = true ->
  save i d st = Raise NotUniqueError.
Proof. intros Hv Ht. unfold UserSync.save. by rewrite Hv, Ht. Qed.

Lemma save_written i (d : doc) st :
  User_validate d = None -> taken i d (users st) = false ->
  save i d st = Return (with_users st (write i d (users st))).
Proof. intros Hv Ht. unfold UserSync.save. by rewrite Hv, Ht. Qed.

Lemma save_Return i (d : doc) st st' :
  save i d st = Return st' ->
  User_validate d = None /\ taken i d (users st) = false
  /\ st' = with_users st (write i d (users st)).
Proof.
  unfold UserSync.save. destruct (User_validate d); [discriminate|].
  destruct (taken i d (users st)); [discriminate|]. by intros [= <-].
Qed.

(** Whatever [save()] does, it writes at most the collection of users. *)
Lemma save_cases i (d : doc) st :
  (exists e, save i d st = Raise e)
  \/ save i d st = Return (with_users st (write i d (users st)))
     /\ User_validate d = None /\ taken i d (users st) = false.
Proof.
  unfold UserSync.save. destruct (User_validate d); [left; eauto|].
  destruct (taken i d (users st)); [left; eauto|]. by right.
Qed.

(** The call [update_user(user, **data)] without a key [user]. *)
Lemma call_update_user_run i user (data : doc) st :
  data !! "user" = None ->
  call_update_user i user data st =
    match save i (update_attrs user (data !! "hashed_password")
                    (delete "hashed_password" data)) st with
    | Raise e => (Raise e, st, [])
    | Return st' =>
        (Return tt, st',
         [_publish_user_updated UserSyncSchema_dump garden_name
            (update_attrs user (data !! "hashed_password")
               (delete "hashed_password" data))])
    end.
Proof.
  intros Hu. unfold UserSync.call_update_user, UserSync.update_user.
  rewrite Hu. by destruct (save _ _ _).
Qed.

(** C4 (amended).  For a serialized user that carries a username and
    passes the schema (its loaded data having no key [user] and no key
    [username]): if a stored user with that username exists and the
    [User] class accepts the updated document, the stored user is
    replaced in place by the updated user; a pre-hashed credential
    carried by the data becomes the stored password as it is, whatever
    the hash function; if no such user exists, the role-assignment list
    is non-empty and the class accepts the new and the updated document,
    one user is added to the store; if no such user exists and the list
    is empty, nothing is stored, logged or published.  The username of
    the updated or created user is left as it is.  When the class
    rejects the updated document of a stored user, or the new document
    of a user to create, [save()] raises: the exception leaves the
    import and the store is as it was. *)
Theorem import_record_cases su st username data :
  su !! "username" = Some username ->
  UserPatchSchema_load su = Return data ->
  data !! "user" = None ->
  data !! "username" = None ->
  (forall i user,
     objects_get username (users st) = Found i user ->
     User_validate (update_attrs user (data !! "hashed_password")
                      (delete "hashed_password" data)) = None ->
     outcome_of (import_one su st) = Return tt
     /\ users (db_of (import_one su st))
        = <[i := update_attrs user (data !! "hashed_password")
                   (delete "hashed_password" data)]> (users st)
     /\ users (db_of (import_one su st)) !! i
        = Some (update_attrs user (data !! "hashed_password")
                  (delete "hashed_password" data)))
  /\ (forall user h,
        data !! "hashed_password" = Some h -> truthy_u h = true ->
        update_attrs user (data !! "hashed_password")
          (delete "hashed_password" data) !! "password" = Some h)
  /\ (objects_get username (users st) = DoesNotExist ->
      forall ras n,
        data !! "role_assignments" = Some ras -> len ras = Return n ->
        (0 < n ->
         User_validate {[ "username" := username ]} = None ->
         User_validate
           (update_attrs {[ "username" := username ]}
              (data !! "hashed_password") (delete "hashed_password" data))
         = None ->
         outcome_of (import_one su st) = Return tt
         /\ users (db_of (import_one su st))
            = users st ++
              [update_attrs {[ "username" := username ]}
                 (data !! "hashed_password") (delete "hashed_password" data)])
        /\ (n = 0 -> import_one su st = (Return tt, st, [])))
  /\ (forall user,
        update_attrs user (data !! "hashed_password")
          (delete "hashed_password" data) !! "username" = user !! "username")
  /\ (forall i user msg,
        objects_get username (users st) = Found i user ->
        User_validate (update_attrs user (data !! "hashed_password")
                         (delete "hashed_password" data)) = Some msg ->
        import_one su st = (Raise (DocumentValidationError msg), st, []))
  /\ (objects_get username (users st) = DoesNotExist ->
      forall ras n msg,
        data !! "role_assignments" = Some ras -> len ras = Return n ->
        0 < n ->
        User_validate {[ "username" := username ]} = Some msg ->
        import_one su st = (Raise (DocumentValidationError msg), st, [])).
Proof.
  intros Hu Hload Huser Hname.
  assert (Hkeep : forall user : doc,
    update_attrs user (data !! "hashed_password")
      (delete "hashed_password" data) !! "username" = user !! "username").
  { intros user. apply update_attrs_other; [|done].
    by rewrite lookup_delete_ne. }
  split; [|split; [|split; [|split; [exact Hkeep|split]]]].
  - intros i user Hget Hvalid.
    unfold UserSync.import_one, UserSync.import_try.
    rewrite Hu, Hload, Hget, (call_update_user_run _ _ _ _ Huser).
    rewrite save_written; [|done|].
    2:{ apply (taken_found username _ _ user); [done|].
        unfold has_username. rewrite Hkeep.
        by apply objects_get_Found in Hget as (_ & Hd & _). }
    unfold outcome_of, db_of. simpl.
    apply objects_get_Found in Hget as (Hi & _).
    pose proof (lookup_lt_Some _ _ _ Hi) as Hlt.
    rewrite write_at by done. split; [done|]. split; [done|].
    by rewrite list_lookup_insert_eq.
  - intros user h Hh Ht. rewrite update_attrs_lookup, Hh, Ht. done.
  - intros Hget ras n Hras Hlen. split.
    + intros Hn Hbare Hvalid.
      assert (Hnew : has_username username ({[ "username" := username ]} : doc)).
      { unfold has_username. by rewrite lookup_singleton_eq. }
      unfold UserSync.import_one, UserSync.import_try.
      rewrite Hu, Hload, Hget, Hras, Hlen.
      destruct n as [|n]; [lia|]. simpl.
      rewrite save_written; [|done|by apply (taken_new username)].
      rewrite (call_update_user_run _ _ _ _ Huser). simpl.
      rewrite write_new.
      rewrite save_written; [|done|].
      2:{ simpl. apply (taken_found username _ _ {[ "username" := username ]}).
          - by apply objects_get_created.
          - unfold has_username. by rewrite Hkeep. }
      unfold outcome_of, db_of. simpl.
      split; [done|]. by rewrite write_created.
    + intros ->.
      unfold UserSync.import_one, UserSync.import_try.
      by rewrite Hu, Hload, Hget, Hras, Hlen.
  - intros i user msg Hget Hbad.
    unfold UserSync.import_one, UserSync.import_try.
    rewrite Hu, Hload, Hget, (call_update_user_run _ _ _ _ Huser).
    by rewrite (save_rejected _ _ _ _ Hbad).
  - intros Hget ras n msg Hras Hlen Hn Hbad.
    unfold UserSync.import_one, UserSync.import_try.
    rewrite Hu, Hload, Hget, Hras, Hlen.
    destruct n as [|n]; [lia|]. simpl.
    by rewrite (save_rejected _ _ _ _ Hbad).
Qed.

(** *** The batch *)

Lemma import_users_app l1 l2 st :
  _import_users (l1 ++ l2) st =
    match _import_users l1 st with
    | (Return _, st1, t1) =>
        let '(o, st2, t2) := _import_users l2 st1 in (o, st2, t1 ++ t2)
    | r => r
    end.
Proof.
  revert st. induction l1 as [|a l1 IH]; intros st; simpl.
  - by destruct (_import_users l2 st) as [[o st2] t2].
  - destruct (import_one a st) as [[[[]|e] st1] t1]; [|done].
    rewrite IH.
    destruct (_import_users l1 st1) as [[[[]|e] st2] t2]; [|done].
    destruct (_import_users l2 st2) as [[o st3] t3].
    by rewrite app_assoc.
Qed.

(** A record that fails the schema is logged and changes nothing. *)
Lemma import_one_invalid su st username e :
  su !! "username" = Some username ->
  UserPatchSchema_load su = Raise e ->
  exn_class e = "ValidationError" ->
  import_one su st
  = (Return tt, st, [LogInfo "Failed to import user" username e]).
Proof.
  intros Hu Hload Hc. unfold UserSync.import_one, UserSync.import_try.
  rewrite Hu, Hload. by rewrite bool_decide_eq_true_2.
Qed.

(** C6 (amended).  A record that carries a username and fails the schema
    with a [ValidationError] is logged and skipped: when the records
    before it were imported, the records after it are imported from the
    store those left, as if the failing record were not in the batch. *)
Theorem invalid_record_is_skipped before bad after st st1 t1 username e :
  bad !! "username" = Some username ->
  UserPatchSchema_load bad = Raise e ->
  exn_class e = "ValidationError" ->
  _import_users before st = (Return tt, st1, t1) ->
  import_one bad st1
  = (Return tt, st1, [LogInfo "Failed to import user" username e])
  /\ _import_users (before ++ bad :: after) st
     = (outcome_of (_import_users after st1),
        db_of (_import_users after st1),
        t1 ++ LogInfo "Failed to import user" username e
           :: (_import_users after st1).2).
Proof.
  intros Hu Hload Hc Hbefore.
  pose proof (import_one_invalid bad st1 username e Hu Hload Hc) as Hbad.
  split; [done|].
  rewrite import_users_app, Hbefore. simpl. rewrite Hbad.
  by destruct (_import_users after st1) as [[o st2] t2].
Qed.

(** *** Importing twice *)

Section Idempotence.

(** The patch schema has no [username] field. *)
Hypothesis load_keeps_username :
  forall su data, UserPatchSchema_load su = Return data ->
                  data !! "username" = None.

#[local] Abbreviation updated data user :=
  (update_attrs user (data !! "hashed_password") (delete "hashed_password" data)).
#[local] Abbreviation published user :=
  (_publish_user_updated UserSyncSchema_dump garden_name user).
#[local] Abbreviation bare u := ({[ "username" := u ]} : doc).

Lemma updated_username su (data : doc) (user : doc) :
  UserPatchSchema_load su = Return data ->
  updated data user !! "username" = user !! "username".
Proof.
  intros Hload. apply update_attrs_other; [|done].
  rewrite lookup_delete_ne by done. by eapply load_keeps_username.
Qed.

(** [save()] either raises, with an exception the import does not
    handle, or writes. *)
Lemma save_outcomes i (d : doc) st :
  (exists e, save i d st = Raise e /\ exn_class e <> "ValidationError")
  \/ (User_validate d = None /\ taken i d (users st) = false
      /\ save i d st = Return (with_users st (write i d (users st)))).
Proof.
  unfold UserSync.save. destruct (User_validate d) as [msg|].
  { left. eexists. split; [done|]. discriminate. }
  destruct (taken i d (users st)).
  { left. eexists. split; [done|]. discriminate. }
  by right.
Qed.

(** The call of [update_user] either raises, with an exception the
    import does not handle and the store as it was, or stores the
    updated user and publishes it. *)
Lemma call_update_user_cases i user (data : doc) st :
  (exists e, call_update_user i user data st = (Raise e, st, [])
             /\ exn_class e <> "ValidationError")
  \/ (data !! "user" = None
      /\ User_validate (updated data user) = None
      /\ taken i (updated data user) (users st) = false
      /\ call_update_user i user data st
         = (Return tt,
            with_users st (write i (updated data user) (users st)),
            [published (updated data user)])).
Proof.
  destruct (data !! "user") as [v|] eqn:Huser.
  { left. unfold UserSync.call_update_user. rewrite Huser.
    eexists. split; [done|]. discriminate. }
  rewrite (call_update_user_run _ _ _ _ Huser).
  destruct (save_outcomes i (updated data user) st)
    as [(e & -> & Hc) | (Hv & Ht & ->)]; [left; eauto | by right].
Qed.

(** The record of a stored user is the call of [update_user] on it. *)
Lemma import_one_found su st u data i d :
  su !! "username" = Some u ->
  UserPatchSchema_load su = Return data ->
  objects_get u (users st) = Found i d ->
  import_one su st = call_update_user i d data st.
Proof.
  intros Hu Hload Hget. unfold UserSync.import_one, UserSync.import_try.
  rewrite Hu, Hload, Hget.
  destruct (call_update_user_cases i d data st)
    as [(e & -> & Hc) | (_ & _ & _ & ->)]; [|done].
  by rewrite bool_decide_eq_false_2.
Qed.

(** The record of a user that is not stored, with assignments: the new
    user is saved, then updated. *)
Lemma import_one_new su st u data ras n :
  su !! "username" = Some u ->
  UserPatchSchema_load su = Return data ->
  objects_get u (users st) = DoesNotExist ->
  data !! "role_assignments" = Some ras -> len ras = Return (S n) ->
  import_one su st =
    match save (List.length (users st)) (bare u) st with
    | Raise e => (Raise e, st, [])
    | Return st' => call_update_user (List.length (users st)) (bare u) data st'
    end.
Proof.
  intros Hu Hload Hget Hras Hlen.
  unfold UserSync.import_one, UserSync.import_try.
  rewrite Hu, Hload, Hget, Hras, Hlen. simpl.
  destruct (save_outcomes (List.length (users st)) (bare u) st)
    as [(e & -> & Hc) | (_ & _ & ->)].
  { by rewrite bool_decide_eq_false_2. }
  destruct (call_update_user_cases (List.length (users st)) (bare u) data
              (with_users st (write (List.length (users st)) (bare u) (users st))))
    as [(e & -> & Hc) | (_ & _ & _ & ->)]; [|done].
  by rewrite bool_decide_eq_false_2.
Qed.

(** The records that leave the store as it is. *)
Lemma import_one_skips su st u data :
  su !! "username" = Some u ->
  UserPatchSchema_load su = Return data ->
  objects_get u (users st) = DoesNotExist ->
  (forall ras n, data !! "role_assignments" = Some ras ->
                 len ras = Return (S n) -> False) ->
  db_of (import_one su st) = st
  /\ (returns (outcome_of (import_one su st)) = true ->
      exists ras, data !! "role_assignments" = Some ras
                  /\ len ras = Return 0
                  /\ import_one su st = (Return tt, st, [])).
Proof.
  intros Hu Hload Hget Hno.
  unfold UserSync.import_one, UserSync.import_try, db_of, outcome_of.
  rewrite Hu, Hload, Hget.
  destruct (data !! "role_assignments") as [ras|] eqn:Hras; simpl;
    [|split; [done|discriminate]].
  destruct (len ras) as [n|e] eqn:Hlen; simpl.
  - destruct n as [|n]; [|by destruct (Hno ras n)]. simpl.
    split; [done|]. intros _. by exists ras.
  - assert (Hc : exn_class e <> "ValidationError").
    { destruct ras; simpl in Hlen; try discriminate;
        injection Hlen as <-; discriminate. }
    rewrite bool_decide_eq_false_2 by done. simpl.
    split; [done|discriminate].
Qed.

(** What one record does to the store: only the collection of users
    changes, and no document of another username is touched. *)
Lemma import_one_frame su st u :
  su !! "username" <> Some u ->
  db_of (import_one su st)
  = with_users st (users (db_of (import_one su st)))
  /\ agree_on u (users st) (users (db_of (import_one su st))).
Proof.
  intros Hne.
  assert (Hsame : forall r : run,
    db_of r = st ->
    db_of r = with_users st (users (db_of r))
    /\ agree_on u (users st) (users (db_of r))).
  { intros r ->. split; [by rewrite with_users_same | apply agree_on_refl]. }
  destruct (su !! "username") as [u'|] eqn:Hu.
  2:{ apply Hsame. unfold UserSync.import_one. by rewrite Hu. }
  assert (Hneq : u' <> u) by congruence.
  destruct (UserPatchSchema_load su) as [data|e] eqn:Hload.
  2:{ apply Hsame. unfold UserSync.import_one, UserSync.import_try.
      rewrite Hu, Hload. by destruct (bool_decide _). }
  assert (Hcall : forall i (d : doc) us0,
    (i < List.length us0 -> exists d0, us0 !! i = Some d0
                                       /\ ~ has_username u d0) ->
    i <= List.length us0 ->
    has_username u' d ->
    agree_on u (users st) us0 ->
    db_of (call_update_user i d data (with_users st us0))
    = with_users st (users (db_of (call_update_user i d data
                                     (with_users st us0))))
    /\ agree_on u (users st)
         (users (db_of (call_update_user i d data (with_users st us0))))).
  { intros i d us0 Hold Hle Hd Hag.
    assert (Hupd : ~ has_username u (updated data d)).
    { unfold has_username. rewrite (updated_username su) by done.
      by eapply has_username_inj. }
    destruct (call_update_user_cases i d data (with_users st us0))
      as [(e & -> & _) | (_ & _ & _ & ->)]; unfold db_of; simpl.
    - done.
    - split; [done|]. eapply agree_on_trans; [exact Hag|].
      destruct (decide (i < List.length us0)) as [Hlt|Hge].
      + rewrite write_at by done.
        destruct (Hold Hlt) as (d0 & Hi & Hd0).
        by eapply agree_on_insert.
      + replace i with (List.length us0) by lia. rewrite write_new.
        by apply agree_on_snoc. }
  destruct (objects_get u' (users st)) as [i d| |] eqn:Hget.
  - rewrite (import_one_found _ _ _ _ _ _ Hu Hload Hget).
    pose proof (proj1 (objects_get_Found _ _ _ _) Hget) as (Hi & Hd & _).
    pose proof (lookup_lt_Some _ _ _ Hi) as Hlt.
    rewrite <- (with_users_same st) at 1 3 5.
    apply Hcall; [|lia|done|apply agree_on_refl].
    intros _. exists d. split; [done|]. by eapply has_username_inj.
  - destruct (data !! "role_assignments") as [ras|] eqn:Hras.
    2:{ apply Hsame.
        apply (import_one_skips su st u' data Hu Hload Hget).
        intros ras n Hr. congruence. }
    destruct (len ras) as [[|n]|e] eqn:Hlen.
    1,3: apply Hsame;
         apply (import_one_skips su st u' data Hu Hload Hget);
         intros ras' n' Hr Hl; congruence.
    rewrite (import_one_new _ _ _ _ _ _ Hu Hload Hget Hras Hlen).
    assert (Hbare : has_username u' (bare u')).
    { unfold has_username. by rewrite lookup_singleton_eq. }
    destruct (save_outcomes (List.length (users st)) (bare u') st)
      as [(e & -> & _) | (_ & _ & ->)]; [by apply Hsame|].
    rewrite write_new.
    apply Hcall.
    + intros _. exists (bare u').
      split; [by rewrite lookup_app_r, Nat.sub_diag by lia|].
      by eapply has_username_inj.
    + rewrite length_app. simpl. lia.
    + done.
    + apply agree_on_snoc. by eapply has_username_inj.
  - apply Hsame. unfold UserSync.import_one, UserSync.import_try.
    by rewrite Hu, Hload, Hget.
Qed.

(** A second call of [update_user] with the same data on the user the
    first one stored changes nothing. *)
Lemma call_update_user_settled i (d : doc) (data : doc) st :
  data !! "user" = None ->
  User_validate (updated data d) = None ->
  users st !! i = Some (updated data d) ->
  taken i (updated data d) (users st) = false ->
  call_update_user i (updated data d) data st
  = (Return tt, st, [published (updated data d)]).
Proof.
  intros Huser Hv Hi Ht. rewrite (call_update_user_run _ _ _ _ Huser).
  rewrite update_attrs_idemp.
  rewrite save_written by done.
  rewrite write_at by (by eapply lookup_lt_Some).
  by rewrite list_insert_id, with_users_same.
Qed.

(** Importing a record once more changes nothing and ends the same
    way. *)
Lemma import_one_again su st :
  db_of (import_one su (db_of (import_one su st))) = db_of (import_one su st)
  /\ returns (outcome_of (import_one su (db_of (import_one su st))))
     = returns (outcome_of (import_one su st)).
Proof.
  assert (Hsame : db_of (import_one su st) = st ->
    db_of (import_one su (db_of (import_one su st))) = db_of (import_one su st)
    /\ returns (outcome_of (import_one su (db_of (import_one su st))))
       = returns (outcome_of (import_one su st))).
  { intros Hdb. by rewrite !Hdb. }
  destruct (su !! "username") as [u|] eqn:Hu.
  2:{ apply Hsame. unfold UserSync.import_one. by rewrite Hu. }
  destruct (UserPatchSchema_load su) as [data|e] eqn:Hload.
  2:{ apply Hsame. unfold UserSync.import_one, UserSync.import_try.
      rewrite Hu, Hload. by destruct (bool_decide _). }
  assert (Hupd : forall d : doc, has_username u d ->
                                 has_username u (updated data d)).
  { intros d Hd. unfold has_username. by rewrite (updated_username su). }
  destruct (objects_get u (users st)) as [i d| |] eqn:Hget.
  - pose proof (import_one_found _ _ _ _ _ _ Hu Hload Hget) as Hone.
    pose proof (proj1 (objects_get_Found _ _ _ _) Hget) as (Hi & Hd & _).
    pose proof (lookup_lt_Some _ _ _ Hi) as Hlt.
    destruct (call_update_user_cases i d data st)
      as [(e & He & _) | (Huser & Hv & Ht & Hrun)].
    + apply Hsame. by rewrite Hone, He.
    + rewrite Hrun, write_at in Hone by done.
      rewrite Hone. unfold db_of, outcome_of. simpl.
      pose proof (objects_get_updated _ _ _ _ _ Hget (Hupd _ Hd)) as Hget'.
      rewrite (import_one_found su (with_users st (<[i := updated data d]> (users st)))
                 u data i (updated data d) Hu Hload Hget').
      rewrite call_update_user_settled; [done|done|done| |].
      * simpl. by apply list_lookup_insert_eq.
      * exact (taken_found u _ _ _ _ Hget' (Hupd _ Hd)).
  - destruct (data !! "role_assignments") as [ras|] eqn:Hras.
    2:{ apply Hsame.
        apply (import_one_skips su st u data Hu Hload Hget).
        intros ras n Hr. congruence. }
    destruct (len ras) as [[|n]|e] eqn:Hlen.
    1,3: apply Hsame;
         apply (import_one_skips su st u data Hu Hload Hget);
         intros ras' n' Hr Hl; congruence.
    pose proof (import_one_new _ _ _ _ _ _ Hu Hload Hget Hras Hlen) as Hone.
    assert (Hbare : has_username u (bare u)).
    { unfold has_username. by rewrite lookup_singleton_eq. }
    destruct (save_outcomes (List.length (users st)) (bare u) st)
      as [(e & He & _) | (_ & _ & Hsave)].
    { apply Hsame. by rewrite Hone, He. }
    rewrite Hsave, write_new in Hone.
    pose proof (objects_get_created _ _ _ Hget Hbare) as Hget1.
    destruct (call_update_user_cases (List.length (users st)) (bare u) data
                (with_users st (users st ++ [bare u])))
      as [(e & He & _) | (Huser & Hv & Ht & Hrun)].
    + rewrite He in Hone. rewrite Hone. unfold db_of, outcome_of. simpl.
      rewrite (import_one_found su (with_users st (users st ++ [bare u]))
                 u data _ _ Hu Hload Hget1), He. done.
    + rewrite Hrun, with_users_users, write_created, with_users_twice in Hone.
      rewrite Hone. unfold db_of, outcome_of. simpl.
      pose proof (objects_get_created _ _ _ Hget (Hupd _ Hbare)) as Hget2.
      rewrite (import_one_found su
                 (with_users st (users st ++ [updated data (bare u)]))
                 u data _ _ Hu Hload Hget2).
      rewrite call_update_user_settled; [done|done|done| |].
      * simpl. by rewrite lookup_app_r, Nat.sub_diag by lia.
      * exact (taken_found u _ _ _ _ Hget2 (Hupd _ Hbare)).
  - apply Hsame. unfold UserSync.import_one, UserSync.import_try.
    by rewrite Hu, Hload, Hget.
Qed.

(** A record that has settled (it returns without changing the store)
    stays settled while only documents of other usernames change. *)
Lemma import_one_settled_frame su st us' u :
  su !! "username" = Some u ->
  db_of (import_one su st) = st ->
  returns (outcome_of (import_one su st)) = true ->
  agree_on u (users st) us' ->
  db_of (import_one su (with_users st us')) = with_users st us'
  /\ returns (outcome_of (import_one su (with_users st us'))) = true.
Proof.
  intros Hu Hdb Hret Hag.
  destruct (UserPatchSchema_load su) as [data|e] eqn:Hload.
  2:{ revert Hret. unfold UserSync.import_one, UserSync.import_try.
      rewrite Hu, Hload. unfold db_of, outcome_of.
      by destruct (bool_decide _). }
  destruct (objects_get u (users st)) as [i d| |] eqn:Hget.
  - pose proof (objects_get_Found_agree _ _ _ _ _ Hag Hget) as Hget'.
    rewrite (import_one_found _ _ _ _ _ _ Hu Hload Hget) in Hdb, Hret.
    rewrite (import_one_found su (with_users st us') u data i d Hu Hload Hget').
    pose proof (proj1 (objects_get_Found _ _ _ _) Hget) as (Hi & Hd & _).
    pose proof (proj1 (objects_get_Found _ _ _ _) Hget') as (Hi' & _ & _).
    pose proof (lookup_lt_Some _ _ _ Hi) as Hlt.
    destruct (call_update_user_cases i d data st)
      as [(e & He & _) | (Huser & Hv & Ht & Hrun)].
    { rewrite He in Hret. discriminate. }
    rewrite Hrun in Hdb. unfold db_of in Hdb. simpl in Hdb.
    assert (Hsame : updated data d = d).
    { apply (f_equal users) in Hdb. simpl in Hdb.
      rewrite write_at in Hdb by done.
      apply (f_equal (fun l => l !! i)) in Hdb.
      rewrite list_lookup_insert_eq, Hi in Hdb by done. congruence. }
    assert (Hrun' : call_update_user i d data (with_users st us')
                    = (Return tt, with_users st us',
                       [published (updated data d)])).
    { rewrite <- Hsame at 1. apply call_update_user_settled; [done|done| |].
      - simpl. by rewrite Hsame.
      - apply (taken_found u _ _ d _ Hget').
        unfold has_username. by rewrite (updated_username su). }
    by rewrite Hrun'.
  - pose proof (objects_get_DoesNotExist_agree _ _ _ Hag Hget) as Hget'.
    destruct (data !! "role_assignments") as [ras|] eqn:Hras.
    2:{ destruct (import_one_skips su st u data Hu Hload Hget) as [_ Hs].
        { intros ras n Hr. congruence. }
        destruct (Hs Hret) as (ras & Hr & _). congruence. }
    destruct (len ras) as [[|n]|e] eqn:Hlen.
    + unfold UserSync.import_one, UserSync.import_try, db_of, outcome_of.
      simpl. by rewrite Hu, Hload, Hget', Hras, Hlen.
    + exfalso.
      rewrite (import_one_new _ _ _ _ _ _ Hu Hload Hget Hras Hlen)
        in Hdb, Hret.
      destruct (save_outcomes (List.length (users st)) (bare u) st)
        as [(e & He & _) | (_ & _ & Hsave)].
      { rewrite He in Hret. discriminate. }
      rewrite Hsave, write_new in Hdb, Hret.
      destruct (call_update_user_cases (List.length (users st)) (bare u) data
                  (with_users st (users st ++ [bare u])))
        as [(e & He & _) | (_ & _ & _ & Hrun)].
      { rewrite He in Hret. discriminate. }
      rewrite Hrun in Hdb. unfold db_of in Hdb. simpl in Hdb.
      apply (f_equal (fun s => List.length (users s))) in Hdb. simpl in Hdb.
      rewrite write_created, length_app in Hdb. simpl in Hdb. lia.
    + destruct (import_one_skips su st u data Hu Hload Hget) as [_ Hs].
      { intros ras' n' Hr Hl. congruence. }
      destruct (Hs Hret) as (ras' & Hr & Hl & _). congruence.
  - revert Hret. unfold UserSync.import_one, UserSync.import_try.
    rewrite Hu, Hload, Hget. unfold outcome_of. simpl. discriminate.
Qed.

Lemma import_one_no_username su st :
  su !! "username" = None ->
  import_one su st = (Raise (KeyError "username"), st, []).
Proof. intros Hu. unfold UserSync.import_one. by rewrite Hu. Qed.

Lemma import_users_cons su rest st :
  _import_users (su :: rest) st =
    match import_one su st with
    | (Return _, st', t) =>
        let '(o, st'', t') := _import_users rest st' in (o, st'', t ++ t')
    | r => r
    end.
Proof. done. Qed.

(** The batch only writes the collection of users. *)
Lemma import_users_frame rs st u :
  u ∉ usernames rs ->
  db_of (_import_users rs st)
  = with_users st (users (db_of (_import_users rs st)))
  /\ agree_on u (users st) (users (db_of (_import_users rs st))).
Proof.
  revert st. induction rs as [|r rs IH]; intros st Hnot.
  - split; [by rewrite with_users_same | apply agree_on_refl].
  - assert (Hr : r !! "username" <> Some u).
    { intros Hr. apply Hnot. unfold usernames. simpl. rewrite Hr. by left. }
    assert (Hrs : u ∉ usernames rs).
    { intros Hin. apply Hnot. unfold usernames. simpl.
      destruct (r !! "username"); [by right | done]. }
    destruct (import_one_frame r st u Hr) as [Hw Ha].
    rewrite import_users_cons.
    destruct (import_one r st) as [[[[]|e] st1] t1] eqn:Hone;
      unfold db_of in Hw, Ha; simpl in Hw, Ha; [|done].
    destruct (IH st1 Hrs) as [Hw' Ha'].
    destruct (_import_users rs st1) as [[o st2] t2].
    unfold db_of in *. simpl in *. split.
    + rewrite Hw', Hw. done.
    + by eapply agree_on_trans.
Qed.

(** A settled record stays settled through a batch that does not name its
    user. *)
Lemma settled_through rs su st u :
  su !! "username" = Some u ->
  u ∉ usernames rs ->
  db_of (import_one su st) = st ->
  returns (outcome_of (import_one su st)) = true ->
  db_of (import_one su (db_of (_import_users rs st)))
  = db_of (_import_users rs st)
  /\ returns (outcome_of (import_one su (db_of (_import_users rs st)))) = true.
Proof.
  intros Hu Hnot Hdb Hret.
  destruct (import_users_frame rs st u Hnot) as [Hw Ha].
  rewrite Hw. by apply (import_one_settled_frame su st _ u).
Qed.

(** Run twice with one and the same hash function, the import is
    idempotent on payloads that name each user once; the step to a
    second run with a hash of its own is [import_users_any_hash]. *)
Lemma import_users_idemp rs st :
  NoDup (usernames rs) ->
  db_of (_import_users rs (db_of (_import_users rs st)))
  = db_of (_import_users rs st).
Proof.
  revert st. induction rs as [|r rs IH]; intros st Hnd; [done|].
  destruct (r !! "username") as [u|] eqn:Hu.
  2:{ rewrite (import_users_cons r rs st), (import_one_no_username r st Hu).
      unfold db_of. simpl.
      by rewrite (import_one_no_username r st Hu). }
  assert (Hnot : (u ∉ usernames rs) /\ NoDup (usernames rs)).
  { unfold usernames in *. simpl in Hnd. rewrite Hu in Hnd.
    by apply NoDup_cons in Hnd. }
  destruct Hnot as [Hnot Hnd'].
  destruct (import_one_again r st) as [Hdb Hret].
  rewrite (import_users_cons r rs st).
  destruct (import_one r st) as [[[[]|e] st1] t1] eqn:Hone;
    unfold db_of, outcome_of in Hdb, Hret; simpl in Hdb, Hret.
  - destruct (settled_through rs r st1 u Hu Hnot Hdb Hret) as [Hdb2 Hret2].
    specialize (IH st1 Hnd').
    destruct (_import_users rs st1) as [[o st2] t2] eqn:Hrest.
    unfold db_of, outcome_of in *. simpl in *.
    destruct (import_one r st2) as [[[[]|e] st3] t3]; simpl in *;
      [|discriminate].
    subst st3.
    by destruct (_import_users rs st2) as [[o' st4] t4].
  - unfold db_of. simpl.
    destruct (import_one r st1) as [[[[]|e'] st3] t3]; simpl in *;
      [discriminate|done].
Qed.

End Idempotence.

Lemma user_sync_db payload st :
  db_of (user_sync payload st) = db_of (_import_users payload st).
Proof.
  unfold UserSync.user_sync, db_of.
  destruct (_import_users payload st) as [[[[]|e] st1] t1]; [|done].
  by destruct (UserSync.initiate_user_sync _ _ st1).
Qed.

End ImportFacts.

(** *** The password hash *)

Section TwoRuns.

Import UserSync Spec.

(** The hash behind [set_password] salts: two runs hash as two
    functions. *)
Variable hash hash' : uval -> uval.
Variable User_validate : doc -> option string.
Variable UserPatchSchema_load : doc -> outcome doc.
Variable UserSyncSchema_dump : doc -> doc.
Variable garden_name : string.
Variable route : Stomp.Operation (list doc) -> outcome unit.

(** Where no password is hashed the hash does not matter. *)
Lemma update_attrs_any_hash user hp (kwargs : doc) :
  kwargs !! "password" = None \/ is_None hp = false ->
  update_attrs hash' user hp kwargs = update_attrs hash user hp kwargs.
Proof.
  intros Hno. apply map_eq. intros k. rewrite !update_attrs_lookup.
  assert (Hw : forall v, kwargs !! k = Some v ->
                         written hash' hp k v = written hash hp k v).
  { intros v Hk. unfold written. case_bool_decide as Hp; [|done].
    subst k. destruct Hno as [Hno | ->]; [congruence|done]. }
  destruct (kwargs !! k) as [v|]; [|done].
  by rewrite (Hw v eq_refl).
Qed.

Lemma import_one_any_hash su st :
  (forall data, UserPatchSchema_load su = Return data ->
                no_plain_password data) ->
  import_one hash' User_validate UserPatchSchema_load UserSyncSchema_dump
    garden_name su st
  = import_one hash User_validate UserPatchSchema_load UserSyncSchema_dump
      garden_name su st.
Proof.
  intros Hno. unfold import_one, import_try.
  destruct (su !! "username") as [u|]; [|done].
  destruct (UserPatchSchema_load su) as [data|e] eqn:Hload; [|done].
  assert (Heq : forall user : doc,
    update_attrs hash' user (data !! "hashed_password")
      (delete "hashed_password" data)
    = update_attrs hash user (data !! "hashed_password")
        (delete "hashed_password" data)).
  { intros user. apply update_attrs_any_hash.
    rewrite lookup_delete_ne by done. exact (Hno data eq_refl). }
  assert (Hcall : forall i user st0,
    call_update_user hash' User_validate UserSyncSchema_dump garden_name
      i user data st0
    = call_update_user hash User_validate UserSyncSchema_dump garden_name
        i user data st0).
  { intros i user st0. unfold call_update_user, update_user.
    by rewrite Heq. }
  destruct (objects_get u (users st)) as [i d| |]; [by rewrite Hcall| |done].
  destruct (data !! "role_assignments") as [ras|]; [|done].
  destruct (len ras) as [n|e]; [|done].
  destruct (0 <? n)%nat; [|done].
  destruct (save User_validate _ _ st); [by rewrite Hcall|done].
Qed.

Lemma import_users_any_hash payload st :
  (forall su data, su ∈ payload -> UserPatchSchema_load su = Return data ->
                   no_plain_password data) ->
  _import_users hash' User_validate UserPatchSchema_load UserSyncSchema_dump
    garden_name payload st
  = _import_users hash User_validate UserPatchSchema_load UserSyncSchema_dump
      garden_name payload st.
Proof.
  revert st. induction payload as [|su payload IH]; intros st Hno; [done|].
  simpl. rewrite import_one_any_hash by (intros data; apply Hno; by left).
  destruct (import_one hash _ _ _ _ su st) as [[[[]|e] st1] t1]; [|done].
  rewrite IH; [done|]. intros su' data Hin. apply Hno. by right.
Qed.

(** C3 (amended).  For every payload that names each user at most once
    and holds no password to hash (its credentials are pre-hashed), and
    a patch schema without a [username] field, applying [user_sync] a
    second time leaves the stored users, remote users and gardens
    exactly as the first application left them, whatever the hash does
    in either run and whatever the [User] class accepts. *)
Theorem user_sync_idempotent payload st :
  (forall su data, UserPatchSchema_load su = Return data ->
                   data !! "username" = None) ->
  NoDup (usernames payload) ->
  (forall su data, su ∈ payload -> UserPatchSchema_load su = Return data ->
                   no_plain_password data) ->
  db_of (user_sync hash' User_validate UserPatchSchema_load
           UserSyncSchema_dump garden_name route payload
           (db_of (user_sync hash User_validate UserPatchSchema_load
                     UserSyncSchema_dump garden_name route payload st)))
  = db_of (user_sync hash User_validate UserPatchSchema_load
             UserSyncSchema_dump garden_name route payload st).
Proof.
  intros Hkeep Hnd Hno. rewrite !user_sync_db.
  rewrite import_users_any_hash by done.
  by apply import_users_idemp.
Qed.

End TwoRuns.

(** The sample patch schema never yields a [username], and yields a
    [password] only for a record that has one. *)
Lemma sample_load_keeps_username su data :
  Sample.UserPatchSchema_load su = Return data -> data !! "username" = None.
Proof.
  unfold Sample.UserPatchSchema_load.
  destruct (forallb _ _); [|discriminate]. intros [= <-].
  apply map_lookup_filter_None. right. intros x _. simpl.
  unfold Sample.patch_fields. rewrite !elem_of_cons, elem_of_nil.
  intros [H|[H|[H|[]]]]; discriminate.
Qed.

Lemma sample_load_no_password (su : gmap string UserSync.uval) data :
  su !! "password" = None ->
  Sample.UserPatchSchema_load su = Return data ->
  Spec.no_plain_password data.
Proof.
  unfold Sample.UserPatchSchema_load. intros Hp.
  destruct (forallb _ _); [|discriminate]. intros [= <-]. left.
  apply map_lookup_filter_None. by left.
Qed.

(** The stored user is sent again with a pre-hashed credential; a new
    user arrives with one assignment. *)
Lemma import_record_cases_witness :
  let import_one :=
    UserSync.import_one Sample.hash Sample.User_validate
      Sample.UserPatchSchema_load Sample.UserSyncSchema_dump "parent" in
  Sample.alice_wire !! "username" = Some (UserSync.UStr "alice")
  /\ UserSync.objects_get (UserSync.UStr "alice")
       (UserSync.users Sample.parent_db) = UserSync.Found 0 Sample.alice_doc
  /\ UserSync.users (Spec.db_of (import_one Sample.alice_wire Sample.parent_db))
     = [ {[ "username" := UserSync.UStr "alice";
            "role_assignments" := UserSync.URoles [Sample.global_role];
            "password" := UserSync.UStr "$pre$" ]} ]
  /\ UserSync.users (Spec.db_of (import_one Sample.bob_wire Sample.parent_db))
     = [Sample.alice_doc; Sample.bob_wire].
Proof.
  intros import_one. subst import_one.
  assert (Hu : Sample.alice_wire !! "username" = Some (UserSync.UStr "alice"))
    by by_decide.
  assert (Hload : Sample.UserPatchSchema_load Sample.alice_wire
            = Return {[ "role_assignments" := UserSync.URoles [Sample.global_role];
                        "hashed_password" := UserSync.UStr "$pre$" ]})
    by by_decide.
  assert (Hget : UserSync.objects_get (UserSync.UStr "alice")
       (UserSync.users Sample.parent_db) = UserSync.Found 0 Sample.alice_doc)
    by by_decide.
  assert (Hub : Sample.bob_wire !! "username" = Some (UserSync.UStr "bob"))
    by by_decide.
  assert (Hloadb : Sample.UserPatchSchema_load Sample.bob_wire
            = Return {[ "role_assignments" := UserSync.URoles [Sample.global_role] ]})
    by by_decide.
  assert (Hgetb : UserSync.objects_get (UserSync.UStr "bob")
       (UserSync.users Sample.parent_db) = UserSync.DoesNotExist)
    by by_decide.
  destruct (import_record_cases Sample.hash Sample.User_validate
              Sample.UserPatchSchema_load
              Sample.UserSyncSchema_dump "parent" Sample.alice_wire
              Sample.parent_db (UserSync.UStr "alice") _
              Hu Hload ltac:(by_decide) ltac:(by_decide))
    as (Hexists & _ & _ & _).
  destruct (import_record_cases Sample.hash Sample.User_validate
              Sample.UserPatchSchema_load
              Sample.UserSyncSchema_dump "parent" Sample.bob_wire
              Sample.parent_db (UserSync.UStr "bob") _
              Hub Hloadb ltac:(by_decide) ltac:(by_decide))
    as (_ & _ & Hnew & _).
  split; [exact Hu|]. split; [exact Hget|]. split.
  - destruct (Hexists 0 Sample.alice_doc Hget ltac:(by_decide)) as (_ & -> & _).
    by_decide.
  - destruct (Hnew Hgetb (UserSync.URoles [Sample.global_role]) 1
                ltac:(by_decide) ltac:(by_decide)) as [Hcreate _].
    destruct (Hcreate (Nat.lt_0_1) ltac:(by_decide) ltac:(by_decide))
      as [_ ->].
    by_decide.
Defined.

(** C4 as stated fails for a record the [User] class rejects: a record
    whose username is null passes the patch schema, names no stored
    user and carries an assignment, and yet no user is created: the new
    user's [save()] raises mongoengine's [ValidationError], which the
    import does not handle, and the store stays as it was. *)
Lemma null_username_creates_no_user :
  Sample.null_name_wire !! "username" = Some UserSync.UNone
  /\ Sample.UserPatchSchema_load Sample.null_name_wire
     = Return {[ "role_assignments" := UserSync.URoles [Sample.global_role] ]}
  /\ UserSync.objects_get UserSync.UNone (UserSync.users Sample.empty_db)
     = UserSync.DoesNotExist
  /\ UserSync.import_one Sample.hash Sample.User_validate
       Sample.UserPatchSchema_load Sample.UserSyncSchema_dump "parent"
       Sample.null_name_wire Sample.empty_db
     = (Raise (UserSync.DocumentValidationError
                 "Field is required: ['username']"),
        Sample.empty_db, []).
Proof. repeat split; by_decide. Qed.

(** A record that fails the schema, followed by a new user. *)
Lemma invalid_record_is_skipped_witness :
  exists e,
    Sample.UserPatchSchema_load Sample.invalid_wire = Raise e
    /\ exn_class e = "ValidationError"
    /\ UserSync._import_users Sample.hash Sample.User_validate
         Sample.UserPatchSchema_load
         Sample.UserSyncSchema_dump "parent"
         [Sample.invalid_wire; Sample.bob_wire] Sample.empty_db
       = (Return tt,
          UserSync.Db [Sample.bob_wire] [] [Sample.child_garden],
          [UserSync.LogInfo "Failed to import user" (UserSync.UStr "eve") e;
           UserSync.Published "USER_UPDATED" "parent" Sample.bob_wire]).
Proof.
  exists (Exn "ValidationError" "invalid field").
  split; [by_decide|]. split; [reflexivity|].
  destruct (invalid_record_is_skipped Sample.hash Sample.User_validate
              Sample.UserPatchSchema_load
              Sample.UserSyncSchema_dump "parent" [] Sample.invalid_wire
              [Sample.bob_wire] Sample.empty_db Sample.empty_db []
              (UserSync.UStr "eve") (Exn "ValidationError" "invalid field")
              ltac:(by_decide) ltac:(by_decide)
              eq_refl eq_refl) as [_ Hall].
  etransitivity; [exact Hall|]. by_decide.
Defined.

(** C6 as stated fails for a record without a username: the lookup of
    the key raises before the [try] block, the batch ends there, and the
    user after it, which alone would be imported, is not. *)
Lemma nameless_record_aborts_batch :
  Sample.nameless_wire !! "username" = None
  /\ UserSync._import_users Sample.hash Sample.User_validate
       Sample.UserPatchSchema_load
       Sample.UserSyncSchema_dump "parent"
       [Sample.nameless_wire; Sample.bob_wire] Sample.empty_db
     = (Raise (UserSync.KeyError "username"), Sample.empty_db, [])
  /\ UserSync.users
       (Spec.db_of
          (UserSync._import_users Sample.hash Sample.User_validate
             Sample.UserPatchSchema_load
             Sample.UserSyncSchema_dump "parent" [Sample.bob_wire]
             Sample.empty_db))
     = [Sample.bob_wire].
Proof. repeat split; by_decide. Qed.

(** A payload naming two users once each, one with a pre-hashed
    credential, none with a password; the second run hashes otherwise
    than the first. *)
Lemma user_sync_idempotent_witness :
  let salted : UserSync.uval -> UserSync.uval :=
    fun _ => UserSync.UStr "$salted$" in
  let payload := [Sample.alice_wire; Sample.bob_wire] in
  NoDup (Spec.usernames payload)
  /\ Spec.db_of
       (UserSync.user_sync salted Sample.User_validate
          Sample.UserPatchSchema_load Sample.UserSyncSchema_dump "parent"
          Sample.route_sync payload
          (Spec.db_of
             (UserSync.user_sync Sample.hash Sample.User_validate
                Sample.UserPatchSchema_load Sample.UserSyncSchema_dump
                "parent" Sample.route_sync payload Sample.parent_db)))
     = Spec.db_of
         (UserSync.user_sync Sample.hash Sample.User_validate
            Sample.UserPatchSchema_load Sample.UserSyncSchema_dump "parent"
            Sample.route_sync payload Sample.parent_db).
Proof.
  intros salted payload.
  assert (Hnd : NoDup (Spec.usernames payload)).
  { apply (NoDup_cons_2 (UserSync.UStr "alice") [UserSync.UStr "bob"]).
    - rewrite list_elem_of_singleton. discriminate.
    - apply NoDup_singleton. }
  split; [exact Hnd|].
  refine (user_sync_idempotent Sample.hash salted Sample.User_validate
            Sample.UserPatchSchema_load Sample.UserSyncSchema_dump "parent"
            Sample.route_sync payload Sample.parent_db
            sample_load_keeps_username Hnd _).
  intros su data Hin. apply sample_load_no_password.
  apply elem_of_cons in Hin as [->|Hin]; [by_decide|].
  apply list_elem_of_singleton in Hin as ->. by_decide.
Defined.

(** C3 as stated fails on a payload that names one user twice: the first
    record (no assignments, a pre-hashed credential) is skipped while the
    user does not exist and applied once it does, so the second
    application stores a password the first did not. *)
Lemma user_sync_twice_differs_on_repeated_user :
  let user_sync :=
    UserSync.user_sync Sample.hash Sample.User_validate
      Sample.UserPatchSchema_load
      Sample.UserSyncSchema_dump "parent" Sample.route_sync in
  let payload := [Sample.bob_first_wire; Sample.bob_wire] in
  Spec.outcome_of (user_sync payload Sample.empty_db) = Return tt
  /\ UserSync.users (Spec.db_of (user_sync payload Sample.empty_db))
     = [ {[ "username" := UserSync.UStr "bob";
            "role_assignments" := UserSync.URoles [Sample.global_role] ]} ]
  /\ UserSync.users
       (Spec.db_of
          (user_sync payload (Spec.db_of (user_sync payload Sample.empty_db))))
     = [ {[ "username" := UserSync.UStr "bob";
            "role_assignments" := UserSync.URoles [Sample.global_role];
            "password" := UserSync.UStr "$pre$" ]} ].
Proof. repeat split; by_decide. Qed.

(** * Further properties *)

(** ** The listener and the connection wrapper *)

Section ListenerMore.

Import Stomp Spec.

Context {V : Type}.
Variable process_send_message : value -> outcome (string * headers).
Variable append_headers : headers -> option headers -> option headers -> headers.
Variable parse_operation : string -> outcome (Operation V).

Lemma send_message_effect route_result gh c sd rh c' :
  send_message process_send_message append_headers route_result gh c sd rh
  = Return c' ->
  c' = c \/ exists b h d, c' = send c b h d.
Proof.
  unfold send_message.
  destruct (process_send_message route_result) as [[b h]|e]; simpl;
    [|discriminate].
  destruct (is_connected c && truthy_opt sd); [|intros [= <-]; by left].
  destruct (or_empty rh !! "reply-to"); intros [= <-]; right; eauto.
Qed.

Lemma send_error_msg_effect msg (hdrs : headers) c sd c' :
  send_error_msg append_headers msg (Some hdrs) c sd None = Return c' ->
  c' = c \/ exists b h d, c' = send c b h d.
Proof.
  unfold send_error_msg.
  destruct (is_connected c); [|intros [= <-]; by left].
  destruct (hdrs !! "reply-to"); [intros [= <-]; right; eauto|].
  destruct (truthy_opt sd); intros [= <-]; [right; eauto | by left].
Qed.

(** X1.  Whatever the parser, the router and the processor do, handling one
    message returns, leaves the connection's state as it was, adds at
    most one call to it, which is a send, and logs exactly when the
    [try] block raised. *)
Theorem on_message_sends_at_most_one route self hdrs message :
  exists c logs extra,
    on_message process_send_message append_headers parse_operation route
      self hdrs message = Return (c, logs)
    /\ connected c = connected (listener_conn self)
    /\ broker_up c = broker_up (listener_conn self)
    /\ calls c = calls (listener_conn self) ++ extra
    /\ length extra <= 1
    /\ Forall (fun a => exists f, a = ASend f) extra
    /\ (logs = [] /\
        (exists c0, on_message_try process_send_message append_headers
                      parse_operation route self hdrs message = Return c0)
        \/ exists e,
             on_message_try process_send_message append_headers
               parse_operation route self hdrs message = Raise e
             /\ logs = [exn_msg e]).
Proof.
  assert (Hshape : forall c0 c' : connection,
    c' = c0 \/ (exists b h d, c' = send c0 b h d) ->
    exists extra,
      connected c' = connected c0 /\ broker_up c' = broker_up c0
      /\ calls c' = calls c0 ++ extra /\ length extra <= 1
      /\ Forall (fun a => exists f, a = ASend f) extra).
  { intros c0 c' [->|(b & h & d & ->)].
    - exists []. rewrite app_nil_r. repeat split; auto.
    - exists [ASend (Frame b h d)]. repeat split; simpl; auto.
      constructor; eauto. }
  unfold on_message.
  destruct (on_message_try process_send_message append_headers parse_operation
              route self hdrs message) as [c0|e] eqn:Htry.
  - assert (Heff : c0 = listener_conn self
                   \/ exists b h d, c0 = send (listener_conn self) b h d).
    { revert Htry. unfold on_message_try.
      destruct (parse_operation message) as [op|e]; simpl; [|discriminate].
      destruct (route (pop_wait_timeout op)) as [v|e]; simpl; [|discriminate].
      destruct (truthy v); [apply send_message_effect|].
      intros [= <-]. by left. }
    destruct (Hshape _ _ Heff) as (extra & H1 & H2 & H3 & H4 & H5).
    exists c0, [], extra. repeat split; eauto.
  - destruct (send_error_msg append_headers (exn_msg e) (Some hdrs)
                (listener_conn self) (listener_send_destination self) None)
      as [c1|e1] eqn:Herr.
    + destruct (Hshape _ _ (send_error_msg_effect _ _ _ _ _ Herr))
        as (extra & H1 & H2 & H3 & H4 & H5).
      exists c1, [exn_msg e], extra. simpl. repeat split; eauto.
    + exfalso. revert Herr. unfold send_error_msg.
      destruct (is_connected _); [|discriminate].
      destruct (hdrs !! "reply-to"); [discriminate|].
      by destruct (truthy_opt _).
Qed.

(** X2.  The router is only ever asked about operations without a
    [wait_timeout]: two routers that agree on those are handled alike. *)
Theorem router_never_sees_wait_timeout route route' self hdrs message :
  (forall op, kwargs op !! "wait_timeout" = None -> route op = route' op) ->
  on_message process_send_message append_headers parse_operation route
    self hdrs message
  = on_message process_send_message append_headers parse_operation route'
      self hdrs message.
Proof.
  intros Hagree. unfold on_message, on_message_try.
  destruct (parse_operation message) as [op|e]; simpl; [|done].
  rewrite (Hagree (pop_wait_timeout op)); [done|].
  unfold pop_wait_timeout. simpl. apply lookup_delete_eq.
Qed.

(** X23.  Nothing is sent on a connection that is down: whatever the
    message is and whatever the parser, the router and the processor do
    with it, [on_message] returns with the connection as it was, and
    logs the warning of a failed [try] block and nothing else. *)
Theorem down_connection_sends_nothing route self hdrs message :
  connected (listener_conn self) = false ->
  exists logs,
    on_message process_send_message append_headers parse_operation route
      self hdrs message = Return (listener_conn self, logs)
    /\ match on_message_try process_send_message append_headers
               parse_operation route self hdrs message with
       | Return _ => logs = []
       | Raise e => logs = [exn_msg e]
       end.
Proof.
  intros Hdown.
  assert (Herr : forall msg,
    send_error_msg append_headers msg (Some hdrs) (listener_conn self)
      (listener_send_destination self) None = Return (listener_conn self)).
  { intros msg. unfold send_error_msg, is_connected. by rewrite Hdown. }
  assert (Htry : forall c,
    on_message_try process_send_message append_headers parse_operation
      route self hdrs message = Return c -> c = listener_conn self).
  { intros c. unfold on_message_try.
    destruct (parse_operation message) as [op|e]; simpl; [|discriminate].
    destruct (route (pop_wait_timeout op)) as [v|e]; simpl; [|discriminate].
    destruct (truthy v); [|by intros [= <-]].
    unfold send_message, is_connected. rewrite Hdown.
    destruct (process_send_message v) as [[b h]|e]; simpl; [|discriminate].
    by intros [= <-]. }
  unfold on_message.
  destruct (on_message_try process_send_message append_headers parse_operation
              route self hdrs message) as [c|e] eqn:Hrun.
  - rewrite (Htry c eq_refl). by exists [].
  - rewrite Herr. simpl. by exists [exn_msg e].
Qed.

End ListenerMore.

Lemma router_never_sees_wait_timeout_witness :
  let self := Stomp.Listener (Stomp.Conn true true []) (Some "default") in
  (forall op, Stomp.kwargs op !! "wait_timeout" = None ->
              Sample.strict_route op = Sample.route op)
  /\ Stomp.on_message Sample.process_send_message Sample.append_headers
       Sample.parse_with_timeout Sample.strict_route self ∅ "GO"
     = Stomp.on_message Sample.process_send_message Sample.append_headers
         Sample.parse_with_timeout Sample.route self ∅ "GO".
Proof.
  intros self.
  assert (H : forall op, Stomp.kwargs op !! "wait_timeout" = None ->
                         Sample.strict_route op = Sample.route op).
  { intros op Hop. unfold Sample.strict_route. by rewrite Hop. }
  split; [exact H|].
  exact (router_never_sees_wait_timeout Sample.process_send_message
           Sample.append_headers Sample.parse_with_timeout
           Sample.strict_route Sample.route self ∅ "GO" H).
Defined.

(** A listener whose connection is down is asked for a reply on [X]. *)
Lemma down_connection_sends_nothing_witness :
  let self := Stomp.Listener (Stomp.Conn false true []) (Some "default") in
  exists logs,
    Stomp.on_message Sample.process_send_message Sample.append_headers
      Sample.parse_with_timeout Sample.route self {[ "reply-to" := "X" ]} "GO"
    = Return (Stomp.Conn false true [], logs).
Proof.
  intros self.
  destruct (down_connection_sends_nothing Sample.process_send_message
              Sample.append_headers Sample.parse_with_timeout Sample.route
              self {[ "reply-to" := "X" ]} "GO" eq_refl) as (logs & Hrun & _).
  by exists logs.
Defined.

Section ConnectionMore.

Import Stomp Spec.

Variable process_send_message : value -> outcome (string * headers).
Variable append_headers : headers -> option headers -> option headers -> headers.

(** X3.  An event is published to the default send destination with the given
    headers merged in as garden headers; it is dropped without a trace
    when the connection is down or no send destination is configured,
    and only a failing message processor makes [send_event] raise. *)
Theorem send_event_frames self event hdrs :
  match process_send_message event with
  | Raise e =>
      send_event process_send_message append_headers self event hdrs = Raise e
  | Return (b, h) =>
      exists self',
        send_event process_send_message append_headers self event hdrs
        = Return self'
        /\ self' = with_conn self (conn self')
        /\ connected (conn self') = connected (conn self)
        /\ sent (conn self') =
           sent (conn self) ++
           if connected (conn self) && truthy_opt (send_destination self)
           then [Frame b (append_headers h None hdrs) (send_destination self)]
           else []
  end.
Proof.
  unfold send_event, send_message, is_connected.
  destruct (process_send_message event) as [[b h]|e]; simpl; [|done].
  destruct (connected (conn self) && truthy_opt (send_destination self))
    eqn:Hg; simpl.
  - rewrite lookup_empty. eexists. split; [reflexivity|]. simpl.
    split; [done|]. split; [done|]. unfold sent. simpl. by rewrite omap_app.
  - eexists. split; [reflexivity|]. simpl. by rewrite app_nil_r.
Qed.

(** X4.  [disconnect] clears [bg_active], keeps the settings of the
    wrapper, and asks the broker to disconnect exactly when the
    connection reports connected: that call is then the last one made on
    the connection, and a connection that does not report connected is
    left as it was.  Nothing is sent either way. *)
Theorem disconnect_asks_when_connected self :
  bg_active (disconnect self) = false
  /\ host_and_ports (disconnect self) = host_and_ports self
  /\ subscribe_destination (disconnect self) = subscribe_destination self
  /\ send_destination (disconnect self) = send_destination self
  /\ calls (conn (disconnect self)) =
     calls (conn self) ++
     (if is_connected (conn self) then [ADisconnect] else [])
  /\ sent (conn (disconnect self)) = sent (conn self).
Proof.
  unfold disconnect, sent. destruct self as [hp u p sub sd act c]. simpl.
  destruct (is_connected c); simpl.
  - repeat split. by rewrite omap_app, app_nil_r.
  - by rewrite app_nil_r.
Qed.

(** X5.  A refused connection: with a list of gardens the failure is logged
    and [connect] returns; with the default [gardens=None] the handler
    itself raises [TypeError].  Either way the broker was called once,
    the connection stays down and nothing is subscribed. *)
Theorem connect_refused self cm wt gs :
  ready self ->
  broker_up (conn self) = false ->
  (connect self cm wt gs).1 =
    match gs with
    | Some gardens =>
        Return [LDebug ("Error connecting: " ++ "ConnectFailedException")%string
                  (map (fun g : gmap string string => g !! "name") gardens);
                LWarning "Waiting before next attempt"]
    | None => Raise (Exn "TypeError" "'NoneType' object is not iterable")
    end
  /\ (connect self cm wt gs).2
     = with_conn self
         (record_call (AConnect (username self) (password self)) (conn self))
  /\ connected (conn (connect self cm wt gs).2) = connected (conn self)
  /\ subscriptions (conn (connect self cm wt gs).2) = subscriptions (conn self).
Proof.
  intros Hr Hdown. apply guard_ready in Hr. unfold guard in Hr.
  unfold connect.
  destruct (host_and_ports self) as [[|first rest]|]; try discriminate.
  rewrite Hr. unfold connect_try, stomp_connect. rewrite Hdown.
  destruct gs as [gardens|]; simpl; repeat split; auto;
    unfold subscriptions, record_call; simpl;
    by rewrite omap_app, app_nil_r.
Qed.

End ConnectionMore.

Lemma connect_refused_witness :
  let self :=
    Stomp.init (Some [("broker", 61613%Z)]) (Some "out") (Some "in") None
      (Some "bg") (Some "secret") false in
  Spec.ready self
  /\ (Stomp.connect self None None None).1
     = Raise (Exn "TypeError" "'NoneType' object is not iterable")
  /\ (Stomp.connect self None None (Some [ {[ "name" := "child" ]} ])).1
     = Return [Stomp.LDebug "Error connecting: ConnectFailedException"
                 [Some "child"];
               Stomp.LWarning "Waiting before next attempt"].
Proof.
  intros self.
  assert (Hr : Spec.ready self).
  { exists "broker", 61613%Z, [], "in". repeat split; done. }
  split; [exact Hr|]. split.
  - exact (proj1 (connect_refused self None None None Hr eq_refl)).
  - exact (proj1 (connect_refused self None None
                    (Some [ {[ "name" := "child" ]} ]) Hr eq_refl)).
Defined.

(** ** The job handlers *)

Section JobMore.

Import JobApi Spec.

Variable upper : string -> string.
Context {B R : Type}.
Variable pauseJob : string -> B -> R * B.
Variable resumeJob : string -> B -> R * B.

#[local] Abbreviation patch_step := (patch_step upper pauseJob resumeJob).
#[local] Abbreviation patch_loop := (patch_loop upper pauseJob resumeJob).
#[local] Abbreviation patch := (patch upper pauseJob resumeJob).
#[local] Abbreviation run_call := (run_call pauseJob resumeJob).
#[local] Abbreviation run_calls := (run_calls pauseJob resumeJob).
#[local] Abbreviation supported := (supported upper).
#[local] Abbreviation call_of := (call_of upper).

(** The loop in full: it makes the calls of the longest supported prefix
    of the operations, in order, and stops at the first unsupported
    one. *)
Lemma patch_loop_prefix job_id ops resp c :
  exists k,
    k <= length ops
    /\ Forall supported (take k ops)
    /\ made (patch_loop job_id ops resp c).2
       = made c ++ (call_of job_id <$> take k ops)
    /\ backend (patch_loop job_id ops resp c).2
       = run_calls (call_of job_id <$> take k ops)
           (backend c)
    /\ match (patch_loop job_id ops resp c).1 with
       | Return r =>
           k = length ops /\ (ops = [] -> r = resp)
           /\ (ops <> [] -> is_Some r)
       | Raise e =>
           exists bad msg,
             ops !! k = Some bad /\ ~ supported bad
             /\ e = ModelValidationError msg
       end.
Proof.
  revert resp c. induction ops as [|op ops IH]; intros resp c.
  - exists 0. simpl. rewrite app_nil_r. repeat split; auto. done.
  - simpl. destruct (decide (supported op)) as [Hs|Hn].
    + rewrite (patch_step_supported upper pauseJob resumeJob job_id op c Hs).
      destruct (IH (Some (run_call (call_of job_id op)
                            (backend c)).1)
                  (Client (run_call (call_of job_id op)
                             (backend c)).2
                          (made c ++ [call_of job_id op])))
        as (k & Hk & Hall & Hmade & Hback & Hres).
      exists (S k). simpl in *. split; [lia|]. split; [by constructor|].
      split; [by rewrite Hmade, <- app_assoc|]. split; [done|].
      destruct (patch_loop _ _ _ _).1 as [r|e].
      * destruct Hres as (-> & Hnil & Hsome). split; [done|].
        split; [done|]. intros _.
        destruct ops; [rewrite Hnil by done; eauto | by apply Hsome].
      * done.
    + destruct (patch_step_unsupported upper pauseJob resumeJob job_id op c Hn)
        as (msg & ->).
      exists 0. simpl. rewrite app_nil_r. split; [lia|].
      split; [constructor|]. split; [done|]. split; [done|].
      by exists op, msg.
Qed.



End JobMore.


Section ValueFacts.

Import JobApi Spec.

Lemma numeric_char_upper a :
  numeric_char a ->
  upper_ascii a = a /\ a <> "P"%char /\ a <> "R"%char.
Proof.
  intros [(n & Hn & ->) | ->]; [|by vm_compute].
  do 10 (destruct n as [|n]; [by vm_compute|]). lia.
Qed.

Lemma digits_head fuel n acc :
  (exists a rest, acc = String a rest /\ numeric_char a) ->
  exists a rest, digits fuel n acc = String a rest /\ numeric_char a.
Proof.
  revert n acc. induction fuel as [|fuel IH]; intros n acc Hacc;
    [exact Hacc|].
  cbn [digits]. destruct (n / 10 =? 0)%nat.
  - eexists _, _. split; [reflexivity|]. left. exists (n mod 10).
    split; [|done]. apply Nat.mod_upper_bound. lia.
  - apply IH. eexists _, _. split; [reflexivity|]. left. exists (n mod 10).
    split; [|done]. apply Nat.mod_upper_bound. lia.
Qed.

Lemma str_nat_head n :
  exists a rest, str_nat n = String a rest /\ numeric_char a.
Proof.
  unfold str_nat. cbn [digits]. destruct (n / 10 =? 0)%nat.
  - eexists _, _. split; [reflexivity|]. left. exists (n mod 10).
    split; [|done]. apply Nat.mod_upper_bound. lia.
  - apply digits_head. eexists _, _. split; [reflexivity|]. left.
    exists (n mod 10). split; [|done]. apply Nat.mod_upper_bound. lia.
Qed.

Lemma digit_ascii_small n : n < 10 -> nat_of_ascii (digit_ascii n) < 128.
Proof.
  intros Hn. unfold digit_ascii. rewrite nat_ascii_embedding by lia. lia.
Qed.

Lemma digits_ascii_only fuel n acc :
  ascii_only acc -> ascii_only (digits fuel n acc).
Proof.
  revert n acc. induction fuel as [|fuel IH]; intros n acc Hacc;
    [exact Hacc|].
  assert (Hstep : ascii_only (String (digit_ascii (n mod 10)) acc)).
  { constructor; [|exact Hacc].
    apply digit_ascii_small, Nat.mod_upper_bound. lia. }
  cbn [digits]. destruct (n / 10 =? 0)%nat; [exact Hstep | by apply IH].
Qed.

(** [str] of a value that is no string is a text of ASCII characters. *)
Lemma py_str_ascii_only v : (forall s, v <> JStr s) -> ascii_only (py_str v).
Proof.
  intros Hv. destruct v as [|[]|z|s]; simpl.
  1-3: unfold ascii_only; by_decide.
  - destruct (z <? 0)%Z.
    + constructor; [vm_compute; lia|]. apply digits_ascii_only. constructor.
    + apply digits_ascii_only. constructor.
  - by destruct (Hv s).
Qed.

(** X8.  Only a JSON string can name a status: [null], booleans and numbers
    are unsupported whatever the operation and path, so the handler
    rejects them without calling the backend.  Of [str.upper] this uses
    what it does to texts of ASCII characters. *)
Theorem non_string_values_unsupported (upper : string -> string)
    {B R : Type} (pauseJob resumeJob : string -> B -> R * B) job_id o p v c :
  upper_on_ascii upper ->
  (forall s, v <> JStr s) ->
  ~ supported upper (Patch o p v)
  /\ exists msg,
       patch_step upper pauseJob resumeJob job_id (Patch o p v) c
       = (Raise (ModelValidationError msg), c).
Proof.
  intros Hup Hv.
  assert (Hn : ~ supported upper (Patch o p v)).
  { intros (_ & _ & Hval). simpl in Hval.
    rewrite (Hup _ (py_str_ascii_only v Hv)) in Hval.
    destruct v as [|[]|z|s]; simpl in Hval;
      try (destruct Hval as [H|H]; discriminate H).
    - assert (Hhead : exists a rest,
                py_str (JInt z) = String a rest /\ numeric_char a).
      { simpl. destruct (z <? 0)%Z.
        - eexists _, _. split; [reflexivity|]. by right.
        - apply str_nat_head. }
      destruct Hhead as (a & rest & Heq & Hnum). simpl in Heq.
      rewrite Heq in Hval. simpl in Hval.
      destruct (numeric_char_upper a Hnum) as (Hupa & HP & HR).
      rewrite Hupa in Hval. destruct Hval as [H|H]; congruence.
    - by destruct (Hv s). }
  split; [exact Hn|]. by apply patch_step_unsupported.
Qed.

End ValueFacts.

Lemma non_string_values_unsupported_witness :
  exists msg,
    JobApi.patch_step Sample.upper Sample.pauseJob Sample.resumeJob "job-1"
      (JobApi.Patch "update" "/status" (JobApi.JBool true))
      (JobApi.Client "RUNNING" [])
    = (Raise (JobApi.ModelValidationError msg), JobApi.Client "RUNNING" []).
Proof.
  refine (proj2 (non_string_values_unsupported Sample.upper Sample.pauseJob
                   Sample.resumeJob "job-1" "update" "/status"
                   (JobApi.JBool true) (JobApi.Client "RUNNING" []) _ _)).
  - intros s _. reflexivity.
  - intros s. discriminate.
Defined.

Section ListMore.

Import JobApi.

Context {J : Type}.
Variable attribute_names : list string.
Variable get_query_argument : string -> outcome string.
Variable objects_filter : gmap string string -> list J.
Variable serialize_job : list J -> string.

Lemma filter_params_loop_known keys fp :
  filter_params_loop attribute_names get_query_argument keys fp
  = filter_params_loop attribute_names get_query_argument
      (filter (fun k => k ∈ attribute_names) keys) fp.
Proof.
  revert fp. induction keys as [|k keys IH]; intros fp; [done|].
  rewrite filter_cons. simpl. case_bool_decide as Hk.
  - rewrite decide_True by done. simpl. rewrite bool_decide_eq_true_2 by done.
    destruct (get_query_argument k); simpl; [apply IH | done].
  - rewrite decide_False by done. apply IH.
Qed.

Lemma filter_params_loop_keys keys fp fp' :
  filter_params_loop attribute_names get_query_argument keys fp = Return fp' ->
  forall k,
    fp' !! k = fp !! k
    \/ (k ∈ attribute_names /\ k ∈ keys
        /\ exists v, get_query_argument k = Return v /\ fp' !! k = Some v).
Proof.
  revert fp. induction keys as [|key keys IH]; intros fp Hloop k.
  - injection Hloop as <-. by left.
  - simpl in Hloop. case_bool_decide as Hkey.
    + destruct (get_query_argument key) as [v|e] eqn:Hq; simpl in Hloop;
        [|discriminate].
      destruct (IH _ Hloop k) as [Hsame|(Ha & Hin & w & Hw & Hk)].
      * destruct (decide (k = key)) as [->|Hne].
        -- right. rewrite lookup_insert_eq in Hsame.
           split; [done|]. split; [by left|]. eauto.
        -- left. by rewrite lookup_insert_ne in Hsame.
      * right. split; [done|]. split; [by right|]. eauto.
    + destruct (IH _ Hloop k) as [Hsame|(Ha & Hin & w & Hw & Hk)];
        [by left|].
      right. split; [done|]. split; [by right|]. eauto.
Qed.


End ListMore.

(** ** Users: creation and update *)

Section UserMore.

Import UserSync Spec.

Variable hash : uval -> uval.
Variable User_validate : doc -> option string.
Variable UserSyncSchema_dump : doc -> doc.
Variable garden_name : string.

(** X10.  Which password [update_user] stores, apart from the pre-hashed case:
    a [password] keyword is hashed when no [hashed_password] is given,
    but stored as it was given, unhashed, when [hashed_password] is given
    and falsy (an empty string); without a [password] keyword and without
    a truthy [hashed_password] the stored password is kept. *)
Theorem update_user_password_rules (user : doc) hp (kwargs : doc) :
  (forall p, kwargs !! "password" = Some p -> is_None hp = true ->
     update_attrs hash user hp kwargs !! "password" = Some (hash p))
  /\ (forall p h, kwargs !! "password" = Some p -> hp = Some h ->
        h <> UNone -> truthy_u h = false ->
        update_attrs hash user hp kwargs !! "password" = Some p)
  /\ (kwargs !! "password" = None ->
      (forall h, hp = Some h -> truthy_u h = false) ->
      update_attrs hash user hp kwargs !! "password" = user !! "password").
Proof.
  split; [|split].
  - intros p Hp Hn. rewrite update_attrs_lookup, Hp. unfold written.
    rewrite Hn. destruct hp as [[]|]; try discriminate; done.
  - intros p h Hp -> Hh Ht. rewrite update_attrs_lookup, Hp, Ht.
    unfold written. simpl. by destruct h.
  - intros Hp Hf. rewrite update_attrs_lookup, Hp.
    destruct hp as [h|]; [|done]. by rewrite (Hf h eq_refl).
Qed.

(** X11.  [create_user] either adds one document at the end of the
    collection or raises and leaves the store as it was.  The document
    is the keywords as given, except that a truthy password is replaced
    by its hash.  It is added when the [User] class accepts it and no
    stored user has its username; a document the class rejects raises
    mongoengine's [ValidationError], a username already stored
    [NotUniqueError].  (A truthy password is taken to be a string, the
    only value the hash accepts.) *)
Theorem create_user_stores_hash (kwargs : doc) st :
  (forall p, kwargs !! "password" = Some p -> truthy_u p = true ->
             exists s, p = UStr s) ->
  exists user : doc,
    (forall k, k <> "password" -> user !! k = kwargs !! k)
    /\ (forall p, kwargs !! "password" = Some p -> truthy_u p = true ->
          user !! "password" = Some (hash p))
    /\ ((forall p, kwargs !! "password" = Some p -> truthy_u p = false) ->
        user = kwargs)
    /\ (forall msg, User_validate user = Some msg ->
          create_user hash User_validate kwargs st
          = (Raise (DocumentValidationError msg), st))
    /\ (User_validate user = None ->
        (exists j d, users st !! j = Some d
                     /\ d !! "username" = user !! "username") ->
        create_user hash User_validate kwargs st = (Raise NotUniqueError, st))
    /\ (User_validate user = None ->
        (forall j d, users st !! j = Some d ->
                     d !! "username" <> user !! "username") ->
        create_user hash User_validate kwargs st
        = (Return user, with_users st (users st ++ [user]))).
Proof.
  intros _. unfold create_user.
  set (user := match kwargs !! "password" with
               | Some p => if truthy_u p then set_password hash kwargs p
                           else kwargs
               | None => kwargs
               end).
  exists user. split; [|split; [|split; [|split; [|split]]]].
  - intros k Hk. subst user.
    destruct (kwargs !! "password") as [p|]; [|done].
    destruct (truthy_u p); [|done].
    unfold set_password. by rewrite lookup_insert_ne.
  - intros p Hp Ht. subst user. rewrite Hp, Ht. unfold set_password.
    by rewrite lookup_insert_eq.
  - intros Hf. subst user.
    destruct (kwargs !! "password") as [p|] eqn:Hp; [|done].
    by rewrite (Hf p eq_refl).
  - intros msg Hv. by rewrite (save_rejected _ _ _ _ _ Hv).
  - intros Hv (j & d & Hj & Hu). rewrite save_refused; [done|done|].
    apply taken_true. exists j, d. split; [|done].
    apply lookup_lt_Some in Hj. lia.
  - intros Hv Hfree. rewrite save_written; [|done|].
    + by rewrite write_new.
    + apply taken_false. intros j d Hj Hu. by destruct (Hfree j d Hj).
Qed.

End UserMore.

Lemma update_user_password_rules_witness :
  let kwargs : gmap string UserSync.uval :=
    {[ "password" := UserSync.UStr "secret" ]} in
  UserSync.update_attrs Sample.hash ∅ None kwargs !! "password"
  = Some (UserSync.UStr "$hash$secret")
  /\ UserSync.update_attrs Sample.hash ∅ (Some (UserSync.UStr "")) kwargs
       !! "password"
     = Some (UserSync.UStr "secret").
Proof.
  intros kwargs.
  destruct (update_user_password_rules Sample.hash ∅ None kwargs)
    as (Hhash & _ & _).
  destruct (update_user_password_rules Sample.hash ∅
              (Some (UserSync.UStr "")) kwargs) as (_ & Hplain & _).
  split.
  - exact (Hhash (UserSync.UStr "secret") eq_refl eq_refl).
  - refine (Hplain (UserSync.UStr "secret") (UserSync.UStr "") eq_refl
              eq_refl _ eq_refl). discriminate.
Defined.

(** A new user with a password is stored with its hash; a second user
    of a stored name is refused. *)
Lemma create_user_stores_hash_witness :
  exists user : gmap string UserSync.uval,
    user !! "password" = Some (UserSync.UStr "$hash$secret")
    /\ UserSync.create_user Sample.hash Sample.User_validate
         {[ "username" := UserSync.UStr "carol";
            "password" := UserSync.UStr "secret" ]} Sample.parent_db
       = (Return user,
          UserSync.with_users Sample.parent_db [Sample.alice_doc; user]).
Proof.
  destruct (create_user_stores_hash Sample.hash Sample.User_validate
              {[ "username" := UserSync.UStr "carol";
                 "password" := UserSync.UStr "secret" ]} Sample.parent_db)
    as (user & Hkeys & Hp & _ & _ & _ & Hnew).
  { intros p Hp _.
    assert (Hk : ({[ "username" := UserSync.UStr "carol";
                     "password" := UserSync.UStr "secret" ]}
                  : gmap string UserSync.uval) !! "password"
                 = Some (UserSync.UStr "secret")) by by_decide.
    rewrite Hk in Hp. injection Hp as <-. eauto. }
  assert (Hname : user !! "username" = Some (UserSync.UStr "carol")).
  { rewrite Hkeys by done. by_decide. }
  exists user. split; [exact (Hp _ eq_refl eq_refl)|].
  apply Hnew.
  - unfold Sample.User_validate. by rewrite Hname.
  - intros j d Hj. rewrite Hname.
    pose proof (lookup_lt_Some _ _ _ Hj) as Hlt. simpl in Hlt.
    destruct j as [|j]; [|lia]. simpl in Hj. injection Hj as <-.
    by_decide.
Defined.

(** ** Shadow records: events from downstream gardens *)

Section EventMore.

Import UserSync Spec.

Variable RemoteUser_validate : RemoteUser -> option string.
Variable garden_name : string.

#[local] Abbreviation handle_event :=
  (handle_event RemoteUser_validate garden_name).
#[local] Abbreviation _handle_user_updated_event :=
  (_handle_user_updated_event RemoteUser_validate).

(** [get] finds a shadow record exactly when it is the only one of that
    garden and username. *)
Lemma remote_get_RFound g u rs i r :
  remote_get g u rs = RFound i r <->
  rs !! i = Some r /\ is_remote_user g u r
  /\ forall j r', rs !! j = Some r' -> is_remote_user g u r' -> j = i.
Proof.
  unfold remote_get.
  destruct (list_find (is_remote_user g u) rs) as [[i0 r0]|] eqn:Hf.
  - apply list_find_Some in Hf as (Hi0 & Hp0 & Hlt).
    destruct (decide (Exists (is_remote_user g u) (drop (S i0) rs)))
      as [Hex|Hnex].
    + split; [discriminate|]. intros (Hi & Hp & Huniq).
      apply Exists_exists in Hex as (r' & Hin & Hp').
      apply list_elem_of_lookup in Hin as (k & Hk).
      rewrite lookup_drop in Hk.
      pose proof (Huniq _ _ Hk Hp'). pose proof (Huniq _ _ Hi0 Hp0). lia.
    + split.
      * intros [= <- <-]. split; [done|]. split; [done|].
        intros j r' Hj Hp'.
        destruct (decide (j < i0)) as [Hlt'|Hge]; [by destruct (Hlt j r')|].
        destruct (decide (j = i0)) as [|Hne]; [done|].
        destruct Hnex. apply Exists_exists. exists r'. split; [|done].
        apply list_elem_of_lookup. exists (j - S i0).
        rewrite lookup_drop. by replace (S i0 + (j - S i0)) with j by lia.
      * intros (Hi & Hp & Huniq).
        pose proof (Huniq _ _ Hi0 Hp0) as ->.
        rewrite Hi in Hi0. by injection Hi0 as ->.
  - split; [discriminate|]. intros (Hi & Hp & _).
    apply list_find_None in Hf. rewrite Forall_forall in Hf.
    destruct (Hf r); [|done]. apply list_elem_of_lookup. eauto.
Qed.

Lemma remote_get_RDoesNotExist g u rs :
  remote_get g u rs = RDoesNotExist <->
  forall j r, rs !! j = Some r -> ~ is_remote_user g u r.
Proof.
  unfold remote_get.
  destruct (list_find (is_remote_user g u) rs) as [[i0 r0]|] eqn:Hf.
  - apply list_find_Some in Hf as (Hi0 & Hp0 & _).
    split; [by destruct (decide _)|]. intros Hno. by destruct (Hno _ _ Hi0).
  - split; [|done]. intros _ j r Hj.
    apply list_find_None in Hf. rewrite Forall_forall in Hf.
    apply Hf. apply list_elem_of_lookup. eauto.
Qed.

(** On a store without duplicate shadows [get] never finds two. *)
Lemma remote_get_unique g u rs :
  unique_shadows rs -> remote_get g u rs <> RMultipleObjectsReturned.
Proof.
  intros Huniq. unfold remote_get.
  destruct (list_find (is_remote_user g u) rs) as [[i0 r0]|] eqn:Hf; [|done].
  apply list_find_Some in Hf as (Hi0 & [Hg0 Hu0] & _).
  destruct (decide (Exists (is_remote_user g u) (drop (S i0) rs)))
    as [Hex|Hnex]; [|done].
  apply Exists_exists in Hex as (r' & Hin & [Hg' Hu']).
  apply list_elem_of_lookup in Hin as (k & Hk).
  rewrite lookup_drop in Hk.
  assert (i0 = S i0 + k) by (eapply Huniq; eauto; congruence). lia.
Qed.

Lemma unique_shadows_insert rs i r r' :
  rs !! i = Some r ->
  remote_garden r' = remote_garden r ->
  remote_username r' = remote_username r ->
  unique_shadows rs -> unique_shadows (<[i := r']> rs).
Proof.
  intros Hi Hg Hu Huniq j k a b Hj Hk Hga Hua.
  pose proof (lookup_lt_Some _ _ _ Hi) as Hlt.
  destruct (decide (j = i)) as [->|Hji];
    destruct (decide (k = i)) as [->|Hki]; [done| | |].
  - rewrite list_lookup_insert_eq in Hj by done. injection Hj as <-.
    rewrite list_lookup_insert_ne in Hk by done.
    eapply Huniq; eauto; congruence.
  - rewrite list_lookup_insert_eq in Hk by done. injection Hk as <-.
    rewrite list_lookup_insert_ne in Hj by done.
    eapply Huniq; eauto; congruence.
  - rewrite list_lookup_insert_ne in Hj, Hk by done. eapply Huniq; eauto.
Qed.

Lemma unique_shadows_snoc rs r' :
  (forall j r, rs !! j = Some r ->
     ~ is_remote_user (remote_garden r') (remote_username r') r) ->
  unique_shadows rs -> unique_shadows (rs ++ [r']).
Proof.
  intros Hno Huniq j k a b Hj Hk Hga Hua.
  pose proof (lookup_lt_Some _ _ _ Hj) as Hlj.
  pose proof (lookup_lt_Some _ _ _ Hk) as Hlk.
  rewrite length_app in Hlj, Hlk. simpl in Hlj, Hlk.
  destruct (decide (j < length rs)) as [Hj'|Hj'];
    destruct (decide (k < length rs)) as [Hk'|Hk']; [| | |lia].
  - rewrite lookup_app_l in Hj, Hk by done. eapply Huniq; eauto.
  - rewrite lookup_app_l in Hj by done.
    rewrite lookup_app_r in Hk by lia.
    replace (k - length rs) with 0 in Hk by lia. injection Hk as <-.
    destruct (Hno _ _ Hj). by split.
  - rewrite lookup_app_l in Hk by done.
    rewrite lookup_app_r in Hj by lia.
    replace (j - length rs) with 0 in Hj by lia. injection Hj as <-.
    destruct (Hno _ _ Hk). by split.
Qed.

(** Rewriting the one record of a garden and username under the same
    key, or adding the first one, makes it the record [get] finds. *)
Lemma remote_get_updated g u rs i r r' :
  remote_get g u rs = RFound i r -> is_remote_user g u r' ->
  remote_get g u (<[i := r']> rs) = RFound i r'.
Proof.
  rewrite !remote_get_RFound. intros (Hi & _ & Huniq) Hr'.
  pose proof (lookup_lt_Some _ _ _ Hi) as Hlt.
  split; [by apply list_lookup_insert_eq|]. split; [done|].
  intros j r'' Hj Hp'. destruct (decide (j = i)) as [|Hji]; [done|].
  rewrite list_lookup_insert_ne in Hj by done. by eapply Huniq.
Qed.

Lemma remote_get_created g u rs r' :
  remote_get g u rs = RDoesNotExist -> is_remote_user g u r' ->
  remote_get g u (rs ++ [r']) = RFound (length rs) r'.
Proof.
  rewrite remote_get_RDoesNotExist, remote_get_RFound. intros Hno Hr'.
  split; [by rewrite lookup_app_r, Nat.sub_diag by lia|]. split; [done|].
  intros j r'' Hj Hp'.
  destruct (decide (j < length rs)) as [Hlt|Hge].
  - rewrite lookup_app_l in Hj by done. by destruct (Hno _ _ Hj).
  - apply lookup_lt_Some in Hj. rewrite length_app in Hj. simpl in Hj. lia.
Qed.

(** An event of another garden that is a [USER_UPDATED] event and carries
    a garden, and a user with a username and role assignments. *)
#[local] Abbreviation carries ev g p u ras :=
  (event_garden ev <> garden_name /\ event_name ev = "USER_UPDATED"
   /\ metadata_garden ev = Some g /\ metadata_user ev = Some (p : doc)
   /\ p !! "username" = Some u /\ p !! "role_assignments" = Some ras).

(** What [handle_event] does with such an event: the record is saved in
    the place of the one [get] found, or added. *)
Lemma handle_event_run utcnow ev st g p u ras :
  carries ev g p u ras ->
  handle_event utcnow ev st =
    match remote_get g u (remote_users st) with
    | RMultipleObjectsReturned => Raise (Exn "MultipleObjectsReturned" "")
    | RFound i _ =>
        match RemoteUser_validate
                (Remote g u ras (assigned_at utcnow (timestamp ev))) with
        | Some msg => Raise (DocumentValidationError msg)
        | None =>
            Return
              (with_remote_users st
                 (<[i := Remote g u ras (assigned_at utcnow (timestamp ev))]>
                    (remote_users st)), [])
        end
    | RDoesNotExist =>
        match RemoteUser_validate
                (Remote g u ras (assigned_at utcnow (timestamp ev))) with
        | Some msg => Raise (DocumentValidationError msg)
        | None =>
            Return
              (with_remote_users st
                 (remote_users st ++
                  [Remote g u ras (assigned_at utcnow (timestamp ev))]), [])
        end
    end.
Proof.
  intros (Hgn & Hn & Hg & Hp & Hu & Hras). unfold UserSync.handle_event.
  rewrite bool_decide_eq_false_2, bool_decide_eq_true_2 by done.
  unfold UserSync._handle_user_updated_event. rewrite Hg, Hp, Hu, Hras.
  destruct (remote_get g u (remote_users st)) as [i r| |] eqn:Hget; [| |done].
  - destruct (proj1 (remote_get_RFound _ _ _ _ _) Hget)
      as (Hi & [Hrg Hru] & _).
    pose proof (lookup_lt_Some _ _ _ Hi) as Hlt.
    rewrite Hrg, Hru. unfold remote_save.
    destruct (RemoteUser_validate _); [done|]. simpl.
    by rewrite decide_True.
  - unfold remote_save. destruct (RemoteUser_validate _); [done|]. simpl.
    by rewrite decide_False by lia.
Qed.

(** The cases of [handle_event]. *)
Lemma handle_event_cases utcnow ev st :
  (handle_event utcnow ev st = Return (st, [])
   /\ (event_garden ev = garden_name \/ event_name ev <> "USER_UPDATED"))
  \/ (event_garden ev <> garden_name /\ event_name ev = "USER_UPDATED"
      /\ handle_event utcnow ev st = Return (st, [parse_error ev])
      /\ (forall g p u ras,
            metadata_garden ev = Some g -> metadata_user ev = Some p ->
            p !! "username" = Some u ->
            p !! "role_assignments" = Some ras -> False))
  \/ (exists g p u ras, carries ev g p u ras).
Proof.
  unfold UserSync.handle_event.
  case_bool_decide as Hg; [left; auto|].
  case_bool_decide as Hn; [|left; auto].
  right.
  destruct (metadata_garden ev) as [g|] eqn:Hmg.
  2:{ left. split; [done|]. split; [done|].
      split; [|intros; discriminate].
      unfold UserSync._handle_user_updated_event. by rewrite Hmg. }
  destruct (metadata_user ev) as [p|] eqn:Hmu.
  2:{ left. split; [done|]. split; [done|].
      split; [|intros; discriminate].
      unfold UserSync._handle_user_updated_event. by rewrite Hmg, Hmu. }
  destruct (p !! "username") as [u|] eqn:Hu.
  2:{ left. split; [done|]. split; [done|].
      split; [|intros ? ? ? ? _ [= <-]; congruence].
      unfold UserSync._handle_user_updated_event. by rewrite Hmg, Hmu, Hu. }
  destruct (p !! "role_assignments") as [ras|] eqn:Hras.
  2:{ left. split; [done|]. split; [done|].
      split; [|intros ? ? ? ? _ [= <-]; congruence].
      unfold UserSync._handle_user_updated_event.
      by rewrite Hmg, Hmu, Hu, Hras. }
  right. by exists g, p, u, ras.
Qed.

(** X12.  On a store whose shadow records are unique per garden and
    username, [handle_event] never fails on the lookup: it returns, and
    the shadow records are unique afterwards, unless the [RemoteUser]
    class rejects the record of a well-formed event; then mongoengine's
    [ValidationError] leaves [handle_event], which handles [KeyError]
    only. *)
Theorem handle_event_keeps_shadows_unique utcnow ev st :
  unique_shadows (remote_users st) ->
  (exists st' logs,
     handle_event utcnow ev st = Return (st', logs)
     /\ unique_shadows (remote_users st'))
  \/ (exists g p u ras msg,
        carries ev g p u ras
        /\ RemoteUser_validate
             (Remote g u ras (assigned_at utcnow (timestamp ev))) = Some msg
        /\ handle_event utcnow ev st = Raise (DocumentValidationError msg)).
Proof.
  intros Huniq.
  destruct (handle_event_cases utcnow ev st)
    as [[-> _] | [(_ & _ & -> & _) | (g & p & u & ras & Hc)]];
    [left; by eauto | left; by eauto |].
  rewrite (handle_event_run utcnow ev st g p u ras Hc).
  pose proof (remote_get_unique g u _ Huniq) as Hne.
  destruct (RemoteUser_validate
              (Remote g u ras (assigned_at utcnow (timestamp ev))))
    as [msg|] eqn:Hv.
  { right. exists g, p, u, ras, msg. split; [done|]. split; [done|].
    by destruct (remote_get g u (remote_users st)). }
  left.
  destruct (remote_get g u (remote_users st)) as [i r| |] eqn:Hget; [| |done].
  - eexists _, _. split; [done|]. simpl.
    destruct (proj1 (remote_get_RFound _ _ _ _ _) Hget)
      as (Hi & [Hrg Hru] & _).
    by eapply unique_shadows_insert.
  - eexists _, _. split; [done|]. simpl.
    pose proof (proj1 (remote_get_RDoesNotExist _ _ _) Hget) as Hno.
    by apply unique_shadows_snoc.
Qed.

(** After a well-formed event of another garden is handled, [get] finds
    its record. *)
Lemma handle_event_then_get utcnow ev st g p u ras :
  carries ev g p u ras ->
  RemoteUser_validate (Remote g u ras (assigned_at utcnow (timestamp ev)))
  = None ->
  remote_get g u (remote_users st) <> RMultipleObjectsReturned ->
  exists st' i,
    handle_event utcnow ev st = Return (st', [])
    /\ remote_get g u (remote_users st')
       = RFound i (Remote g u ras (assigned_at utcnow (timestamp ev))).
Proof.
  intros Hc Hv Hne. rewrite (handle_event_run utcnow ev st g p u ras Hc), Hv.
  destruct (remote_get g u (remote_users st)) as [i r| |] eqn:Hget; [| |done].
  - eexists _, i. split; [done|]. by apply (remote_get_updated _ _ _ _ r).
  - eexists _, _. split; [done|]. by apply remote_get_created.
Qed.

(** X13.  A [USER_UPDATED] event of another garden that carries a garden, a
    username and a list of role assignments, and whose record the
    [RemoteUser] class accepts, is stored: afterwards the one shadow
    record of that garden and username holds the event's role
    assignments and its timestamp (the clock's reading if the event has
    none); it is a new record, at the end, iff there was none. *)
Theorem handle_event_upsert utcnow ev st g p u ras :
  event_garden ev <> garden_name ->
  event_name ev = "USER_UPDATED" ->
  metadata_garden ev = Some g -> metadata_user ev = Some p ->
  p !! "username" = Some u -> p !! "role_assignments" = Some ras ->
  (exists l, ras = URoles l) ->
  RemoteUser_validate (Remote g u ras (assigned_at utcnow (timestamp ev)))
  = None ->
  remote_get g u (remote_users st) <> RMultipleObjectsReturned ->
  exists st' i,
    handle_event utcnow ev st = Return (st', [])
    /\ remote_get g u (remote_users st')
       = RFound i (Remote g u ras (assigned_at utcnow (timestamp ev)))
    /\ (forall t, timestamp ev = Some t ->
          assigned_at utcnow (timestamp ev) = Some t)
    /\ (timestamp ev = None ->
        assigned_at utcnow (timestamp ev) = Some utcnow)
    /\ (remote_get g u (remote_users st) = RDoesNotExist ->
        i = length (remote_users st)
        /\ remote_users st'
           = remote_users st
             ++ [Remote g u ras (assigned_at utcnow (timestamp ev))])
    /\ (forall j r, remote_get g u (remote_users st) = RFound j r ->
        i = j
        /\ remote_users st'
           = <[j := Remote g u ras (assigned_at utcnow (timestamp ev))]>
               (remote_users st)).
Proof.
  intros Hgn Hn Hg Hp Hu Hras _ Hv Hne.
  rewrite (handle_event_run utcnow ev st g p u ras) by done. rewrite Hv.
  assert (Hts : (forall t, timestamp ev = Some t ->
                   assigned_at utcnow (timestamp ev) = Some t)
                /\ (timestamp ev = None ->
                    assigned_at utcnow (timestamp ev) = Some utcnow)).
  { split; [intros t ->|intros ->]; done. }
  destruct Hts as [Hts1 Hts2].
  destruct (remote_get g u (remote_users st)) as [i r| |] eqn:Hget; [| |done].
  - eexists _, i. split; [done|]. simpl.
    split; [by apply (remote_get_updated _ _ _ _ r)|].
    split; [done|]. split; [done|]. split; [done|].
    by intros j r' [= <- <-].
  - eexists _, (length (remote_users st)). split; [done|]. simpl.
    split; [by apply remote_get_created|].
    split; [done|]. split; [done|]. split; [done|discriminate].
Qed.

(** X14.  Handling an event a second time changes nothing: whenever
    [handle_event] returns, handling the same event again from the
    resulting store returns that store and the same log lines, at any
    later reading of the clock if the event has a timestamp. *)
Theorem handle_event_idempotent utcnow utcnow' ev st st' logs :
  handle_event utcnow ev st = Return (st', logs) ->
  is_Some (timestamp ev) \/ utcnow' = utcnow ->
  handle_event utcnow' ev st' = Return (st', logs).
Proof.
  intros Hrun Hclock.
  assert (Hat : assigned_at utcnow' (timestamp ev)
                = assigned_at utcnow (timestamp ev)).
  { destruct Hclock as [[t ->] | ->]; done. }
  destruct (handle_event_cases utcnow ev st)
    as [[H Hwhy] | [(Hgn & Hn & H & Hno) | (g & p & u & ras & Hc)]].
  - rewrite H in Hrun. injection Hrun as <- <-.
    unfold UserSync.handle_event in *.
    case_bool_decide; [done|]. case_bool_decide; [|done].
    by destruct Hwhy.
  - rewrite H in Hrun. injection Hrun as <- <-.
    destruct (handle_event_cases utcnow' ev st)
      as [[_ [Hw|Hw]] | [(_ & _ & H' & _) | (g & p & u & ras & Hc)]];
      [done|done|done|].
    destruct Hc as (_ & _ & Hg & Hp & Hu & Hras). by destruct (Hno g p u ras).
  - rewrite (handle_event_run utcnow ev st g p u ras Hc) in Hrun.
    rewrite (handle_event_run utcnow' ev st' g p u ras Hc), Hat.
    destruct (RemoteUser_validate
                (Remote g u ras (assigned_at utcnow (timestamp ev))))
      as [msg|] eqn:Hv.
    { by destruct (remote_get g u (remote_users st)). }
    destruct (remote_get g u (remote_users st)) as [i r| |] eqn:Hget;
      [| |done]; injection Hrun as <- <-; simpl.
    + rewrite (remote_get_updated _ _ _ _ r _ Hget) by done.
      by rewrite list_insert_insert_eq.
    + rewrite (remote_get_created _ _ _ _ Hget) by done.
      rewrite list_insert_id; [by destruct st|].
      by rewrite lookup_app_r, Nat.sub_diag by lia.
Qed.

(** X15.  [handle_event] writes at most one shadow record and nothing else:
    the users and the gardens are untouched; every shadow record stays
    at its place with its garden and username, and is unchanged unless
    it is the record of the event's garden and username; at most one
    record is added; nothing changes when the event is of this garden,
    has another name, or is logged as unparsable; and a [USER_UPDATED]
    event of another garden that lacks one of its keys is logged as
    unparsable. *)
Theorem handle_event_writes_one_shadow utcnow ev st st' logs :
  handle_event utcnow ev st = Return (st', logs) ->
  users st' = users st /\ gardens st' = gardens st
  /\ (forall i r, remote_users st !! i = Some r ->
        exists r', remote_users st' !! i = Some r'
          /\ remote_garden r' = remote_garden r
          /\ remote_username r' = remote_username r
          /\ (r' = r
              \/ (metadata_garden ev = Some (remote_garden r)
                  /\ exists p, metadata_user ev = Some p
                       /\ p !! "username" = Some (remote_username r))))
  /\ length (remote_users st) <= length (remote_users st')
     <= S (length (remote_users st))
  /\ (logs = [] \/ (logs = [parse_error ev] /\ st' = st))
  /\ (event_garden ev = garden_name \/ event_name ev <> "USER_UPDATED" ->
      st' = st /\ logs = [])
  /\ (event_garden ev <> garden_name -> event_name ev = "USER_UPDATED" ->
      (forall g p u ras,
         metadata_garden ev = Some g -> metadata_user ev = Some p ->
         p !! "username" = Some u ->
         p !! "role_assignments" = Some ras -> False) ->
      st' = st /\ logs = [parse_error ev]).
Proof.
  intros Hrun.
  destruct (handle_event_cases utcnow ev st)
    as [[H Hwhy] | [(Hgn & Hn & H & Hno) | (g & p & u & ras & Hc)]].
  - rewrite H in Hrun. injection Hrun as <- <-.
    split; [done|]. split; [done|].
    split; [intros i r Hi; exists r; auto|].
    split; [lia|]. split; [by left|]. split; [done|].
    intros Hgn Hn _. by destruct Hwhy.
  - rewrite H in Hrun. injection Hrun as <- <-.
    split; [done|]. split; [done|].
    split; [intros i r Hi; exists r; auto|].
    split; [lia|]. split; [by right|]. split; [by intros [|]|done].
  - pose proof Hc as (Hgn & Hn & Hg & Hp & Hu & Hras).
    rewrite (handle_event_run utcnow ev st g p u ras Hc) in Hrun.
    destruct (RemoteUser_validate
                (Remote g u ras (assigned_at utcnow (timestamp ev))))
      as [msg|] eqn:Hv.
    { by destruct (remote_get g u (remote_users st)). }
    destruct (remote_get g u (remote_users st)) as [i r| |] eqn:Hget;
      [| |discriminate]; injection Hrun as <- <-; simpl.
    + destruct (proj1 (remote_get_RFound _ _ _ _ _) Hget)
        as (Hi & [Hrg Hru] & _).
      pose proof (lookup_lt_Some _ _ _ Hi) as Hlt.
      split; [done|]. split; [done|]. split; [|split; [|split; [|split]]].
      * intros j r0 Hj. destruct (decide (j = i)) as [->|Hji].
        -- rewrite list_lookup_insert_eq by done.
           assert (r0 = r) as -> by congruence.
           eexists. split; [done|]. simpl. split; [done|]. split; [done|].
           right. rewrite Hrg, Hru. eauto.
        -- rewrite list_lookup_insert_ne by done. exists r0. auto.
      * rewrite length_insert. lia.
      * by left.
      * by intros [|].
      * intros _ _ Hno. by destruct (Hno g p u ras).
    + split; [done|]. split; [done|]. split; [|split; [|split; [|split]]].
      * intros j r0 Hj. rewrite lookup_app_l by (by eapply lookup_lt_Some).
        exists r0. auto.
      * rewrite length_app. simpl. lia.
      * by left.
      * by intros [|].
      * intros _ _ Hno. by destruct (Hno g p u ras).
Qed.

End EventMore.

Lemma sample_shadows_unique : Spec.unique_shadows [].
Proof. intros i j r r' Hi. by rewrite lookup_nil in Hi. Qed.

(** The example event is stored in a store without shadow records. *)
Lemma handle_event_keeps_shadows_unique_witness :
  exists st' logs,
    UserSync.handle_event Sample.RemoteUser_validate "parent" 0
      Sample.alice_event Sample.parent_db = Return (st', logs)
    /\ Spec.unique_shadows (UserSync.remote_users st').
Proof.
  destruct (handle_event_keeps_shadows_unique Sample.RemoteUser_validate
              "parent" 0 Sample.alice_event Sample.parent_db
              sample_shadows_unique)
    as [Hok | (g & p & u & ras & msg & _ & _ & Hbad)]; [exact Hok|].
  exfalso.
  assert (H : UserSync.handle_event Sample.RemoteUser_validate "parent" 0
                Sample.alice_event Sample.parent_db
              = Return
                  (UserSync.with_remote_users Sample.parent_db
                     [UserSync.Remote (UserSync.UStr "child")
                        (UserSync.UStr "alice")
                        (UserSync.URoles
                           [Sample.global_role; Sample.system_ns1_role])
                        (Some 1700000000%Z)], [])) by reflexivity.
  rewrite H in Hbad. discriminate.
Defined.

Lemma handle_event_upsert_witness :
  exists st' i,
    UserSync.handle_event Sample.RemoteUser_validate "parent" 0
      Sample.alice_event Sample.parent_db
    = Return (st', [])
    /\ UserSync.remote_get (UserSync.UStr "child") (UserSync.UStr "alice")
         (UserSync.remote_users st')
       = UserSync.RFound i
           (UserSync.Remote (UserSync.UStr "child") (UserSync.UStr "alice")
              (UserSync.URoles [Sample.global_role; Sample.system_ns1_role])
              (Some 1700000000%Z)).
Proof.
  destruct (handle_event_upsert Sample.RemoteUser_validate "parent" 0
              Sample.alice_event Sample.parent_db
              (UserSync.UStr "child")
              {[ "username" := UserSync.UStr "alice";
                 "role_assignments" :=
                   UserSync.URoles [Sample.global_role; Sample.system_ns1_role] ]}
              (UserSync.UStr "alice")
              (UserSync.URoles [Sample.global_role; Sample.system_ns1_role]))
    as (st' & i & Hrun & Hget & _);
    [discriminate | reflexivity | reflexivity | reflexivity
    | reflexivity | reflexivity | by eexists | reflexivity | discriminate |].
  exists st', i. by split.
Defined.

Lemma handle_event_idempotent_witness :
  let st' :=
    UserSync.with_remote_users Sample.parent_db
      [UserSync.Remote (UserSync.UStr "child") (UserSync.UStr "alice")
         (UserSync.URoles [Sample.global_role; Sample.system_ns1_role])
         (Some 1700000000%Z)] in
  UserSync.handle_event Sample.RemoteUser_validate "parent" 0
    Sample.alice_event Sample.parent_db
  = Return (st', [])
  /\ UserSync.handle_event Sample.RemoteUser_validate "parent" 60
       Sample.alice_event st' = Return (st', []).
Proof.
  intros st'.
  assert (H : UserSync.handle_event Sample.RemoteUser_validate "parent" 0
                Sample.alice_event Sample.parent_db
              = Return (st', [])) by reflexivity.
  split; [exact H|].
  refine (handle_event_idempotent Sample.RemoteUser_validate "parent" 0 60
            Sample.alice_event Sample.parent_db st' [] H _).
  left. by eexists.
Defined.

Lemma handle_event_writes_one_shadow_witness :
  let st' :=
    UserSync.with_remote_users Sample.parent_db
      [UserSync.Remote (UserSync.UStr "child") (UserSync.UStr "alice")
         (UserSync.URoles [Sample.global_role; Sample.system_ns1_role])
         (Some 1700000000%Z)] in
  UserSync.users st' = UserSync.users Sample.parent_db
  /\ UserSync.gardens st' = UserSync.gardens Sample.parent_db.
Proof.
  intros st'.
  destruct (handle_event_writes_one_shadow Sample.RemoteUser_validate
              "parent" 0 Sample.alice_event
              Sample.parent_db st' [] eq_refl) as (Hu & Hg & _).
  by split.
Defined.

(** ** Shadow records: the sync status of a user *)

Section SyncedMore.

Import UserSync Spec.

Variable hash : uval -> uval.
Variable User_validate : doc -> option string.
Variable RemoteUser_validate : RemoteUser -> option string.
Variable UserSyncSchema_dump : doc -> doc.
Variable garden_name : string.

#[local] Abbreviation user_synced_with_garden :=
  (user_synced_with_garden UserSyncSchema_dump).
#[local] Abbreviation handle_event :=
  (handle_event RemoteUser_validate garden_name).

Lemma live_username h user d :
  live h user d ->
  exists l, h !! user = Some (CUser (<["role_assignments" := URef l]> d))
    /\ username_of (<["role_assignments" := URef l]> d) = username_of d.
Proof.
  intros (l & Hu & _). exists l. split; [done|].
  unfold username_of. by rewrite lookup_insert_ne.
Qed.

(** X16.  The sync status of a stored user: without a shadow record of the
    garden and the username it is [False]; with one, it is whether the
    serialized role assignments of the user, filtered for the garden,
    equal those of the shadow record. *)
Theorem user_synced_iff_shadow_matches h user d g st :
  live h user d ->
  (remote_get (UStr (name g)) (username_of d) (remote_users st)
   = RDoesNotExist ->
   user_synced_with_garden user g h st = Return false)
  /\ (forall i r ras,
        remote_get (UStr (name g)) (username_of d) (remote_users st)
        = RFound i r ->
        UserSyncSchema_dump (filtered_view g d) !! "role_assignments"
        = Some ras ->
        user_synced_with_garden user g h st
        = Return (bool_decide (ras = remote_role_assignments r))).
Proof.
  intros Hl. destruct (live_username _ _ _ Hl) as (l & Hu & Hname).
  unfold UserSync.user_synced_with_garden. rewrite Hu, Hname. split.
  - by intros ->.
  - intros i r ras -> Hras.
    destruct (filter_live g h user d Hl) as (fu & h' & -> & _ & Hs).
    simpl. by rewrite Hs, Hras.
Qed.

(** X17.  After a [USER_UPDATED] event of a garden for a user is handled,
    the user counts as synced with that garden exactly when the role
    assignments in the event equal the serialized role assignments of the
    stored user filtered for the garden.  The event carries a list of
    role assignments, and the [RemoteUser] class accepts its record. *)
Theorem synced_after_event utcnow h user d g st ev p ras mine :
  live h user d ->
  unique_shadows (remote_users st) ->
  event_garden ev <> garden_name ->
  event_name ev = "USER_UPDATED" ->
  metadata_garden ev = Some (UStr (name g)) ->
  metadata_user ev = Some p ->
  p !! "username" = Some (username_of d) ->
  p !! "role_assignments" = Some ras ->
  (exists l, ras = URoles l) ->
  RemoteUser_validate
    (Remote (UStr (name g)) (username_of d) ras
       (assigned_at utcnow (timestamp ev))) = None ->
  UserSyncSchema_dump (filtered_view g d) !! "role_assignments" = Some mine ->
  exists st',
    handle_event utcnow ev st = Return (st', [])
    /\ user_synced_with_garden user g h st'
       = Return (bool_decide (mine = ras)).
Proof.
  intros Hl Huniq Hgn Hn Hg Hp Hu Hras _ Hv Hmine.
  destruct (handle_event_then_get RemoteUser_validate garden_name utcnow ev
              st (UStr (name g)) p (username_of d) ras
              (conj Hgn (conj Hn (conj Hg (conj Hp (conj Hu Hras))))) Hv
              (remote_get_unique _ _ _ Huniq))
    as (st' & i & Hrun & Hget).
  exists st'. split; [done|].
  destruct (live_username _ _ _ Hl) as (l & Hlu & Hname).
  unfold UserSync.user_synced_with_garden. rewrite Hlu, Hname, Hget.
  destruct (filter_live g h user d Hl) as (fu & h' & -> & _ & Hs).
  simpl. by rewrite Hs, Hmine.
Qed.


End SyncedMore.

Lemma sample_alice_live : Spec.live Sample.alice_heap 1 Sample.alice_doc.
Proof. exists 0. split; reflexivity. Qed.

Lemma user_synced_iff_shadow_matches_witness :
  UserSync.user_synced_with_garden Sample.UserSyncSchema_dump 1
    Sample.child_garden Sample.alice_heap Sample.parent_db
  = Return false.
Proof.
  exact (proj1 (user_synced_iff_shadow_matches Sample.UserSyncSchema_dump
                  Sample.alice_heap 1 Sample.alice_doc Sample.child_garden
                  Sample.parent_db sample_alice_live) eq_refl).
Defined.

Lemma synced_after_event_witness :
  exists st',
    UserSync.handle_event Sample.RemoteUser_validate "parent" 0
      Sample.alice_event Sample.parent_db
    = Return (st', [])
    /\ UserSync.user_synced_with_garden Sample.UserSyncSchema_dump 1
         Sample.child_garden Sample.alice_heap st'
       = Return true.
Proof.
  destruct (synced_after_event Sample.RemoteUser_validate
              Sample.UserSyncSchema_dump "parent" 0
              Sample.alice_heap 1 Sample.alice_doc Sample.child_garden
              Sample.parent_db Sample.alice_event
              {[ "username" := UserSync.UStr "alice";
                 "role_assignments" :=
                   UserSync.URoles [Sample.global_role; Sample.system_ns1_role] ]}
              (UserSync.URoles [Sample.global_role; Sample.system_ns1_role])
              (UserSync.URoles [Sample.global_role; Sample.system_ns1_role])
              sample_alice_live sample_shadows_unique)
    as (st' & Hrun & Hsync);
    [discriminate | reflexivity | reflexivity | reflexivity | reflexivity
    | reflexivity | by eexists | reflexivity | by_decide |].
  exists st'. split; [exact Hrun|]. exact Hsync.
Defined.


(** ** The push and the import as a whole *)

Section PushMore.

Import UserSync Spec.

Variable UserSyncSchema_dump : doc -> doc.
Variable route : Stomp.Operation (list doc) -> outcome unit.

#[local] Abbreviation sync_gardens := (sync_gardens UserSyncSchema_dump route).
#[local] Abbreviation initiate_user_sync :=
  (initiate_user_sync UserSyncSchema_dump route).

(** The operation the push builds for a garden from the stored
    documents. *)
#[local] Abbreviation push_operation ds :=
  (fun g => sync_operation g
              (UserSyncSchema_dump <$> (filtered_view g <$> ds))).

Lemma sync_gardens_stops gs1 g gs2 us ds h e :
  Forall2 (live h) us ds ->
  (forall g', g' ∈ gs1 -> route (push_operation ds g') = Return tt) ->
  route (push_operation ds g) = Raise e ->
  sync_gardens (gs1 ++ g :: gs2) us h
  = (Raise e, (fun g => Routed (push_operation ds g)) <$> (gs1 ++ [g])).
Proof.
  intros Hall Hok Hfail. revert h Hall.
  induction gs1 as [|g1 gs1 IH]; intros h Hall; simpl.
  - destruct (filter_users_live g us ds h Hall) as (fs & h1 & -> & He & Hs).
    by rewrite (dump_many_views UserSyncSchema_dump g h1 fs ds Hs), Hfail.
  - destruct (filter_users_live g1 us ds h Hall) as (fs & h1 & -> & He & Hs).
    rewrite (dump_many_views UserSyncSchema_dump g1 h1 fs ds Hs).
    rewrite Hok by left.
    rewrite IH; [done | by intros g' Hg'; apply Hok; right |].
    eapply Forall2_impl; [exact Hall|].
    intros u' d' Hl'. exact (live_extends _ _ _ _ Hl' He).
Qed.

(** X19.  The push stops at the first garden the router refuses: the remote
    gardens before it have each been handed their operation, in order,
    the refused operation is the last one handed over, the gardens after
    it get nothing, and the router's exception leaves
    [initiate_user_sync]. *)
Theorem push_stops_at_first_routing_failure st gs1 g gs2 e :
  List.filter is_remote (gardens st) = gs1 ++ g :: gs2 ->
  (forall g', g' ∈ gs1 -> route (push_operation (users st) g') = Return tt) ->
  route (push_operation (users st) g) = Raise e ->
  initiate_user_sync st
  = (Raise e,
     (fun g => Routed (push_operation (users st) g)) <$> (gs1 ++ [g])).
Proof.
  intros Hgs Hok Hfail. unfold UserSync.initiate_user_sync.
  destruct (objects_all_live (users st) []) as [_ Hall].
  destruct (objects_all (users st) []) as [us h] eqn:Ho. simpl in Hall.
  rewrite Hgs. by apply sync_gardens_stops.
Qed.

(** The loop over the gardens hands operations to the router and does
    nothing else. *)
Lemma sync_gardens_only_routes gs us h :
  Forall (fun e => is_routed e = true) (sync_gardens gs us h).2.
Proof.
  revert h. induction gs as [|g gs IH]; intros h; simpl; [constructor|].
  destruct (filter_users us g h) as [[fs h1]|e]; simpl; [|constructor].
  destruct (dump_many UserSyncSchema_dump h1 fs) as [ds|e]; simpl;
    [|constructor].
  destruct (route _) as [[]|e]; simpl; [|by repeat constructor].
  specialize (IH h1). destruct (sync_gardens gs us h1) as [o t]. simpl in *.
  by constructor.
Qed.

End PushMore.

Section SyncMore.

Import UserSync Spec.

Variable hash : uval -> uval.
Variable User_validate : doc -> option string.
Variable UserPatchSchema_load : doc -> outcome doc.
Variable UserSyncSchema_dump : doc -> doc.
Variable garden_name : string.
Variable route : Stomp.Operation (list doc) -> outcome unit.

#[local] Abbreviation update_attrs := (update_attrs hash).
#[local] Abbreviation save := (save User_validate).
#[local] Abbreviation call_update_user :=
  (call_update_user hash User_validate UserSyncSchema_dump garden_name).
#[local] Abbreviation import_one :=
  (import_one hash User_validate UserPatchSchema_load UserSyncSchema_dump
     garden_name).
#[local] Abbreviation _import_users :=
  (_import_users hash User_validate UserPatchSchema_load UserSyncSchema_dump
     garden_name).
#[local] Abbreviation user_sync :=
  (user_sync hash User_validate UserPatchSchema_load UserSyncSchema_dump
     garden_name route).

(** One record of the import routes nothing. *)
Lemma import_one_routes_nothing su st :
  Forall (fun e => is_routed e = false) (import_one su st).2.
Proof.
  unfold UserSync.import_one.
  destruct (su !! "username") as [u|]; [|constructor].
  assert (Htry : Forall (fun e => is_routed e = false)
            (import_try hash User_validate UserPatchSchema_load
               UserSyncSchema_dump garden_name u su st).2).
  { unfold import_try.
    destruct (UserPatchSchema_load su) as [data|e]; [|constructor].
    assert (Hcall : forall i user st0,
      Forall (fun e => is_routed e = false)
        (call_update_user i user data st0).2).
    { intros i user st0. unfold UserSync.call_update_user, update_user.
      destruct (data !! "user"); simpl; [constructor|].
      destruct (UserSync.save _ _ _ _); simpl; by repeat constructor. }
    destruct (objects_get u (users st)) as [i d| |]; [apply Hcall| |constructor].
    destruct (data !! "role_assignments") as [ras|]; [|constructor].
    destruct (len ras) as [n|e]; [|constructor].
    destruct (0 <? n)%nat; [|constructor].
    destruct (UserSync.save _ _ _ _); [apply Hcall|constructor]. }
  destruct (UserSync.import_try _ _ _ _ _ _ _ _) as [[[[]|e] st'] t];
    simpl in *; [done|].
  destruct (bool_decide _); simpl; [|done].
  apply Forall_app. split; [done|]. by repeat constructor.
Qed.

Lemma import_users_route_nothing rs st :
  Forall (fun e => is_routed e = false) (_import_users rs st).2.
Proof.
  revert st. induction rs as [|r rs IH]; intros st; simpl; [constructor|].
  pose proof (import_one_routes_nothing r st) as Hone.
  destruct (import_one r st) as [[[[]|e] st1] t1]; simpl in *; [|done].
  specialize (IH st1).
  destruct (_import_users rs st1) as [[o st2] t2]. simpl in *.
  apply Forall_app. by split.
Qed.

(** X20.  [user_sync] imports first and pushes afterwards: its effects are the
    import's (log lines and published events, no routed operation)
    followed by routed operations only; the store it leaves is the
    import's; and when the import raises, that exception leaves
    [user_sync] and nothing is routed. *)
Theorem user_sync_imports_then_pushes payload st :
  exists pushed,
    (user_sync payload st).2 = (_import_users payload st).2 ++ pushed
    /\ Forall (fun e => is_routed e = false) (_import_users payload st).2
    /\ Forall (fun e => is_routed e = true) pushed
    /\ db_of (user_sync payload st) = db_of (_import_users payload st)
    /\ (forall e, outcome_of (_import_users payload st) = Raise e ->
        outcome_of (user_sync payload st) = Raise e /\ pushed = []).
Proof.
  pose proof (import_users_route_nothing payload st) as Himp.
  unfold UserSync.user_sync, db_of, outcome_of.
  destruct (_import_users payload st) as [[[[]|e] st1] t1] eqn:Hrun;
    simpl in *.
  - pose proof (sync_gardens_only_routes UserSyncSchema_dump route
                  (List.filter is_remote (gardens st1))
                  (objects_all (users st1) []).1
                  (objects_all (users st1) []).2) as Hpush.
    unfold initiate_user_sync.
    destruct (objects_all (users st1) []) as [us h]. simpl in Hpush.
    destruct (sync_gardens _ _ _ us h) as [o t2]. simpl in *.
    exists t2. split; [done|]. split; [done|]. split; [done|].
    split; [done|]. intros e. discriminate.
  - exists []. rewrite app_nil_r. split; [done|]. split; [done|].
    split; [constructor|]. split; [done|]. by intros e' [= <-].
Qed.

Section Usernames.

(** The patch schema has no [username] field. *)
Hypothesis load_keeps_username :
  forall su data, UserPatchSchema_load su = Return data ->
                  data !! "username" = None.

(** The users a store holds at its places, by username. *)
#[local] Abbreviation keeps_users us us' :=
  (forall i (d : doc), (us : list doc) !! i = Some d ->
     exists d' : doc,
       (us' : list doc) !! i = Some d' /\ d' !! "username" = d !! "username").

Lemma keeps_users_refl (us : list doc) : keeps_users us us.
Proof. intros i d Hi. by exists d. Qed.

Lemma keeps_users_trans (us1 us2 us3 : list doc) :
  keeps_users us1 us2 -> keeps_users us2 us3 -> keeps_users us1 us3.
Proof.
  intros H12 H23 i d Hi.
  destruct (H12 i d Hi) as (d' & Hi' & Hu').
  destruct (H23 i d' Hi') as (d'' & Hi'' & Hu'').
  exists d''. split; [done|]. congruence.
Qed.

Lemma keeps_users_insert (us : list doc) i d d' :
  us !! i = Some d -> d' !! "username" = d !! "username" ->
  keeps_users us (<[i := d']> us).
Proof.
  intros Hi Hu j d0 Hj. destruct (decide (j = i)) as [->|Hji].
  - exists d'. rewrite list_lookup_insert_eq by (by eapply lookup_lt_Some).
    split; [done|]. congruence.
  - exists d0. by rewrite list_lookup_insert_ne.
Qed.

Lemma keeps_users_snoc (us : list doc) d' : keeps_users us (us ++ [d']).
Proof.
  intros j d0 Hj. exists d0.
  by rewrite lookup_app_l by (by eapply lookup_lt_Some).
Qed.

Lemma unique_usernames_insert (us : list doc) i d d' :
  us !! i = Some d -> d' !! "username" = d !! "username" ->
  unique_usernames us -> unique_usernames (<[i := d']> us).
Proof.
  intros Hi Hu Huniq j k a b u Hj Hk Ha Hb.
  pose proof (lookup_lt_Some _ _ _ Hi) as Hlt. unfold has_username in *.
  destruct (decide (j = i)) as [->|Hji];
    destruct (decide (k = i)) as [->|Hki]; [done| | |].
  - rewrite list_lookup_insert_eq in Hj by done. injection Hj as <-.
    rewrite list_lookup_insert_ne in Hk by done.
    eapply (Huniq _ _ _ _ u Hi Hk); unfold has_username; congruence.
  - rewrite list_lookup_insert_eq in Hk by done. injection Hk as <-.
    rewrite list_lookup_insert_ne in Hj by done.
    eapply (Huniq _ _ _ _ u Hj Hi); unfold has_username; congruence.
  - rewrite list_lookup_insert_ne in Hj, Hk by done.
    by eapply (Huniq _ _ _ _ u Hj Hk).
Qed.

Lemma unique_usernames_snoc (us : list doc) u d' :
  (forall j d, us !! j = Some d -> ~ has_username u d) ->
  d' !! "username" = Some u ->
  unique_usernames us -> unique_usernames (us ++ [d']).
Proof.
  intros Hno Hu Huniq j k a b u' Hj Hk Ha Hb.
  pose proof (lookup_lt_Some _ _ _ Hj) as Hlj.
  pose proof (lookup_lt_Some _ _ _ Hk) as Hlk.
  rewrite length_app in Hlj, Hlk. simpl in Hlj, Hlk.
  unfold has_username in *.
  destruct (decide (j < length us)) as [Hj'|Hj'];
    destruct (decide (k < length us)) as [Hk'|Hk']; [| | |lia].
  - rewrite lookup_app_l in Hj, Hk by done.
    by eapply (Huniq _ _ _ _ u' Hj Hk).
  - rewrite lookup_app_l in Hj by done.
    rewrite lookup_app_r in Hk by lia.
    replace (k - length us) with 0 in Hk by lia. injection Hk as <-.
    destruct (Hno _ _ Hj). unfold has_username. congruence.
  - rewrite lookup_app_l in Hk by done.
    rewrite lookup_app_r in Hj by lia.
    replace (j - length us) with 0 in Hj by lia. injection Hj as <-.
    destruct (Hno _ _ Hk). unfold has_username. congruence.
Qed.

(** What one record does to the collection of users. *)
Lemma import_one_users su st :
  remote_users (db_of (import_one su st)) = remote_users st
  /\ gardens (db_of (import_one su st)) = gardens st
  /\ keeps_users (users st) (users (db_of (import_one su st)))
  /\ (unique_usernames (users st) ->
      unique_usernames (users (db_of (import_one su st)))).
Proof.
  assert (Hsame : remote_users st = remote_users st /\ gardens st = gardens st
            /\ keeps_users (users st) (users st)
            /\ (unique_usernames (users st) -> unique_usernames (users st))).
  { split; [done|]. split; [done|]. split; [apply keeps_users_refl|done]. }
  unfold db_of, UserSync.import_one.
  destruct (su !! "username") as [u|] eqn:Hu; [|exact Hsame].
  unfold import_try.
  destruct (UserPatchSchema_load su) as [data|e] eqn:Hload.
  2:{ simpl. by destruct (bool_decide _). }
  assert (Hname : forall user : doc,
    update_attrs user (data !! "hashed_password")
      (delete "hashed_password" data) !! "username" = user !! "username").
  { intros user. apply update_attrs_other; [|done].
    rewrite lookup_delete_ne by done. by eapply load_keeps_username. }
  destruct (objects_get u (users st)) as [i d| |] eqn:Hget.
  - destruct (call_update_user_cases hash User_validate UserSyncSchema_dump
                garden_name i d data st)
      as [(e & -> & Hc) | (_ & _ & _ & ->)].
    { rewrite bool_decide_eq_false_2 by done. exact Hsame. }
    simpl. apply objects_get_Found in Hget as (Hi & _).
    rewrite write_at by (by eapply lookup_lt_Some).
    split; [done|]. split; [done|].
    split; [by eapply keeps_users_insert|].
    by eapply unique_usernames_insert.
  - pose proof (proj1 (objects_get_DoesNotExist _ _) Hget) as Hno.
    destruct (data !! "role_assignments") as [ras|]; simpl; [|exact Hsame].
    destruct (len ras) as [n|e]; simpl; [|by destruct (bool_decide _)].
    destruct n as [|n]; simpl; [exact Hsame|].
    destruct (save_outcomes User_validate (length (users st))
                {[ "username" := u ]} st)
      as [(e & -> & Hc) | (_ & _ & ->)].
    { rewrite bool_decide_eq_false_2 by done. exact Hsame. }
    rewrite write_new.
    destruct (call_update_user_cases hash User_validate UserSyncSchema_dump
                garden_name (length (users st)) {[ "username" := u ]} data
                (with_users st (users st ++ [{[ "username" := u ]}])))
      as [(e & -> & Hc) | (_ & _ & _ & ->)].
    + rewrite bool_decide_eq_false_2 by done. simpl.
      split; [done|]. split; [done|].
      split; [apply keeps_users_snoc|].
      apply (unique_usernames_snoc _ u); [done|].
      by rewrite lookup_singleton_eq.
    + simpl. rewrite write_created.
      split; [done|]. split; [done|].
      split; [apply keeps_users_snoc|].
      apply (unique_usernames_snoc _ u); [done|].
      by rewrite Hname, lookup_singleton_eq.
  - exact Hsame.
Qed.

Lemma import_users_users rs st :
  remote_users (db_of (_import_users rs st)) = remote_users st
  /\ gardens (db_of (_import_users rs st)) = gardens st
  /\ keeps_users (users st) (users (db_of (_import_users rs st)))
  /\ (unique_usernames (users st) ->
      unique_usernames (users (db_of (_import_users rs st)))).
Proof.
  revert st. induction rs as [|r rs IH]; intros st.
  - split; [done|]. split; [done|]. split; [apply keeps_users_refl|done].
  - destruct (import_one_users r st) as (Hr & Hg & Hk & Hu).
    rewrite import_users_cons.
    destruct (import_one r st) as [[[[]|e] st1] t1];
      unfold db_of in *; simpl in *; [|done].
    destruct (IH st1) as (Hr' & Hg' & Hk' & Hu').
    destruct (_import_users rs st1) as [[o st2] t2]. simpl in *.
    split; [congruence|]. split; [congruence|].
    split; [by eapply keeps_users_trans|auto].
Qed.

(** X21.  [user_sync] never removes or renames a user and writes nothing but
    the users: every stored user is afterwards at its place under its
    username, and the shadow records and the gardens are as they
    were, for every payload and however the run ends. *)
Theorem user_sync_keeps_users payload st :
  remote_users (db_of (user_sync payload st)) = remote_users st
  /\ gardens (db_of (user_sync payload st)) = gardens st
  /\ length (users st) <= length (users (db_of (user_sync payload st)))
  /\ forall i d, users st !! i = Some d ->
       exists d', users (db_of (user_sync payload st)) !! i = Some d'
         /\ d' !! "username" = d !! "username".
Proof.
  rewrite user_sync_db.
  destruct (import_users_users payload st) as (Hr & Hg & Hk & _).
  split; [done|]. split; [done|]. split; [|done].
  destruct (decide (length (users st) = 0)) as [|Hpos]; [lia|].
  destruct (lookup_lt_is_Some_2 (users st) (length (users st) - 1))
    as [d Hd]; [lia|].
  destruct (Hk _ _ Hd) as (d' & Hd' & _).
  apply lookup_lt_Some in Hd'. lia.
Qed.

(** X22.  [user_sync] keeps usernames unique: on a store where no two users
    share a username, no payload makes two users share one. *)
Theorem user_sync_keeps_usernames_unique payload st :
  unique_usernames (users st) ->
  unique_usernames (users (db_of (user_sync payload st))).
Proof.
  rewrite user_sync_db.
  by destruct (import_users_users payload st) as (_ & _ & _ & Hu).
Qed.

End Usernames.

End SyncMore.

(** The router accepts the operation for [child] and refuses the one for
    [other]: the push ends there. *)
Lemma push_stops_at_first_routing_failure_witness :
  exists op_child op_other,
    UserSync.initiate_user_sync Sample.UserSyncSchema_dump
      Sample.route_child_only Sample.two_gardens_db
    = (Raise (Exn "RoutingError" "unknown garden"),
       [UserSync.Routed op_child; UserSync.Routed op_other])
    /\ Stomp.target_garden_name op_child = Some "child"
    /\ Stomp.target_garden_name op_other = Some "other".
Proof.
  assert (Hok : forall g', g' ∈ [Sample.child_garden] ->
            Sample.route_child_only
              (UserSync.sync_operation g'
                 (Sample.UserSyncSchema_dump <$>
                    (Spec.filtered_view g' <$>
                       UserSync.users Sample.two_gardens_db)))
            = Return tt).
  { intros g' Hg'. apply list_elem_of_singleton in Hg' as ->. reflexivity. }
  pose proof (push_stops_at_first_routing_failure Sample.UserSyncSchema_dump
                Sample.route_child_only Sample.two_gardens_db
                [Sample.child_garden] Sample.other_garden []
                (Exn "RoutingError" "unknown garden") eq_refl Hok eq_refl)
    as Hrun.
  eexists _, _. split; [exact Hrun|]. split; reflexivity.
Defined.

Lemma sample_usernames_unique :
  Spec.unique_usernames (UserSync.users Sample.parent_db).
Proof.
  intros i j d d' u Hi Hj _ _.
  apply lookup_lt_Some in Hi, Hj. simpl in Hi, Hj. lia.
Qed.

Lemma user_sync_keeps_users_witness :
  let st' :=
    Spec.db_of
      (UserSync.user_sync Sample.hash Sample.User_validate
         Sample.UserPatchSchema_load
         Sample.UserSyncSchema_dump "parent" Sample.route_sync
         [Sample.bob_wire; Sample.alice_wire] Sample.parent_db) in
  UserSync.remote_users st' = []
  /\ 1 <= length (UserSync.users st')
  /\ exists d', UserSync.users st' !! 0 = Some d'
       /\ d' !! "username" = Some (UserSync.UStr "alice").
Proof.
  intros st'.
  destruct (user_sync_keeps_users Sample.hash Sample.User_validate
              Sample.UserPatchSchema_load
              Sample.UserSyncSchema_dump "parent" Sample.route_sync
              sample_load_keeps_username
              [Sample.bob_wire; Sample.alice_wire] Sample.parent_db)
    as (Hr & _ & Hlen & Hkeep).
  split; [exact Hr|]. split; [exact Hlen|].
  exact (Hkeep 0 Sample.alice_doc eq_refl).
Defined.

Lemma user_sync_keeps_usernames_unique_witness :
  Spec.unique_usernames
    (UserSync.users
       (Spec.db_of
          (UserSync.user_sync Sample.hash Sample.User_validate
         Sample.UserPatchSchema_load
             Sample.UserSyncSchema_dump "parent" Sample.route_sync
             [Sample.bob_wire; Sample.alice_wire; Sample.bob_first_wire]
             Sample.parent_db))).
Proof.
  exact (user_sync_keeps_usernames_unique Sample.hash
           Sample.User_validate Sample.UserPatchSchema_load Sample.UserSyncSchema_dump "parent"
           Sample.route_sync sample_load_keeps_username
           [Sample.bob_wire; Sample.alice_wire; Sample.bob_first_wire]
           Sample.parent_db sample_usernames_unique).
Defined.
